(** * fortnox-node-oauth-kit: credential lifecycle, embedded in Rocq

    A shallow embedding of the OAuth credential subsystem:
    - [JS]: the JavaScript values the code manipulates (UTF-16 strings,
      completions, Buffers as byte lists, hex / base64url / UTF-8 codecs);
    - [Sha256]: the digest behind [crypto.createHash('sha256')];
    - [PKCE]: [src/utils/PKCE.ts];
    - [StateStorage]: [src/utils/stateStorage.ts];
    - [Json]: [JSON.parse], as used by [AuthorizationService.validateState];
    - [Encryption]: [src/stores/TokenEncryption.ts];
    - [Stores]: [src/stores/InMemoryStore.ts], [src/stores/PostgresStore.ts];
    - [Auth]: [src/services/AuthorizationService.ts];
    - [Tokens]: [src/services/TokenManager.ts], run on an event loop;
    - [Scenario]: the inputs of the scenarios the specification describes.

    Definitions come first, the properties follow in the second part. *)

From Stdlib Require Import ZArith Lia List String Ascii Bool.
From stdpp Require Import gmap.

Local Open Scope Z_scope.
Set Warnings "-register-all".

(* ===================================================================== *)
(** * Part I: the embedding                                               *)
(* ===================================================================== *)

(** ** JavaScript values *)

Module JS.

(** A JavaScript string is a sequence of UTF-16 code units. *)
Definition jsstring : Type := list Z.

Definition code_unit (c : Z) : Prop := 0 <= c < 65536.
Definition byte (b : Z) : Prop := 0 <= b < 256.

(** Every element is a 16-bit code unit. *)
Definition is_string (s : jsstring) : Prop := Forall code_unit s.
(** Every element is an octet (a [Buffer]). *)
Definition is_buffer (b : list Z) : Prop := Forall byte b.

(** A character of ASCII. *)
Definition is_ascii (c : Z) : Prop := 0 <= c < 128.

(** A string literal of the source, as code units. *)
Definition js (s : string) : jsstring :=
  map (fun a => Z.of_N (N_of_ascii a)) (list_ascii_of_string s).

(** Thrown values.  The repository only throws [new Error(message)]; the
    other constructors are the built-in errors raised by the runtime. *)
Inductive exn : Type :=
| Error (message : string)
| SyntaxError (message : string)
| TypeError (message : string)
| RangeError (message : string).

Definition message (e : exn) : string :=
  match e with
  | Error m | SyntaxError m | TypeError m | RangeError m => m
  end.

(** The outcome of evaluating an expression: a value or a throw. *)
Inductive completion (A : Type) : Type :=
| Normal (a : A)
| Throw (e : exn).
Arguments Normal {A} a.
Arguments Throw {A} e.

Definition bind {A B} (c : completion A) (k : A -> completion B) : completion B :=
  match c with
  | Normal a => k a
  | Throw e => Throw e
  end.

(** [try { c } catch (error) { h error }] *)
Definition try_catch {A} (c : completion A) (h : exn -> completion A) : completion A :=
  match c with
  | Normal a => Normal a
  | Throw e => h e
  end.

Definition throws {A} (c : completion A) : Prop := exists e, c = Throw e.

(** *** UTF-16 surrogates and [String.prototype.isWellFormed] *)

Definition is_high (c : Z) : bool := (0xD800 <=? c) && (c <=? 0xDBFF).
Definition is_low (c : Z) : bool := (0xDC00 <=? c) && (c <=? 0xDFFF).

Fixpoint isWellFormed (s : jsstring) : bool :=
  match s with
  | [] => true
  | c :: rest =>
      if is_high c then
        match rest with
        | d :: rest' => is_low d && isWellFormed rest'
        | [] => false
        end
      else if is_low c then false
      else isWellFormed rest
  end.

(** *** UTF-8, as [Buffer.from(s, 'utf8')] and [buf.toString('utf8')] *)

(** The bytes of one code point. *)
Definition utf8_of_cp (cp : Z) : list Z :=
  if cp <? 0x80 then [cp]
  else if cp <? 0x800 then [0xC0 + cp / 64; 0x80 + cp mod 64]
  else if cp <? 0x10000 then
    [0xE0 + cp / 4096; 0x80 + (cp / 64) mod 64; 0x80 + cp mod 64]
  else
    [0xF0 + cp / 262144; 0x80 + (cp / 4096) mod 64;
     0x80 + (cp / 64) mod 64; 0x80 + cp mod 64].

(** The code point of a surrogate pair. *)
Definition cp_of_pair (hi lo : Z) : Z :=
  0x10000 + (hi - 0xD800) * 1024 + (lo - 0xDC00).

(** Encoding a string: a surrogate pair is one code point, an unpaired
    surrogate is replaced by U+FFFD. *)
Fixpoint utf8_encode (s : jsstring) : list Z :=
  match s with
  | [] => []
  | c :: rest =>
      if is_high c then
        match rest with
        | d :: rest' =>
            if is_low d then utf8_of_cp (cp_of_pair c d) ++ utf8_encode rest'
            else utf8_of_cp 0xFFFD ++ utf8_encode rest
        | [] => utf8_of_cp 0xFFFD
        end
      else if is_low c then utf8_of_cp 0xFFFD ++ utf8_encode rest
      else utf8_of_cp c ++ utf8_encode rest
  end.

(** A Unicode scalar value: a code point that is not a surrogate. *)
Definition scalar (cp : Z) : Prop :=
  0 <= cp < 0x110000 /\ ~ (0xD800 <= cp <= 0xDFFF).

(** The code units of one code point. *)
Definition units_of_cp (cp : Z) : jsstring :=
  if cp <? 0x10000 then [cp]
  else [0xD800 + (cp - 0x10000) / 1024; 0xDC00 + (cp - 0x10000) mod 1024].

(** The decoder's state between bytes: the code point being assembled, the
    continuation bytes still needed, and the range allowed for the next
    byte. *)
Record utf8_state : Type := Utf8State {
  u_cp : Z;
  u_needed : nat;
  u_lower : Z;
  u_upper : Z
}.

Definition utf8_init : utf8_state := Utf8State 0 0 0x80 0xBF.

(** A byte read with no sequence pending. *)
Definition utf8_start (b : Z) : utf8_state * jsstring :=
  if (0 <=? b) && (b <=? 0x7F) then (utf8_init, [b])
  else if (0xC2 <=? b) && (b <=? 0xDF) then
    (Utf8State (b - 0xC0) 1 0x80 0xBF, [])
  else if (0xE0 <=? b) && (b <=? 0xEF) then
    (Utf8State (b - 0xE0) 2
       (if b =? 0xE0 then 0xA0 else 0x80)
       (if b =? 0xED then 0x9F else 0xBF), [])
  else if (0xF0 <=? b) && (b <=? 0xF4) then
    (Utf8State (b - 0xF0) 3
       (if b =? 0xF0 then 0x90 else 0x80)
       (if b =? 0xF4 then 0x8F else 0xBF), [])
  else (utf8_init, [0xFFFD]).

(** One byte.  A byte that cannot continue the pending sequence ends it
    with U+FFFD and is read again as the start of a sequence. *)
Definition utf8_step (st : utf8_state) (b : Z) : utf8_state * jsstring :=
  match u_needed st with
  | O => utf8_start b
  | S k =>
      if (u_lower st <=? b) && (b <=? u_upper st) then
        let cp := u_cp st * 64 + (b - 0x80) in
        match k with
        | O => (utf8_init, units_of_cp cp)
        | S _ => (Utf8State cp k 0x80 0xBF, [])
        end
      else
        let '(st', out) := utf8_start b in (st', 0xFFFD :: out)
  end.

Fixpoint utf8_decode_from (st : utf8_state) (bytes : list Z) : jsstring :=
  match bytes with
  | [] => match u_needed st with O => [] | S _ => [0xFFFD] end
  | b :: bs =>
      let '(st', out) := utf8_step st b in out ++ utf8_decode_from st' bs
  end.

Definition utf8_decode (bytes : list Z) : jsstring :=
  utf8_decode_from utf8_init bytes.

(** *** Hexadecimal, as [buf.toString('hex')] and [Buffer.from(s, 'hex')] *)

Definition hex_digit (n : Z) : Z := if n <? 10 then 48 + n else 87 + n.

Definition hex_encode (bs : list Z) : jsstring :=
  flat_map (fun b => [hex_digit (b / 16); hex_digit (b mod 16)]) bs.

Definition unhex (c : Z) : option Z :=
  if (48 <=? c) && (c <=? 57) then Some (c - 48)
  else if (97 <=? c) && (c <=? 102) then Some (c - 87)
  else if (65 <=? c) && (c <=? 70) then Some (c - 55)
  else None.

(** The decoder of [Buffer.from(s, 'hex')] looks a character up by its low
    eight bits: a code unit above 255 is read as the character of its low
    byte (U+0136 as the digit 6). *)
Definition unhex_low_byte (c : Z) : option Z := unhex (c mod 256).

(** Decoding reads pairs of digits and stops at the first pair that is not
    two hexadecimal digits; a trailing single character is dropped. *)
Fixpoint hex_decode (s : jsstring) : list Z :=
  match s with
  | c1 :: c2 :: rest =>
      match unhex_low_byte c1, unhex_low_byte c2 with
      | Some a, Some b => (a * 16 + b) :: hex_decode rest
      | _, _ => []
      end
  | _ => []
  end.

(** *** base64url without padding, as [buf.toString('base64url')] *)

Definition b64url_char (n : Z) : Z :=
  if n <? 26 then 65 + n
  else if n <? 52 then 97 + (n - 26)
  else if n <? 62 then 48 + (n - 52)
  else if n =? 62 then 45
  else 95.

Fixpoint base64url (bs : list Z) : jsstring :=
  match bs with
  | a :: b :: c :: rest =>
      b64url_char (a / 4)
      :: b64url_char ((a mod 4) * 16 + b / 16)
      :: b64url_char ((b mod 16) * 4 + c / 64)
      :: b64url_char (c mod 64)
      :: base64url rest
  | [a; b] =>
      [b64url_char (a / 4); b64url_char ((a mod 4) * 16 + b / 16);
       b64url_char ((b mod 16) * 4)]
  | [a] => [b64url_char (a / 4); b64url_char ((a mod 4) * 16)]
  | [] => []
  end.

(** *** Buffers *)

(** [buf.subarray(start, end)] for in-range, ordered indices. *)
Definition subarray (buf : list Z) (start stop : nat) : list Z :=
  take (stop - start) (drop start buf).

(** [buf.subarray(start)] *)
Definition subarray_from (buf : list Z) (start : nat) : list Z :=
  drop start buf.

Definition bytes_eqb (a b : list Z) : bool :=
  bool_decide (a = b).

(** [crypto.timingSafeEqual(a, b)]: buffers of different byte length are
    refused with a RangeError. *)
Definition timingSafeEqual (a b : list Z) : completion bool :=
  if decide (length a = length b) then Normal (bytes_eqb a b)
  else Throw (RangeError "Input buffers must have the same byte length").

End JS.

(** ** SHA-256 (FIPS 180-4), the digest of [crypto.createHash('sha256')] *)

Module Sha256.

Definition w32 (x : Z) : Z := x mod 4294967296.
Definition add32 (a b : Z) : Z := w32 (a + b).
Definition rotr (n x : Z) : Z :=
  Z.lor (Z.shiftr x n) (w32 (Z.shiftl x (32 - n))).
Definition shr (n x : Z) : Z := Z.shiftr x n.
Definition not32 (x : Z) : Z := 4294967295 - x.

Definition Ch (x y z : Z) : Z := Z.lxor (Z.land x y) (Z.land (not32 x) z).
Definition Maj (x y z : Z) : Z :=
  Z.lxor (Z.lxor (Z.land x y) (Z.land x z)) (Z.land y z).
Definition Sigma0 (x : Z) : Z := Z.lxor (Z.lxor (rotr 2 x) (rotr 13 x)) (rotr 22 x).
Definition Sigma1 (x : Z) : Z := Z.lxor (Z.lxor (rotr 6 x) (rotr 11 x)) (rotr 25 x).
Definition sigma0 (x : Z) : Z := Z.lxor (Z.lxor (rotr 7 x) (rotr 18 x)) (shr 3 x).
Definition sigma1 (x : Z) : Z := Z.lxor (Z.lxor (rotr 17 x) (rotr 19 x)) (shr 10 x).

(** The round constants: the first 32 bits of the fractional parts of the
    cube roots of the first 64 primes. *)
Definition K : list Z :=
  [1116352408; 1899447441; 3049323471; 3921009573;
   961987163; 1508970993; 2453635748; 2870763221;
   3624381080; 310598401; 607225278; 1426881987;
   1925078388; 2162078206; 2614888103; 3248222580;
   3835390401; 4022224774; 264347078; 604807628;
   770255983; 1249150122; 1555081692; 1996064986;
   2554220882; 2821834349; 2952996808; 3210313671;
   3336571891; 3584528711; 113926993; 338241895;
   666307205; 773529912; 1294757372; 1396182291;
   1695183700; 1986661051; 2177026350; 2456956037;
   2730485921; 2820302411; 3259730800; 3345764771;
   3516065817; 3600352804; 4094571909; 275423344;
   430227734; 506948616; 659060556; 883997877;
   958139571; 1322822218; 1537002063; 1747873779;
   1955562222; 2024104815; 2227730452; 2361852424;
   2428436474; 2756734187; 3204031479; 3329325298].

(** The eight working registers. *)
Record regs : Type := Regs {
  ra : Z; rb : Z; rc : Z; rd : Z; re : Z; rf : Z; rg : Z; rh : Z
}.

(** The initial hash value: from the square roots of the first 8 primes. *)
Definition H0 : regs :=
  Regs 1779033703 3144134277 1013904242 2773480762
       1359893119 2600822924 528734635 1541459225.

Definition be32 (w : Z) : list Z :=
  [(w / 16777216) mod 256; (w / 65536) mod 256; (w / 256) mod 256; w mod 256].

Definition be64 (w : Z) : list Z := be32 (w / 4294967296) ++ be32 (w mod 4294967296).

Fixpoint words_of_bytes (bs : list Z) : list Z :=
  match bs with
  | a :: b :: c :: d :: rest =>
      (((a * 256 + b) * 256 + c) * 256 + d) :: words_of_bytes rest
  | _ => []
  end.

(** The message, a one bit, zeros up to 56 modulo 64, the bit length. *)
Definition pad (msg : list Z) : list Z :=
  let len := Z.of_nat (length msg) in
  msg ++ [0x80] ++ repeat 0 (Z.to_nat ((55 - len) mod 64)) ++ be64 (8 * len).

(** The schedule, most recent word first: [ws] holds W(t-1) .. W(0). *)
Definition next_word (ws : list Z) : Z :=
  add32 (add32 (sigma1 (nth 1 ws 0)) (nth 6 ws 0))
        (add32 (sigma0 (nth 14 ws 0)) (nth 15 ws 0)).

Fixpoint extend (n : nat) (ws : list Z) : list Z :=
  match n with
  | O => ws
  | S k => extend k (next_word ws :: ws)
  end.

Definition schedule (block : list Z) : list Z := rev (extend 48 (rev block)).

Definition round (r : regs) (kw : Z * Z) : regs :=
  let t1 := add32 (add32 (add32 (rh r) (Sigma1 (re r)))
                         (add32 (Ch (re r) (rf r) (rg r)) (fst kw))) (snd kw) in
  let t2 := add32 (Sigma0 (ra r)) (Maj (ra r) (rb r) (rc r)) in
  Regs (add32 t1 t2) (ra r) (rb r) (rc r) (add32 (rd r) t1) (re r) (rf r) (rg r).

Definition compress (h : regs) (block : list Z) : regs :=
  let r := fold_left round (combine K (schedule block)) h in
  Regs (add32 (ra h) (ra r)) (add32 (rb h) (rb r)) (add32 (rc h) (rc r))
       (add32 (rd h) (rd r)) (add32 (re h) (re r)) (add32 (rf h) (rf r))
       (add32 (rg h) (rg r)) (add32 (rh h) (rh r)).

Fixpoint blocks (fuel : nat) (h : regs) (ws : list Z) : regs :=
  match fuel, ws with
  | S f, _ :: _ => blocks f (compress h (take 16 ws)) (drop 16 ws)
  | _, _ => h
  end.

Definition bytes_of_regs (r : regs) : list Z :=
  be32 (ra r) ++ be32 (rb r) ++ be32 (rc r) ++ be32 (rd r) ++
  be32 (re r) ++ be32 (rf r) ++ be32 (rg r) ++ be32 (rh r).

Definition sha256 (msg : list Z) : list Z :=
  let ws := words_of_bytes (pad msg) in
  bytes_of_regs (blocks (length ws) H0 ws).

End Sha256.

(** ** PKCE utilities ([src/utils/PKCE.ts]) *)

Module PKCE.
Import JS.

(** [!s] for a string: only the empty string is falsy. *)
Definition falsy (s : jsstring) : bool :=
  match s with [] => true | _ :: _ => false end.

(** [createCodeVerifier(length)]; [randomBytes] is the system's generator. *)
Definition createCodeVerifier (randomBytes : Z -> list Z) (length : Z)
  : completion jsstring :=
  if (length <? 43) || (length >? 128) then
    Throw (Error "Code verifier length must be between 43 and 128 characters")
  else
    Normal (take (Z.to_nat length) (base64url (randomBytes length))).

Definition createCodeChallenge (codeVerifier : jsstring) : completion jsstring :=
  if falsy codeVerifier
     || (Z.of_nat (length codeVerifier) <? 43)
     || (Z.of_nat (length codeVerifier) >? 128)
  then Throw (Error "Invalid code verifier")
  else Normal (base64url (Sha256.sha256 (utf8_encode codeVerifier))).

Definition verifyCodeChallenge (codeVerifier codeChallenge : jsstring)
  : completion bool :=
  if falsy codeVerifier || falsy codeChallenge then Normal false
  else
    bind (createCodeChallenge codeVerifier) (fun calculatedChallenge =>
      timingSafeEqual (utf8_encode calculatedChallenge)
                      (utf8_encode codeChallenge)).

(** A verifier the code accepts: not empty, 43 to 128 code units. *)
Definition valid_verifier (v : jsstring) : Prop :=
  (43 <= length v <= 128)%nat.

End PKCE.

(** ** Secure state storage ([src/utils/stateStorage.ts]) *)

Module StateStorage.
Import JS.

Definition DEFAULT_EXPIRY_MS : Z := 10 * 60 * 1000.

Record StateEntry : Type := {
  data : jsstring;
  expires : Z
}.

(** [InMemoryStateStorage.states]: a [Map<string, StateEntry>].  Every
    operation takes the reading of [Date.now()] at the call; a caller that
    leaves [expiryMs] out passes [DEFAULT_EXPIRY_MS]. *)
Definition saveState (now : Z) (state data : jsstring) (expiryMs : Z)
    (states : gmap jsstring StateEntry) : gmap jsstring StateEntry :=
  <[state := {| data := data; expires := now + expiryMs |}]> states.

Definition validateAndRemoveState (now : Z) (state : jsstring)
    (states : gmap jsstring StateEntry)
  : option jsstring * gmap jsstring StateEntry :=
  let entry := states !! state in
  let states' := delete state states in
  match entry with
  | None => (None, states')
  | Some e => if expires e <? now then (None, states') else (Some (data e), states')
  end.

Definition clearExpired (now : Z) (states : gmap jsstring StateEntry)
  : gmap jsstring StateEntry :=
  filter (fun kv => ~ (expires (snd kv) < now)) states.

(** [generateSecureState()]; [randomBytes] is the system's generator. *)
Definition generateSecureState (randomBytes : Z -> list Z) : jsstring :=
  hex_encode (randomBytes 32).

(** The calls a client of the storage can make, with the clock at the call. *)
Inductive op : Type :=
| SaveState (now : Z) (state data : jsstring) (expiryMs : Z)
| ValidateAndRemoveState (now : Z) (state : jsstring)
| ClearExpired (now : Z).

Definition run_op (o : op) (states : gmap jsstring StateEntry)
  : gmap jsstring StateEntry :=
  match o with
  | SaveState now state data expiryMs => saveState now state data expiryMs states
  | ValidateAndRemoveState now state => snd (validateAndRemoveState now state states)
  | ClearExpired now => clearExpired now states
  end.

Definition run_ops (ops : list op) (states : gmap jsstring StateEntry)
  : gmap jsstring StateEntry :=
  fold_left (fun st o => run_op o st) ops states.

(** The call [o] leaves the key [s] alone: it saves or takes another key,
    or it is a cleanup. *)
Definition other_key (s : jsstring) (o : op) : Prop :=
  match o with
  | SaveState _ k _ _ => k <> s
  | ValidateAndRemoveState _ k => k <> s
  | ClearExpired _ => True
  end.

(** A cleanup in [o] runs no later than [deadline]. *)
Definition cleanup_by (deadline : Z) (o : op) : Prop :=
  match o with
  | ClearExpired now => now <= deadline
  | _ => True
  end.

End StateStorage.

(** ** [JSON.parse] (ECMA-404) *)

Module Json.
Import JS.

(** A parsed value.  A number keeps its literal: no arithmetic is done on
    it here. *)
Inductive value : Type :=
| JNull
| JBool (b : bool)
| JNumber (literal : jsstring)
| JString (s : jsstring)
| JArray (items : list value)
| JObject (members : list (jsstring * value)).

Inductive parsed (A : Type) : Type :=
| Parsed (a : A) (rest : jsstring)
| Malformed
| Exhausted.
Arguments Parsed {A} a rest.
Arguments Malformed {A}.
Arguments Exhausted {A}.

Definition is_ws (c : Z) : bool :=
  (c =? 32) || (c =? 9) || (c =? 10) || (c =? 13).

Fixpoint skip_ws (s : jsstring) : jsstring :=
  match s with
  | c :: rest => if is_ws c then skip_ws rest else s
  | [] => []
  end.

Definition is_digit (c : Z) : bool := (48 <=? c) && (c <=? 57).

Fixpoint span_digits (s : jsstring) : jsstring * jsstring :=
  match s with
  | c :: rest =>
      if is_digit c then let '(ds, r) := span_digits rest in (c :: ds, r)
      else ([], s)
  | [] => ([], [])
  end.

(** The characters of a string after its opening quote, up to and
    including the closing quote. *)
Fixpoint parse_chars (s acc : jsstring) : parsed jsstring :=
  match s with
  | [] => Malformed
  | c :: r =>
      if c =? 34 then Parsed (rev acc) r
      else if c =? 92 then
        match r with
        | [] => Malformed
        | e :: r1 =>
            if e =? 34 then parse_chars r1 (34 :: acc)
            else if e =? 92 then parse_chars r1 (92 :: acc)
            else if e =? 47 then parse_chars r1 (47 :: acc)
            else if e =? 98 then parse_chars r1 (8 :: acc)
            else if e =? 102 then parse_chars r1 (12 :: acc)
            else if e =? 110 then parse_chars r1 (10 :: acc)
            else if e =? 114 then parse_chars r1 (13 :: acc)
            else if e =? 116 then parse_chars r1 (9 :: acc)
            else if e =? 117 then
              match r1 with
              | h1 :: h2 :: h3 :: h4 :: r2 =>
                  match unhex h1, unhex h2, unhex h3, unhex h4 with
                  | Some a, Some b, Some c', Some d =>
                      parse_chars r2 ((((a * 16 + b) * 16 + c') * 16 + d) :: acc)
                  | _, _, _, _ => Malformed
                  end
              | _ => Malformed
              end
            else Malformed
        end
      else if (0 <=? c) && (c <? 32) then Malformed
      else parse_chars r (c :: acc)
  end.

(** A number: an optional minus sign; a zero, or a non-zero digit and
    more digits; optionally a point and digits; optionally an exponent. *)
Definition parse_int (s : jsstring) : option (jsstring * jsstring) :=
  match s with
  | c :: r =>
      if c =? 48 then Some ([48], r)
      else if is_digit c then let '(ds, r') := span_digits r in Some (c :: ds, r')
      else None
  | [] => None
  end.

Definition parse_frac (s : jsstring) : option (jsstring * jsstring) :=
  match s with
  | 46 :: r =>
      match span_digits r with
      | ([], _) => None
      | (ds, r') => Some (46 :: ds, r')
      end
  | _ => Some ([], s)
  end.

Definition parse_exp (s : jsstring) : option (jsstring * jsstring) :=
  match s with
  | e :: r =>
      if (e =? 101) || (e =? 69) then
        let '(sign, r1) :=
          match r with
          | g :: r' => if (g =? 43) || (g =? 45) then ([g], r') else ([], r)
          | [] => ([], r)
          end in
        match span_digits r1 with
        | ([], _) => None
        | (ds, r2) => Some (e :: sign ++ ds, r2)
        end
      else Some ([], s)
  | [] => Some ([], s)
  end.

Definition parse_number (s : jsstring) : parsed value :=
  let '(sign, s1) :=
    match s with
    | 45 :: r => ([45], r)
    | _ => ([], s)
    end in
  match parse_int s1 with
  | None => Malformed
  | Some (i, s2) =>
      match parse_frac s2 with
      | None => Malformed
      | Some (f, s3) =>
          match parse_exp s3 with
          | None => Malformed
          | Some (e, s4) => Parsed (JNumber (sign ++ i ++ f ++ e)) s4
          end
      end
  end.

Fixpoint strip_prefix (p s : jsstring) : option jsstring :=
  match p, s with
  | [], _ => Some s
  | a :: p', b :: s' => if a =? b then strip_prefix p' s' else None
  | _ :: _, [] => None
  end.

(** One value, with leading white space.  [fuel] bounds the calls in
    flight; twice the length of the text is always enough (see
    [JsonFacts.parse_never_exhausted]). *)
Fixpoint parse_value (fuel : nat) (s : jsstring) : parsed value :=
  match fuel with
  | O => Exhausted
  | S f =>
      match skip_ws s with
      | [] => Malformed
      | c :: r =>
          if c =? 123 then
            match skip_ws r with
            | d :: r' => if d =? 125 then Parsed (JObject []) r' else parse_members f r []
            | [] => Malformed
            end
          else if c =? 91 then
            match skip_ws r with
            | d :: r' => if d =? 93 then Parsed (JArray []) r' else parse_elements f r []
            | [] => Malformed
            end
          else if c =? 34 then
            match parse_chars r [] with
            | Parsed str r' => Parsed (JString str) r'
            | _ => Malformed
            end
          else if c =? 116 then
            match strip_prefix (js "rue") r with
            | Some r' => Parsed (JBool true) r'
            | None => Malformed
            end
          else if c =? 102 then
            match strip_prefix (js "alse") r with
            | Some r' => Parsed (JBool false) r'
            | None => Malformed
            end
          else if c =? 110 then
            match strip_prefix (js "ull") r with
            | Some r' => Parsed JNull r'
            | None => Malformed
            end
          else parse_number (c :: r)
      end
  end
with parse_members (fuel : nat) (s : jsstring) (acc : list (jsstring * value))
  : parsed value :=
  match fuel with
  | O => Exhausted
  | S f =>
      match skip_ws s with
      | c :: r =>
          if c =? 34 then
            match parse_chars r [] with
            | Parsed key r1 =>
                match skip_ws r1 with
                | c2 :: r2 =>
                    if c2 =? 58 then
                      match parse_value f r2 with
                      | Parsed v r3 =>
                          match skip_ws r3 with
                          | c3 :: r4 =>
                              if c3 =? 44 then parse_members f r4 ((key, v) :: acc)
                              else if c3 =? 125 then
                                Parsed (JObject (rev ((key, v) :: acc))) r4
                              else Malformed
                          | [] => Malformed
                          end
                      | Malformed => Malformed
                      | Exhausted => Exhausted
                      end
                    else Malformed
                | [] => Malformed
                end
            | _ => Malformed
            end
          else Malformed
      | [] => Malformed
      end
  end
with parse_elements (fuel : nat) (s : jsstring) (acc : list value) : parsed value :=
  match fuel with
  | O => Exhausted
  | S f =>
      match parse_value f s with
      | Parsed v r =>
          match skip_ws r with
          | c :: r' =>
              if c =? 44 then parse_elements f r' (v :: acc)
              else if c =? 93 then Parsed (JArray (rev (v :: acc))) r'
              else Malformed
          | [] => Malformed
          end
      | Malformed => Malformed
      | Exhausted => Exhausted
      end
  end.

(** [JSON.parse(text)]: one value, white space around it, nothing else. *)
Definition parse (text : jsstring) : completion value :=
  match parse_value (S (length text + length text)) text with
  | Parsed v rest =>
      match skip_ws rest with
      | [] => Normal v
      | _ :: _ => Throw (SyntaxError "Unexpected non-whitespace character after JSON")
      end
  | _ => Throw (SyntaxError "Unexpected token in JSON")
  end.

(** The value of [members[name]] for an object built by [JSON.parse]: of
    two members with one name the later one stands. *)
Fixpoint lookup_member (name : jsstring) (members : list (jsstring * value))
  : option value :=
  match members with
  | [] => None
  | (k, v) :: rest =>
      match lookup_member name rest with
      | Some v' => Some v'
      | None => if decide (k = name) then Some v else None
      end
  end.

(** [JSON.stringify] of a string (QuoteJSONString): the quote, the
    backslash and the control characters are escaped, and so is a surrogate
    that has no partner. *)
Definition hex4 (c : Z) : jsstring :=
  [hex_digit (c / 4096); hex_digit ((c / 256) mod 16);
   hex_digit ((c / 16) mod 16); hex_digit (c mod 16)].

Definition unicode_escape (c : Z) : jsstring := 92 :: 117 :: hex4 c.

Fixpoint quote_body (s : jsstring) : jsstring :=
  match s with
  | [] => []
  | c :: rest =>
      if c =? 8 then 92 :: 98 :: quote_body rest
      else if c =? 9 then 92 :: 116 :: quote_body rest
      else if c =? 10 then 92 :: 110 :: quote_body rest
      else if c =? 12 then 92 :: 102 :: quote_body rest
      else if c =? 13 then 92 :: 114 :: quote_body rest
      else if c =? 34 then 92 :: 34 :: quote_body rest
      else if c =? 92 then 92 :: 92 :: quote_body rest
      else if (0 <=? c) && (c <? 32) then unicode_escape c ++ quote_body rest
      else if is_high c then
        match rest with
        | d :: rest' =>
            if is_low d then c :: d :: quote_body rest'
            else unicode_escape c ++ quote_body rest
        | [] => unicode_escape c
        end
      else if is_low c then unicode_escape c ++ quote_body rest
      else c :: quote_body rest
  end.

Definition stringify_string (s : jsstring) : jsstring :=
  34 :: quote_body s ++ [34].

End Json.

(** ** Authorization service ([src/services/AuthorizationService.ts]) *)

Module Auth.
Import JS StateStorage.

(** The service: what its constructor keeps, the state storage apart
    (it is passed to each call and returned by it). *)
Record AuthorizationService : Type := {
  clientId : jsstring;
  clientSecret : jsstring;
  redirectUri : jsstring;
  scopes : list jsstring;
  authBaseUrl : jsstring
}.

Record FortnoxAuthOptions : Type := {
  opt_state : option jsstring;
  opt_codeVerifier : option jsstring
}.

Record FortnoxAuthPayload : Type := {
  authUrl : jsstring;
  state : jsstring;
  payload_codeVerifier : jsstring
}.

(** [x || y] on strings that may be missing. *)
Definition or_else (x : option jsstring) (y : completion jsstring)
  : completion jsstring :=
  match x with
  | Some (c :: s) => Normal (c :: s)
  | _ => y
  end.

(** [scopes.join(' ')] *)
Fixpoint join_space (l : list jsstring) : jsstring :=
  match l with
  | [] => []
  | [x] => x
  | x :: rest => x ++ 32 :: join_space rest
  end.

(** [JSON.stringify({ userId, codeVerifier })] for two strings. *)
Definition stringify_state_data (userId codeVerifier : jsstring) : jsstring :=
  js "{" ++ Json.stringify_string (js "userId") ++ js ":"
  ++ Json.stringify_string userId ++ js ","
  ++ Json.stringify_string (js "codeVerifier") ++ js ":"
  ++ Json.stringify_string codeVerifier ++ js "}".

(** [generateAuthUrl(userId, options)].  [randomBytes k] is the [k]-th draw
    of the system's generator, and [qs_stringify] the query-string encoder
    of the [qs] package. *)
Definition generateAuthUrl
    (qs_stringify : list (jsstring * jsstring) -> jsstring)
    (randomBytes : nat -> Z -> list Z)
    (service : AuthorizationService) (now : Z) (userId : jsstring)
    (options : FortnoxAuthOptions) (stateStorage : gmap jsstring StateEntry)
  : completion FortnoxAuthPayload * gmap jsstring StateEntry :=
  match
    bind (or_else (opt_state options)
            (Normal (generateSecureState (randomBytes 0%nat)))) (fun state =>
    bind (or_else (opt_codeVerifier options)
            (PKCE.createCodeVerifier (randomBytes 1%nat) 64)) (fun codeVerifier =>
    bind (PKCE.createCodeChallenge codeVerifier) (fun codeChallenge =>
    Normal (state, codeVerifier, codeChallenge))))
  with
  | Throw e => (Throw e, stateStorage)
  | Normal (state, codeVerifier, codeChallenge) =>
      let stateData := stringify_state_data userId codeVerifier in
      let stateStorage' :=
        saveState now state stateData DEFAULT_EXPIRY_MS stateStorage in
      let queryParams :=
        [(js "client_id", clientId service);
         (js "redirect_uri", redirectUri service);
         (js "response_type", js "code");
         (js "scope", join_space (scopes service));
         (js "state", state);
         (js "code_challenge", codeChallenge);
         (js "code_challenge_method", js "S256")] in
      (Normal {| authUrl := authBaseUrl service ++ js "/auth?" ++ qs_stringify queryParams;
                 state := state;
                 payload_codeVerifier := codeVerifier |},
       stateStorage')
  end.

(** What [validateState] hands back: the two properties read off the parsed
    payload, each [undefined] ([None]) or whatever JSON value was there. *)
Record StateData : Type := {
  userId : option Json.value;
  codeVerifier : option Json.value
}.

(** [const { userId, codeVerifier } = v]: reading a property of [null]
    throws a TypeError; a primitive, an array or an object without the
    member yields [undefined]. *)
Definition destructure (v : Json.value) : completion StateData :=
  match v with
  | Json.JNull => Throw (TypeError "Cannot destructure property 'userId' of null")
  | Json.JObject members =>
      Normal {| userId := Json.lookup_member (js "userId") members;
                codeVerifier := Json.lookup_member (js "codeVerifier") members |}
  | _ => Normal {| userId := None; codeVerifier := None |}
  end.

(** [validateState(state)]: the result ([null] is [None]) and the storage
    after the call. *)
Definition validateState (now : Z) (state : jsstring)
    (stateStorage : gmap jsstring StateEntry)
  : completion (option StateData) * gmap jsstring StateEntry :=
  let '(stateData, stateStorage') := validateAndRemoveState now state stateStorage in
  match stateData with
  | None => (Normal None, stateStorage')
  | Some [] => (Normal None, stateStorage')
  | Some (c :: d) =>
      (try_catch
         (bind (Json.parse (c :: d)) (fun v =>
          bind (destructure v) (fun r => Normal (Some r))))
         (fun _ => Normal None),
       stateStorage')
  end.

(** A parsed payload that is neither [null] nor an object: a boolean, a
    number, a string or an array. *)
Definition primitive_or_array (v : Json.value) : Prop :=
  match v with
  | Json.JNull | Json.JObject _ => False
  | _ => True
  end.

End Auth.

(** ** Token encryption ([src/stores/TokenEncryption.ts]) *)

Module Encryption.
Import JS.

Definition IV_LENGTH : nat := 16.
Definition AUTH_TAG_LENGTH : nat := 16.
Definition KEY_LENGTH : nat := 32.

(** The cipher of [crypto.createCipheriv('aes-256-gcm', key, iv)] and
    [crypto.createDecipheriv]: sealing yields the ciphertext and the
    authentication tag; opening yields the plaintext or throws (a tag that
    does not verify, an IV or a tag of a length the cipher refuses). *)
Class AEAD : Type := {
  gcm_seal : list Z -> list Z -> list Z -> list Z * list Z;
  gcm_open : list Z -> list Z -> list Z -> list Z -> completion (list Z)
}.

(** What the code relies on from the cipher: what was sealed under a
    32-byte key and a 16-byte IV opens to the same bytes, the tag has 16
    bytes, and the outputs are octets. *)
Record AEAD_correct (A : AEAD) : Prop := {
  open_seal : forall key iv pt,
    length key = KEY_LENGTH -> length iv = IV_LENGTH -> is_buffer pt ->
    gcm_open key iv (snd (gcm_seal key iv pt)) (fst (gcm_seal key iv pt)) = Normal pt;
  seal_tag_length : forall key iv pt,
    length (snd (gcm_seal key iv pt)) = AUTH_TAG_LENGTH;
  seal_octets : forall key iv pt,
    is_buffer pt ->
    is_buffer (fst (gcm_seal key iv pt)) /\ is_buffer (snd (gcm_seal key iv pt))
}.

(** The tag lengths [decipher.setAuthTag] takes for GCM: 4, 8 and 12 to 16
    bytes. *)
Definition valid_tag_length (n : nat) : bool :=
  (n =? 4)%nat || (n =? 8)%nat || ((12 <=? n)%nat && (n <=? 16)%nat).


Inductive key_option : Type :=
| KeyBuffer (b : list Z)
| KeyString (s : jsstring).

Record TokenEncryptionOptions : Type := {
  opt_encryptionKey : option key_option;
  opt_enforceEncryption : option bool
}.

Record TokenEncryption : Type := {
  encryptionKey : option (list Z);
  enforceEncryption : bool
}.

(** [new TokenEncryption(options)] *)
Definition new_TokenEncryption (options : TokenEncryptionOptions)
  : completion TokenEncryption :=
  let key :=
    match opt_encryptionKey options with
    | Some (KeyString []) => None
    | Some (KeyString s) => Some (hex_decode s)
    | Some (KeyBuffer b) => Some b
    | None => None
    end in
  let enforce := default false (opt_enforceEncryption options) in
  match key with
  | Some k =>
      if decide (length k = KEY_LENGTH)
      then Normal {| encryptionKey := Some k; enforceEncryption := enforce |}
      else Throw (Error "Encryption key must be 32 bytes (256 bits)")
  | None =>
      if enforce
      then Throw (Error "Encryption key is required when enforceEncryption is true")
      else Normal {| encryptionKey := None; enforceEncryption := enforce |}
  end.

(** [TokenEncryption.generateKey()] and [TokenEncryption.keyToString(key)] *)
Definition generateKey (randomBytes : Z -> list Z) : list Z :=
  randomBytes (Z.of_nat KEY_LENGTH).

Definition keyToString (key : list Z) : jsstring := hex_encode key.

Section Codec.
Context {A : AEAD}.

(** [encrypt(text)]; [iv] is the draw of [crypto.randomBytes(IV_LENGTH)]. *)
Definition encrypt (te : TokenEncryption) (iv : list Z) (text : jsstring)
  : completion jsstring :=
  match encryptionKey te with
  | None =>
      if enforceEncryption te
      then Throw (Error "Cannot encrypt: No encryption key is set")
      else Normal text
  | Some key =>
      let '(ciphertext, authTag) := gcm_seal key iv (utf8_encode text) in
      let encrypted := hex_encode ciphertext in
      Normal (hex_encode (iv ++ authTag ++ hex_decode encrypted))
  end.

(** The three parts [decrypt] cuts the decoded blob into. *)
Definition blob_iv (encryptedText : jsstring) : list Z :=
  subarray (hex_decode encryptedText) 0 IV_LENGTH.
Definition blob_authTag (encryptedText : jsstring) : list Z :=
  subarray (hex_decode encryptedText) IV_LENGTH (IV_LENGTH + AUTH_TAG_LENGTH).
Definition blob_encryptedData (encryptedText : jsstring) : jsstring :=
  hex_encode (subarray_from (hex_decode encryptedText) (IV_LENGTH + AUTH_TAG_LENGTH)).

(** [decrypt(encryptedText)] *)
Definition decrypt (te : TokenEncryption) (encryptedText : jsstring)
  : completion jsstring :=
  match encryptionKey te with
  | None =>
      if enforceEncryption te
      then Throw (Error "Cannot decrypt: No encryption key is set")
      else Normal encryptedText
  | Some key =>
      try_catch
        (bind (gcm_open key (blob_iv encryptedText) (blob_authTag encryptedText)
                 (hex_decode (blob_encryptedData encryptedText)))
              (fun decrypted => Normal (utf8_decode decrypted)))
        (fun error =>
           Throw (Error (String.append "Decryption failed: " (message error))))
  end.

End Codec.

(** The failure [decrypt] reports. *)
Definition DecryptionFailed (e : exn) : Prop :=
  exists m, e = Error (String.append "Decryption failed: " m).

(** An additive stream cipher with a checksum tag: a second instance of the
    cipher interface, small enough to evaluate, on which the framing of
    [encrypt] and [decrypt] can be run.  Like the cipher of Node it takes a
    tag cut to one of the valid lengths. *)
Module Stream.

Definition pad_byte (key iv : list Z) (i : nat) : Z :=
  nth (i mod 32)%nat key 0 + nth (i mod 16)%nat iv 0.

Fixpoint add_pad (key iv : list Z) (i : nat) (sign : Z) (bs : list Z) : list Z :=
  match bs with
  | [] => []
  | b :: rest => ((b + sign * pad_byte key iv i) mod 256) :: add_pad key iv (S i) sign rest
  end.

Definition checksum (bs : list Z) : Z := fold_right Z.add 0 bs.

Definition tag_of (key iv pt : list Z) : list Z :=
  map (fun j => (checksum pt + pad_byte key iv j) mod 256) (seq 0 16%nat).

Definition seal (key iv pt : list Z) : list Z * list Z :=
  (add_pad key iv 0 1 pt, tag_of key iv pt).

Definition open (key iv tag ct : list Z) : completion (list Z) :=
  if negb (bool_decide (length iv = 16%nat)) then Throw (TypeError "Invalid initialization vector")
  else if negb (valid_tag_length (length tag)) then
    Throw (TypeError "Invalid authentication tag length")
  else
    let pt := add_pad key iv 0 (-1) ct in
    if bool_decide (tag = take (length tag) (tag_of key iv pt)) then Normal pt
    else Throw (Error "Unsupported state or unable to authenticate data").

Definition aead : AEAD := {| gcm_seal := seal; gcm_open := open |}.

End Stream.

End Encryption.

(** ** Token stores ([src/types.ts], [src/stores]) *)

Module Stores.
Import JS.

Record FortnoxTokens : Type := {
  access_token : jsstring;
  refresh_token : jsstring;
  expires_in : Z;
  scope : jsstring;
  token_type : jsstring;
  expiry_date : option Z
}.

(** The [TokenStore] interface, over the contents [S] of a store: what each
    method reads, or makes of the contents, when the store carries the call
    out.  The token manager is modelled for calls the store carries out; a
    call whose promise the store rejects would throw at its [await].  What
    [getTokens] hands the manager is taken as the manager computes with it:
    an [expiry_date] that is the string of a number counts as the number. *)
Class TokenStore (S : Type) : Type := {
  saveTokens : jsstring -> FortnoxTokens -> S -> S;
  getTokens : jsstring -> S -> option FortnoxTokens;
  updateTokens : jsstring -> FortnoxTokens -> S -> S;
  deleteTokens : jsstring -> S -> S
}.

(** *** [InMemoryStore]: a [Map<string, FortnoxTokens>] *)
Module InMemoryStore.

Definition saveTokens (userId : jsstring) (tokens : FortnoxTokens)
    (store : gmap jsstring FortnoxTokens) : gmap jsstring FortnoxTokens :=
  <[userId := tokens]> store.

Definition getTokens (userId : jsstring) (store : gmap jsstring FortnoxTokens)
  : option FortnoxTokens :=
  store !! userId.

Definition updateTokens (userId : jsstring) (tokens : FortnoxTokens)
    (store : gmap jsstring FortnoxTokens) : gmap jsstring FortnoxTokens :=
  <[userId := tokens]> store.

Definition deleteTokens (userId : jsstring) (store : gmap jsstring FortnoxTokens)
  : gmap jsstring FortnoxTokens :=
  delete userId store.

End InMemoryStore.

#[export] Instance InMemoryStore_TokenStore : TokenStore (gmap jsstring FortnoxTokens) := {
  saveTokens := InMemoryStore.saveTokens;
  getTokens := InMemoryStore.getTokens;
  updateTokens := InMemoryStore.updateTokens;
  deleteTokens := InMemoryStore.deleteTokens
}.

(** *** [PostgresStore]: the table created by [initialize], one row per
    [user_id] (the primary key), and the four statements run against it.

    A statement the server rejects (a value that does not fit its column)
    rejects the promise of the call and leaves the table as it was.
    Strings are text the server stores as it receives it (well-formed, no
    U+0000) and numbers are integers a double holds exactly.  An [INTEGER]
    comes back from the driver as a number, a [BIGINT] as the string of its
    decimal digits: [getTokens] returns [expiry_date] as that string. *)
Module PostgresStore.

Record Row : Type := {
  col_access_token : jsstring;
  col_refresh_token : jsstring;
  col_expires_in : Z;
  col_scope : jsstring;
  col_token_type : jsstring;
  col_expiry_date : option Z;
  col_created_at : Z;
  col_updated_at : Z
}.

(** The database: the clock behind [CURRENT_TIMESTAMP] and the rows of the
    table by primary key. *)
Record Database : Type := {
  current_timestamp : Z;
  rows : gmap jsstring Row
}.

(** [expires_in INTEGER NOT NULL] and [expiry_date BIGINT]: the values the
    two column types hold. *)
Definition INTEGER (n : Z) : bool :=
  (- 2147483648 <=? n) && (n <=? 2147483647).

Definition BIGINT (n : Z) : bool :=
  (- 9223372036854775808 <=? n) && (n <=? 9223372036854775807).

(** The characters of a string: a surrogate pair is one character. *)
Fixpoint characters (s : jsstring) : nat :=
  match s with
  | [] => 0
  | c :: rest =>
      match rest with
      | d :: rest' =>
          if is_high c && is_low d then Datatypes.S (characters rest')
          else Datatypes.S (characters rest)
      | [] => 1
      end
  end.

(** The first [n] characters of a string, and what follows them. *)
Fixpoint split_characters (n : nat) (s : jsstring) : jsstring * jsstring :=
  match n, s with
  | O, _ => ([], s)
  | Datatypes.S k, [] => ([], [])
  | Datatypes.S k, c :: rest =>
      match rest with
      | d :: rest' =>
          if is_high c && is_low d then
            let '(kept, excess) := split_characters k rest' in (c :: d :: kept, excess)
          else
            let '(kept, excess) := split_characters k rest in (c :: kept, excess)
      | [] => ([c], [])
      end
  end.

(** [user_id VARCHAR(255) PRIMARY KEY]: what is stored of a value assigned
    to the column.  A longer value is an error, unless the excess
    characters are all spaces, which are cut off. *)
Definition VARCHAR (n : nat) (s : jsstring) : option jsstring :=
  let '(kept, excess) := split_characters n s in
  if forallb (Z.eqb 32) excess then Some kept else None.

(** The parameters [$4] and [$7] fit their columns. *)
Definition in_range (tokens : FortnoxTokens) : bool :=
  INTEGER (expires_in tokens)
  && match expiry_date tokens with
     | Some e => BIGINT e
     | None => true
     end.

Definition row_of (tokens : FortnoxTokens) (created updated : Z) : Row :=
  {| col_access_token := access_token tokens;
     col_refresh_token := refresh_token tokens;
     col_expires_in := expires_in tokens;
     col_scope := scope tokens;
     col_token_type := token_type tokens;
     col_expiry_date := expiry_date tokens;
     col_created_at := created;
     col_updated_at := updated |}.

(** [INSERT ... ON CONFLICT (user_id) DO UPDATE SET ..., updated_at =
    CURRENT_TIMESTAMP] *)
Definition saveTokens (userId : jsstring) (tokens : FortnoxTokens) (db : Database)
  : Database :=
  let now := current_timestamp db in
  match VARCHAR 255 userId with
  | Some user_id =>
      if in_range tokens then
        let row :=
          match rows db !! user_id with
          | None => row_of tokens now now
          | Some old => row_of tokens (col_created_at old) now
          end in
        {| current_timestamp := now; rows := <[user_id := row]> (rows db) |}
      else db
  | None => db
  end.

(** The text of a [BIGINT] as the driver hands it to the program: its
    decimal digits, after a minus sign when it is negative. *)
Fixpoint digits (fuel : nat) (n : Z) (less : jsstring) : jsstring :=
  match fuel with
  | O => less
  | Datatypes.S k =>
      if n <? 10 then (48 + n) :: less
      else digits k (n / 10) ((48 + n mod 10) :: less)
  end.

Definition int8_text (n : Z) : jsstring :=
  if n <? 0 then 45 :: digits (Datatypes.S (Z.to_nat (Z.log2 (- n)))) (- n) []
  else digits (Datatypes.S (Z.to_nat (Z.log2 n))) n [].

(** The object [getTokens] builds from [result.rows[0]]: the fields of
    [FortnoxTokens], with [expiry_date] as the driver returns a [BIGINT]
    ([null] for SQL [NULL]). *)
Record Selected : Type := {
  sel_access_token : jsstring;
  sel_refresh_token : jsstring;
  sel_expires_in : Z;
  sel_scope : jsstring;
  sel_token_type : jsstring;
  sel_expiry_date : option jsstring
}.

(** What is read back of tokens that a row holds. *)
Definition selected (tokens : FortnoxTokens) : Selected :=
  {| sel_access_token := access_token tokens;
     sel_refresh_token := refresh_token tokens;
     sel_expires_in := expires_in tokens;
     sel_scope := scope tokens;
     sel_token_type := token_type tokens;
     sel_expiry_date := option_map int8_text (expiry_date tokens) |}.

(** [SELECT access_token, ... FROM table WHERE user_id = $1] *)
Definition getTokens (userId : jsstring) (db : Database) : option Selected :=
  match rows db !! userId with
  | None => None
  | Some r =>
      Some {| sel_access_token := col_access_token r;
              sel_refresh_token := col_refresh_token r;
              sel_expires_in := col_expires_in r;
              sel_scope := col_scope r;
              sel_token_type := col_token_type r;
              sel_expiry_date := option_map int8_text (col_expiry_date r) |}
  end.

(** The number a string of decimal digits counts as in arithmetic
    ([tokens.expiry_date - Date.now()]). *)
Definition digits_value (s : jsstring) : Z :=
  fold_left (fun v c => v * 10 + (c - 48)) s 0.

Definition ToNumber (s : jsstring) : Z :=
  match s with
  | c :: ds => if c =? 45 then - digits_value ds else digits_value s
  | [] => 0
  end.

(** The tokens as the token manager computes with them: the one use it
    makes of [expiry_date] besides the test for a missing date is the
    subtraction in [isTokenExpired], where the string counts as its
    number.  (The test for a missing date holds of the number 0 and not of
    the string of 0, which the subtraction then finds expired on every
    clock after 1970.) *)
Definition as_numbers (r : Selected) : FortnoxTokens :=
  {| access_token := sel_access_token r;
     refresh_token := sel_refresh_token r;
     expires_in := sel_expires_in r;
     scope := sel_scope r;
     token_type := sel_token_type r;
     expiry_date := option_map ToNumber (sel_expiry_date r) |}.

(** [UPDATE table SET ..., updated_at = CURRENT_TIMESTAMP WHERE user_id = $1] *)
Definition updateTokens (userId : jsstring) (tokens : FortnoxTokens) (db : Database)
  : Database :=
  let now := current_timestamp db in
  if in_range tokens then
    match rows db !! userId with
    | None => db
    | Some old =>
        {| current_timestamp := now;
           rows := <[userId := row_of tokens (col_created_at old) now]> (rows db) |}
    end
  else db.

(** [DELETE FROM table WHERE user_id = $1] *)
Definition deleteTokens (userId : jsstring) (db : Database) : Database :=
  {| current_timestamp := current_timestamp db; rows := delete userId (rows db) |}.

(** A string the server stores as it is written: well-formed UTF-16 with no
    U+0000. *)
Definition text (s : jsstring) : bool :=
  isWellFormed s && forallb (fun c => (0 <? c) && (c <? 65536)) s.

(** A write the table takes and keeps as it is: a user id of at most 255
    characters, text in every string, [expires_in] an [INTEGER], and an
    [expiry_date] that is absent or an integer a double holds exactly. *)
Definition storable (userId : jsstring) (tokens : FortnoxTokens) : bool :=
  text userId && bool_decide (characters userId <= 255)%nat
  && text (access_token tokens) && text (refresh_token tokens)
  && text (scope tokens) && text (token_type tokens)
  && INTEGER (expires_in tokens)
  && match expiry_date tokens with
     | Some e => (- 9007199254740992 <=? e) && (e <=? 9007199254740992)
     | None => true
     end.

End PostgresStore.

#[export] Instance PostgresStore_TokenStore : TokenStore PostgresStore.Database := {
  saveTokens := PostgresStore.saveTokens;
  getTokens := fun userId db =>
    option_map PostgresStore.as_numbers (PostgresStore.getTokens userId db);
  updateTokens := PostgresStore.updateTokens;
  deleteTokens := PostgresStore.deleteTokens
}.

End Stores.

(** ** Token manager ([src/services/TokenManager.ts]) on the event loop

    The methods are [async]: each runs synchronously up to its next
    [await] and is resumed by the event loop.  A resumption is a [task].
    In this module a store call is made, and has its effect on the store,
    at the [await] itself, and its resumption is queued behind those queued
    before it; the response of the token endpoint is handled once no task
    is left to run, the oldest request first.  That is the loop over a
    store whose methods do no I/O, as those of [InMemoryStore]: their
    promises settle in the turn of the call, in the order of the calls.
    Over a store that answers later, and for responses that overtake one
    another, the calls of several callers interleave in more ways: those
    are the schedules of [Async] below. *)

Module Tokens.
Import JS Stores.

Definition DEFAULT_BUFFER_MS : Z := 5 * 60 * 1000.

(** [isTokenExpired(tokens, bufferMs)]; [!tokens.expiry_date] holds for a
    missing date and for 0. *)
Definition isTokenExpired (now : Z) (tokens : FortnoxTokens) (bufferMs : Z) : bool :=
  match expiry_date tokens with
  | None => true
  | Some e => if e =? 0 then true else e - now <? bufferMs
  end.

(** [response.data] of a successful exchange. *)
Record TokenResponse : Type := {
  data_access_token : jsstring;
  data_refresh_token : jsstring;
  data_expires_in : Z;
  data_scope : jsstring;
  data_token_type : jsstring
}.

(** A response body that is no value at all. *)
Inductive nullish : Type := null | undefined.

Definition nullish_name (n : nullish) : string :=
  match n with null => "null" | undefined => "undefined" end.

(** What is thrown inside [refreshTokens]: an axios error that carries a
    response with a body ([error_description] of the body, [error.message]),
    an axios error that carries a response whose body is [null] or
    [undefined], or any other value. *)
Inductive failure : Type :=
| AxiosResponseError (error_description : option string) (error_message : string)
| AxiosBodilessError (data : nullish) (error_message : string)
| Thrown (e : exn).

(** Reading [error.response.data.error_description] off a body that is
    [null] or [undefined]. *)
Definition cannot_read_error_description (data : nullish) : exn :=
  TypeError (String.append "Cannot read properties of "
               (String.append (nullish_name data) " (reading 'error_description')")).

Inductive response : Type :=
| Ok (data : TokenResponse)
| Failed (f : failure).

(** JS numbers are doubles: a sum or product of integers is the integer
    itself as long as the operands and the result are no larger than
    [Number.MAX_SAFE_INTEGER] in absolute value. *)
Definition MAX_SAFE_INTEGER : Z := 9007199254740991.

(** [{ ...response.data, expiry_date: Date.now() + response.data.expires_in * 1000 }],
    for a body whose [expires_in] is an integer and a date within
    [MAX_SAFE_INTEGER], where the double arithmetic of the code is the
    integer arithmetic written here. *)
Definition tokens_of_response (now : Z) (d : TokenResponse) : FortnoxTokens :=
  {| access_token := data_access_token d;
     refresh_token := data_refresh_token d;
     expires_in := data_expires_in d;
     scope := data_scope d;
     token_type := data_token_type d;
     expiry_date := Some (now + data_expires_in d * 1000) |}.

(** The error the [catch] block of [refreshTokens] ends with: the wrapped
    failure, the TypeError of its own read of a bodiless response, or the
    value it caught. *)
Definition rethrown (f : failure) : exn :=
  match f with
  | AxiosResponseError (Some (String c d)) _ =>
      Error (String.append "Failed to refresh token: " (String c d))
  | AxiosResponseError _ m => Error (String.append "Failed to refresh token: " m)
  | AxiosBodilessError data _ => cannot_read_error_description data
  | Thrown e => e
  end.

(** The authorization server and the network: the answer to a refresh
    request carrying a given refresh token, and the time it takes. *)
Record world : Type := {
  server : jsstring -> response;
  latency : Z
}.

Inductive promise : Type :=
| Pending
| Fulfilled (tokens : FortnoxTokens)
| Rejected (e : exn).

(** Resumptions; [p] is the promise the suspended call returned. *)
Inductive task : Type :=
| GetValid_resume (p : nat) (userId : jsstring) (tokens : option FortnoxTokens)
| Refresh_read (p : nat) (userId : jsstring) (tokens : option FortnoxTokens)
| Refresh_response (p : nat) (userId : jsstring) (r : response)
| Refresh_updated (p : nat) (userId : jsstring) (newTokens : FortnoxTokens).

Section Manager.
Context {S : Type} `{TokenStore S}.

(** The token manager, its store and the event loop.  A callback queued in
    [refreshQueue] is the [resolve] of a promise, kept by its number. *)
Record state : Type := State {
  tokenStore : S;
  refreshQueue : gmap jsstring (list nat);
  promises : list promise;
  microtasks : list task;
  network : list (nat * jsstring * jsstring);
  exchanges : nat;
  clock : Z
}.

Definition init (store : S) (now : Z) : state :=
  State store ∅ [] [] [] 0 now.

Definition set_refreshQueue (q : gmap jsstring (list nat)) (s : state) : state :=
  State (tokenStore s) q (promises s) (microtasks s) (network s) (exchanges s) (clock s).

Definition set_promises (ps : list promise) (s : state) : state :=
  State (tokenStore s) (refreshQueue s) ps (microtasks s) (network s) (exchanges s) (clock s).

Definition push_microtask (t : task) (s : state) : state :=
  State (tokenStore s) (refreshQueue s) (promises s) (microtasks s ++ [t])
        (network s) (exchanges s) (clock s).

(** Settling a promise; a settled promise stays as it is. *)
Definition settle (p : nat) (v : promise) (s : state) : state :=
  match promises s !! p with
  | Some Pending => set_promises (<[p := v]> (promises s)) s
  | _ => s
  end.

Definition isRefreshing (userId : jsstring) (s : state) : bool :=
  bool_decide (is_Some (refreshQueue s !! userId)).

Definition setRefreshing (userId : jsstring) (refreshing : bool) (s : state) : state :=
  if refreshing then set_refreshQueue (<[userId := []]> (refreshQueue s)) s
  else set_refreshQueue (delete userId (refreshQueue s)) s.

Definition addToRefreshQueue (userId : jsstring) (callback : nat) (s : state) : state :=
  let queue := default [] (refreshQueue s !! userId) in
  set_refreshQueue (<[userId := queue ++ [callback]]> (refreshQueue s)) s.

(** [processRefreshQueue(userId, tokens)]: with tokens every callback is
    called; with [null] none is, and the queue is emptied all the same. *)
Definition processRefreshQueue (userId : jsstring) (tokens : option FortnoxTokens)
    (s : state) : state :=
  let queue := default [] (refreshQueue s !! userId) in
  let s1 :=
    match tokens with
    | Some t => fold_left (fun st callback => settle callback (Fulfilled t) st) queue s
    | None => s
    end in
  set_refreshQueue (<[userId := []]> (refreshQueue s1)) s1.

(** [refreshTokens(userId)] up to its first [await]. *)
Definition refreshTokens_enter (p : nat) (userId : jsstring) (s : state) : state :=
  if isRefreshing userId s then addToRefreshQueue userId p s
  else
    let s1 := setRefreshing userId true s in
    push_microtask (Refresh_read p userId (getTokens userId (tokenStore s1))) s1.

(** The [catch] and [finally] blocks of [refreshTokens]. *)
Definition refreshTokens_catch (p : nat) (userId : jsstring) (f : failure) (s : state)
  : state :=
  let s1 := processRefreshQueue userId None s in
  let s2 := settle p (Rejected (rethrown f)) s1 in
  setRefreshing userId false s2.

Definition run_task (t : task) (s : state) : state :=
  match t with
  | GetValid_resume p userId None =>
      settle p (Rejected (Error "No tokens found for user")) s
  | GetValid_resume p userId (Some tokens) =>
      if isTokenExpired (clock s) tokens DEFAULT_BUFFER_MS
      then refreshTokens_enter p userId s
      else settle p (Fulfilled tokens) s
  | Refresh_read p userId None =>
      refreshTokens_catch p userId (Thrown (Error "No tokens found for user")) s
  | Refresh_read p userId (Some tokens) =>
      State (tokenStore s) (refreshQueue s) (promises s) (microtasks s)
            (network s ++ [(p, userId, refresh_token tokens)])
            (Datatypes.S (exchanges s)) (clock s)
  | Refresh_response p userId (Ok d) =>
      let newTokens := tokens_of_response (clock s) d in
      let s1 :=
        State (updateTokens userId newTokens (tokenStore s)) (refreshQueue s)
              (promises s) (microtasks s) (network s) (exchanges s) (clock s) in
      push_microtask (Refresh_updated p userId newTokens) s1
  | Refresh_response p userId (Failed f) =>
      refreshTokens_catch p userId f s
  | Refresh_updated p userId newTokens =>
      let s1 := processRefreshQueue userId (Some newTokens) s in
      let s2 := settle p (Fulfilled newTokens) s1 in
      setRefreshing userId false s2
  end.

(** A call of [getValidTokens(userId)]: a new promise, and the method run
    up to [await this.tokenStore.getTokens(userId)]. *)
Definition getValidTokens (userId : jsstring) (s : state) : state :=
  let p := length (promises s) in
  push_microtask (GetValid_resume p userId (getTokens userId (tokenStore s)))
    (set_promises (promises s ++ [Pending]) s).


(** [revokeTokens(userId)] *)
Definition revokeTokens (userId : jsstring) (s : state) : state :=
  State (deleteTokens userId (tokenStore s)) (refreshQueue s) (promises s)
        (microtasks s) (network s) (exchanges s) (clock s).

(** One turn of the event loop: the oldest task; with none left, the
    response to the oldest request; with none of either, nothing. *)
Definition step (w : world) (s : state) : option state :=
  match microtasks s with
  | t :: rest =>
      Some (run_task t
              (State (tokenStore s) (refreshQueue s) (promises s) rest
                     (network s) (exchanges s) (clock s)))
  | [] =>
      match network s with
      | (p, userId, token) :: rest =>
          Some (State (tokenStore s) (refreshQueue s) (promises s)
                      [Refresh_response p userId (server w token)]
                      rest (exchanges s) (clock s + latency w))
      | [] => None
      end
  end.

(** The loop has nothing left to run: no promise will change any more. *)
Definition idle (s : state) : Prop := microtasks s = [] /\ network s = [].

Fixpoint run (fuel : nat) (w : world) (s : state) : state :=
  match fuel with
  | O => s
  | Datatypes.S k =>
      match step w s with
      | Some s' => run k w s'
      | None => s
      end
  end.

(** [n] calls made in one turn, before the loop runs again. *)
Fixpoint simultaneously (n : nat) (call : state -> state) (s : state) : state :=
  match n with
  | O => s
  | Datatypes.S k => simultaneously k call (call s)
  end.

End Manager.

End Tokens.

(** ** The scenarios of the specification *)

Module Scenario.
Import JS Stores Tokens.

(** A credential issued at [T = 0] with [expires_in = 3600]. *)
Definition issued : FortnoxTokens :=
  {| access_token := js "access-1";
     refresh_token := js "refresh-1";
     expires_in := 3600;
     scope := js "companyinformation";
     token_type := js "bearer";
     expiry_date := Some 3600000 |}.

Definition store : gmap jsstring FortnoxTokens := {[ js "user-1" := issued ]}.

Definition refreshed : TokenResponse :=
  {| data_access_token := js "access-2";
     data_refresh_token := js "refresh-2";
     data_expires_in := 3600;
     data_scope := js "companyinformation";
     data_token_type := js "bearer" |}.

(** A token endpoint that grants every refresh, and one that refuses. *)
Definition granting : world :=
  {| server := fun _ => Ok refreshed; latency := 120 |}.

Definition refusing : world :=
  {| server := fun _ =>
       Failed (AxiosResponseError (Some "invalid_grant"%string)
                 "Request failed with status code 400");
     latency := 120 |}.

(** A later credential of the same user. *)
Definition overwriting : FortnoxTokens :=
  {| access_token := js "access-9";
     refresh_token := js "refresh-9";
     expires_in := 3600;
     scope := js "companyinformation";
     token_type := js "bearer";
     expiry_date := Some 7200000 |}.

Definition empty_database : PostgresStore.Database :=
  {| PostgresStore.current_timestamp := 0; PostgresStore.rows := ∅ |}.

(** A 32-byte key, the 16 bytes of an IV, and a codec holding the key. *)
Definition key : list Z := map Z.of_nat (seq 1 32).
Definition iv : list Z := map Z.of_nat (seq 100 16).
Definition codec : Encryption.TokenEncryption :=
  {| Encryption.encryptionKey := Some key; Encryption.enforceEncryption := true |}.

(** A text with characters outside ASCII and outside the basic plane. *)
Definition text : jsstring := js "token " ++ [229; 8364; 0xD83D; 0xDD11].

(** A string that is one unpaired surrogate. *)
Definition unpaired : jsstring := [0xD800].

(** What [encrypt] makes of "secret" with the stream cipher, that blob with
    one more character, and that blob with bit 5 of its character 13
    flipped (the digit [a] becomes [A]). *)
Definition sealed : jsstring :=
  match Encryption.encrypt (A := Encryption.Stream.aead) codec iv (js "secret") with
  | Normal blob => blob
  | Throw _ => []
  end.


(** The verifier of RFC 7636, appendix B, and its challenge. *)
Definition rfc_verifier : jsstring :=
  js "dBjftJeZ4CVP-mB92K27uhbUJU1p1r_wW1gFWFOEjXk".
Definition rfc_challenge : jsstring :=
  js "E9Melhoa2OwvFrEMTJguCHaoeK1t8URWbuGJSstw-cM".

(** The challenge of the RFC with bit 7 of its first character flipped:
    ['E'] (0x45) becomes U+00C5, two bytes in UTF-8. *)
Definition mutated_challenge : jsstring :=
  match rfc_challenge with
  | c :: rest => Z.lxor c 128 :: rest
  | [] => []
  end.

(** An authorization service, a generator that draws constant bytes, a
    query-string encoder that writes nothing, and the options of a
    deterministic test: a given state and the verifier of the RFC. *)
Definition service : Auth.AuthorizationService :=
  {| Auth.clientId := js "client-1";
     Auth.clientSecret := js "secret-1";
     Auth.redirectUri := js "https://app.example/callback";
     Auth.scopes := [js "companyinformation"; js "invoice"];
     Auth.authBaseUrl := js "https://apps.fortnox.se/oauth-v1" |}.

Definition randomBytes (draw : nat) (n : Z) : list Z :=
  repeat (Z.of_nat draw + 7) (Z.to_nat n).

Definition no_query (params : list (jsstring * jsstring)) : jsstring := [].

Definition test_options : Auth.FortnoxAuthOptions :=
  {| Auth.opt_state := Some (js "state-1");
     Auth.opt_codeVerifier := Some rfc_verifier |}.

End Scenario.

(** ** Secure token store ([src/stores/SecureTokenStore.ts]) *)

Module SecureTokenStore.
Import JS Encryption Stores.

Section Wrap.
Context {A : AEAD} {S : Type} `{TokenStore S}.

(** The wrapper: the store it delegates to and its codec. *)
Record SecureStore : Type := {
  baseStore : S;
  encryption : TokenEncryption
}.

(** [new SecureTokenStore({ baseStore, encryptionKey, enforceEncryption })] *)
Definition new_SecureTokenStore (base : S) (options : TokenEncryptionOptions)
  : completion SecureStore :=
  bind (new_TokenEncryption options) (fun te =>
    Normal {| baseStore := base; encryption := te |}).

(** [encryptTokens(tokens)]: the access token is encrypted first, then the
    refresh token, each under an IV of its own. *)
Definition encryptTokens (te : TokenEncryption) (iv1 iv2 : list Z)
    (tokens : FortnoxTokens) : completion FortnoxTokens :=
  bind (encrypt te iv1 (access_token tokens)) (fun a =>
  bind (encrypt te iv2 (refresh_token tokens)) (fun r =>
    Normal {| access_token := a;
              refresh_token := r;
              expires_in := expires_in tokens;
              scope := scope tokens;
              token_type := token_type tokens;
              expiry_date := expiry_date tokens |})).

Definition decryptTokens (te : TokenEncryption) (tokens : FortnoxTokens)
  : completion FortnoxTokens :=
  bind (decrypt te (access_token tokens)) (fun a =>
  bind (decrypt te (refresh_token tokens)) (fun r =>
    Normal {| access_token := a;
              refresh_token := r;
              expires_in := expires_in tokens;
              scope := scope tokens;
              token_type := token_type tokens;
              expiry_date := expiry_date tokens |})).

(** The four operations; a throw leaves the wrapped store as it was. *)
Definition saveTokens (iv1 iv2 : list Z) (userId : jsstring)
    (tokens : FortnoxTokens) (store : SecureStore) : completion SecureStore :=
  bind (encryptTokens (encryption store) iv1 iv2 tokens) (fun encryptedTokens =>
    Normal {| baseStore := Stores.saveTokens userId encryptedTokens (baseStore store);
              encryption := encryption store |}).

Definition getTokens (userId : jsstring) (store : SecureStore)
  : completion (option FortnoxTokens) :=
  match Stores.getTokens userId (baseStore store) with
  | None => Normal None
  | Some encryptedTokens =>
      bind (decryptTokens (encryption store) encryptedTokens) (fun tokens =>
        Normal (Some tokens))
  end.

Definition updateTokens (iv1 iv2 : list Z) (userId : jsstring)
    (tokens : FortnoxTokens) (store : SecureStore) : completion SecureStore :=
  bind (encryptTokens (encryption store) iv1 iv2 tokens) (fun encryptedTokens =>
    Normal {| baseStore := Stores.updateTokens userId encryptedTokens (baseStore store);
              encryption := encryption store |}).

Definition deleteTokens (userId : jsstring) (store : SecureStore) : SecureStore :=
  {| baseStore := Stores.deleteTokens userId (baseStore store);
     encryption := encryption store |}.

End Wrap.

End SecureTokenStore.

(** ** The code exchange ([AuthorizationService.exchangeCodeForTokens]) *)

Module Exchange.
Import JS Stores Tokens.

(** Standard base64 with padding, as [buf.toString('base64')]. *)
Definition b64_char (n : Z) : Z :=
  if n <? 26 then 65 + n
  else if n <? 52 then 97 + (n - 26)
  else if n <? 62 then 48 + (n - 52)
  else if n =? 62 then 43
  else 47.

Fixpoint base64 (bs : list Z) : jsstring :=
  match bs with
  | a :: b :: c :: rest =>
      b64_char (a / 4)
      :: b64_char ((a mod 4) * 16 + b / 16)
      :: b64_char ((b mod 16) * 4 + c / 64)
      :: b64_char (c mod 64)
      :: base64 rest
  | [a; b] =>
      [b64_char (a / 4); b64_char ((a mod 4) * 16 + b / 16);
       b64_char ((b mod 16) * 4); 61]
  | [a] => [b64_char (a / 4); b64_char ((a mod 4) * 16); 61; 61]
  | [] => []
  end.

(** What is posted to the token endpoint: the form fields and the
    [Authorization] header. *)
Record request : Type := {
  grant_type : jsstring;
  code : jsstring;
  redirect_uri : jsstring;
  code_verifier : jsstring;
  authorization : jsstring
}.

(** [Basic ${Buffer.from(`${clientId}:${clientSecret}`).toString('base64')}] *)
Definition basic_authorization (clientId clientSecret : jsstring) : jsstring :=
  js "Basic " ++ base64 (utf8_encode (clientId ++ js ":" ++ clientSecret)).

(** The error the [catch] block of [exchangeCodeForTokens] ends with. *)
Definition rethrown (f : failure) : exn :=
  match f with
  | AxiosResponseError (Some (String c d)) _ =>
      Error (String.append "Failed to exchange code: " (String c d))
  | AxiosResponseError _ m => Error (String.append "Failed to exchange code: " m)
  | AxiosBodilessError data _ => cannot_read_error_description data
  | Thrown e => e
  end.

(** [exchangeCodeForTokens(userId, code, codeVerifier)]: the settled value
    of the promise and the store afterwards; [now] is [Date.now()] when
    the response has arrived. *)
Definition exchangeCodeForTokens {S : Type} `{TokenStore S}
    (endpoint : request -> response) (service : Auth.AuthorizationService)
    (now : Z) (userId code codeVerifier : jsstring) (tokenStore : S)
  : completion FortnoxTokens * S :=
  let data :=
    {| grant_type := js "authorization_code";
       code := code;
       redirect_uri := Auth.redirectUri service;
       code_verifier := codeVerifier;
       authorization :=
         basic_authorization (Auth.clientId service) (Auth.clientSecret service) |} in
  match endpoint data with
  | Ok d =>
      let tokens := tokens_of_response now d in
      (Normal tokens, saveTokens userId tokens tokenStore)
  | Failed f => (Throw (rethrown f), tokenStore)
  end.

End Exchange.

(** ** The token manager over a store that answers later

    [Tokens] runs the manager over a store whose calls settle within the
    turn they are made in, as those of [InMemoryStore] do: its methods touch
    a [Map] and return.  A store that does I/O ([PostgresStore] awaits
    [this.pool.query]) runs its statement at some moment after the call and
    answers at some later moment, in no fixed order with the other answers
    the process is waiting for.  Here every awaited call of the manager is
    kept until an event says that its statement runs or that its answer has
    arrived; the continuation of the method runs when the answer arrives.
    The manager's store, refresh queue, promises, counter and clock are
    those of [Tokens.state], whose two queues stay empty: what is pending is
    in [calls]. *)

Module Async.
Import JS Stores Tokens.

Section Manager.
Context {S : Type} `{TokenStore S}.

(** A call that has left the process and has not been answered: the read
    of [getValidTokens] (l.281) and that of [refreshTokens] (l.221), each
    with what the store read once it has run the query; the request to the
    token endpoint (l.235); the write of the refreshed credential (l.248),
    with whether the store has run it.  [p] is the promise of the caller. *)
Inductive call : Type :=
| Select_getValid (p : nat) (userId : jsstring) (row : option (option FortnoxTokens))
| Select_refresh (p : nat) (userId : jsstring) (row : option (option FortnoxTokens))
| Post (p : nat) (userId : jsstring) (token : jsstring)
| Update (p : nat) (userId : jsstring) (newTokens : FortnoxTokens) (done : bool).

Record state : Type := State {
  manager : Tokens.state (S := S);
  calls : list call
}.

Definition init (store : S) (now : Z) : state :=
  State (Tokens.init store now) [].

Definition on_manager (f : Tokens.state (S := S) -> Tokens.state (S := S))
    (s : state) : state :=
  State (f (manager s)) (calls s).

Definition issue (c : call) (s : state) : state :=
  State (manager s) (calls s ++ [c]).

Definition set_tokenStore (store : S) (m : Tokens.state (S := S))
  : Tokens.state (S := S) :=
  Tokens.State store (refreshQueue m) (promises m) (microtasks m) (network m)
    (exchanges m) (clock m).

Definition count_exchange (m : Tokens.state (S := S)) : Tokens.state (S := S) :=
  Tokens.State (tokenStore m) (refreshQueue m) (promises m) (microtasks m) (network m)
    (Datatypes.S (exchanges m)) (clock m).

Definition advance (dt : Z) (m : Tokens.state (S := S)) : Tokens.state (S := S) :=
  Tokens.State (tokenStore m) (refreshQueue m) (promises m) (microtasks m) (network m)
    (exchanges m) (clock m + dt).

(** A call of [getValidTokens(userId)]: a new promise, and the method run
    up to [await this.tokenStore.getTokens(userId)]. *)
Definition getValidTokens (userId : jsstring) (s : state) : state :=
  let p := length (promises (manager s)) in
  issue (Select_getValid p userId None)
    (on_manager (set_promises (promises (manager s) ++ [Pending])) s).

(** [refreshTokens(userId)] up to its first [await]. *)
Definition refreshTokens_enter (p : nat) (userId : jsstring) (s : state) : state :=
  if isRefreshing userId (manager s) then on_manager (addToRefreshQueue userId p) s
  else issue (Select_refresh p userId None) (on_manager (setRefreshing userId true) s).

(** The store runs the statement of a call, once. *)
Definition runs (c : call) (store : S) : call * S :=
  match c with
  | Select_getValid p userId None =>
      (Select_getValid p userId (Some (getTokens userId store)), store)
  | Select_refresh p userId None =>
      (Select_refresh p userId (Some (getTokens userId store)), store)
  | Update p userId newTokens false =>
      (Update p userId newTokens true, updateTokens userId newTokens store)
  | _ => (c, store)
  end.

(** The method goes on from the [await] that a call answered. *)
Definition resume (server : jsstring -> response) (c : call) (s : state) : state :=
  match c with
  | Select_getValid p userId (Some None) =>
      on_manager (settle p (Rejected (Error "No tokens found for user"))) s
  | Select_getValid p userId (Some (Some tokens)) =>
      if isTokenExpired (clock (manager s)) tokens DEFAULT_BUFFER_MS
      then refreshTokens_enter p userId s
      else on_manager (settle p (Fulfilled tokens)) s
  | Select_refresh p userId (Some None) =>
      on_manager
        (refreshTokens_catch p userId (Thrown (Error "No tokens found for user"))) s
  | Select_refresh p userId (Some (Some tokens)) =>
      issue (Post p userId (refresh_token tokens)) (on_manager count_exchange s)
  | Post p userId token =>
      match server token with
      | Ok d =>
          issue (Update p userId (tokens_of_response (clock (manager s)) d) false) s
      | Failed f => on_manager (refreshTokens_catch p userId f) s
      end
  | Update p userId newTokens true =>
      on_manager
        (fun m =>
           setRefreshing userId false
             (settle p (Fulfilled newTokens)
                (processRefreshQueue userId (Some newTokens) m))) s
  | Select_getValid _ _ None | Select_refresh _ _ None | Update _ _ _ false => s
  end.

(** What happens outside the process: the store runs the statement of the
    [k]-th pending call, or the answer to the [k]-th pending call arrives,
    [dt] milliseconds after the event before (a statement that has not run
    yet runs before it is answered). *)
Inductive event : Type :=
| Runs (k : nat)
| Returns (k : nat) (dt : Z).

Definition step (server : jsstring -> response) (e : event) (s : state)
  : option state :=
  match e with
  | Runs k =>
      match calls s !! k with
      | Some c =>
          let '(c', store) := runs c (tokenStore (manager s)) in
          Some (State (set_tokenStore store (manager s)) (<[k := c']> (calls s)))
      | None => None
      end
  | Returns k dt =>
      match calls s !! k with
      | Some c =>
          let '(c', store) := runs c (tokenStore (manager s)) in
          Some (resume server c'
                  (State (advance (Z.max 0 dt) (set_tokenStore store (manager s)))
                         (delete k (calls s))))
      | None => None
      end
  end.

Fixpoint run (server : jsstring -> response) (events : list event) (s : state)
  : option state :=
  match events with
  | [] => Some s
  | e :: rest =>
      match step server e s with
      | Some s' => run server rest s'
      | None => None
      end
  end.

(** What the callers hold and how many exchanges were started. *)
Definition outcome (s : option state) : option (nat * list promise) :=
  match s with
  | Some s' => Some (exchanges (manager s'), promises (manager s'))
  | None => None
  end.

End Manager.

End Async.

(** ** Time that passes, in the token manager and in the database *)

Module Time.
Import JS Stores Tokens.

(** The loop idle for [dt] milliseconds. *)
Definition elapse {S : Type} (dt : Z) (s : state (S := S)) : state (S := S) :=
  State (tokenStore s) (refreshQueue s) (promises s) (microtasks s) (network s)
        (exchanges s) (clock s + dt).

(** The database at a later reading of [CURRENT_TIMESTAMP]. *)
Definition at_time (now : Z) (db : PostgresStore.Database) : PostgresStore.Database :=
  {| PostgresStore.current_timestamp := now;
     PostgresStore.rows := PostgresStore.rows db |}.

(** A write to the row of one user, made at a given time. *)
Inductive write : Type :=
| Save (now : Z) (tokens : FortnoxTokens)
| Update (now : Z) (tokens : FortnoxTokens).

Definition write_time (w : write) : Z :=
  match w with Save now _ | Update now _ => now end.

Definition written (w : write) : FortnoxTokens :=
  match w with Save _ tokens | Update _ tokens => tokens end.

Definition apply_write (userId : jsstring) (db : PostgresStore.Database) (w : write)
  : PostgresStore.Database :=
  match w with
  | Save now tokens => PostgresStore.saveTokens userId tokens (at_time now db)
  | Update now tokens => PostgresStore.updateTokens userId tokens (at_time now db)
  end.

Definition apply_writes (userId : jsstring) (ws : list write)
    (db : PostgresStore.Database) : PostgresStore.Database :=
  fold_left (apply_write userId) ws db.

End Time.

(** ** The alphabets of the generated strings *)

Module Alphabet.

(** RFC 7636, 4.1: the characters a code verifier is made of, ALPHA, DIGIT
    and the four marks [-], [.], [_], [~]. *)
Definition unreserved (c : Z) : Prop :=
  65 <= c <= 90 \/ 97 <= c <= 122 \/ 48 <= c <= 57 \/
  c = 45 \/ c = 46 \/ c = 95 \/ c = 126.

(** A digit of lower-case hexadecimal. *)
Definition lower_hex (c : Z) : Prop := 48 <= c <= 57 \/ 97 <= c <= 102.

End Alphabet.

(** ** Further inputs for the properties of the second part *)

Module Cases.
Import JS Stores Tokens.

(** A generator that returns as many bytes as asked for. *)
Definition counting (n : Z) : list Z :=
  map (fun i => Z.of_nat ((i * 37 + 11) mod 256)) (seq 0 (Z.to_nat n)).

Definition counting_draws (draw : nat) (n : Z) : list Z :=
  map (fun i => Z.of_nat ((i * 37 + draw) mod 256)) (seq 0 (Z.to_nat n)).

(** A second user and credential, and an endpoint that answers by the
    refresh token presented. *)
Definition issued2 : FortnoxTokens :=
  {| access_token := js "access-b";
     refresh_token := js "refresh-b";
     expires_in := 3600;
     scope := js "invoice";
     token_type := js "bearer";
     expiry_date := Some 3500000 |}.

Definition two_users : gmap jsstring FortnoxTokens :=
  <[js "user-2" := issued2]> Scenario.store.

Definition refreshed2 : TokenResponse :=
  {| data_access_token := js "access-b2";
     data_refresh_token := js "refresh-b2";
     data_expires_in := 3600;
     data_scope := js "invoice";
     data_token_type := js "bearer" |}.

Definition by_token : world :=
  {| server := fun token =>
       if bool_decide (token = js "refresh-1") then Ok Scenario.refreshed
       else if bool_decide (token = js "refresh-b") then Ok refreshed2
       else Failed (AxiosResponseError (Some "invalid_grant"%string)
                      "Request failed with status code 400");
     latency := 120 |}.

(** The challenge of the RFC with the lowest two bits of its first
    character flipped: ['E'] becomes ['F'], still one byte in UTF-8. *)
Definition retyped_challenge : jsstring :=
  match Scenario.rfc_challenge with
  | c :: rest => Z.lxor c 3 :: rest
  | [] => []
  end.

(** A database holding the credential of the scenario. *)
Definition database : PostgresStore.Database :=
  PostgresStore.saveTokens (js "user-1") Scenario.issued Scenario.empty_database.


(** A second IV. *)
Definition iv2 : list Z := map Z.of_nat (seq 200 16).





(** An authorization server that rotates refresh tokens: the refresh
    token of the scenario buys [Scenario.refreshed], whose refresh token
    buys a third credential. *)
Definition refreshed_again : TokenResponse :=
  {| data_access_token := js "access-3";
     data_refresh_token := js "refresh-3";
     data_expires_in := 3600;
     data_scope := js "companyinformation";
     data_token_type := js "bearer" |}.

Definition rotating (token : jsstring) : response :=
  if bool_decide (token = js "refresh-1") then Ok Scenario.refreshed
  else if bool_decide (token = js "refresh-2") then Ok refreshed_again
  else Failed (AxiosResponseError (Some "invalid_grant"%string)
                 "Request failed with status code 400").

(** Two callers in one turn over the database.  The answers arrive in the
    order of the calls; or the database runs the read of the second caller
    at once and its answer arrives only after the first caller's refresh
    has gone through. *)
Definition two_callers : Async.state (S := PostgresStore.Database) :=
  Async.getValidTokens (js "user-1")
    (Async.getValidTokens (js "user-1") (Async.init database 4000000)).

Definition answers_in_order : list Async.event :=
  [Async.Returns 0 1; Async.Returns 0 1; Async.Returns 0 1; Async.Returns 0 120;
   Async.Returns 0 1].

Definition answer_delayed : list Async.event :=
  [Async.Runs 1; Async.Returns 0 1; Async.Returns 1 1; Async.Returns 1 120;
   Async.Returns 1 1; Async.Returns 0 300; Async.Returns 0 1; Async.Returns 0 120;
   Async.Returns 0 1].

(** A token endpoint for the code exchange that grants every code. *)
Definition grant_code (r : Exchange.request) : response := Ok Scenario.refreshed.

Definition refuse_code (r : Exchange.request) : response :=
  Failed (AxiosResponseError (Some "invalid_grant"%string)
            "Request failed with status code 400").

End Cases.

(* ===================================================================== *)
(** * Part II: properties                                                 *)
(* ===================================================================== *)

(** ** The state registry is single use *)

Module StateStorageFacts.
Import JS StateStorage.

Lemma validateAndRemoveState_removes (now : Z) (s : jsstring) (states : gmap jsstring StateEntry) :
  snd (validateAndRemoveState now s states) !! s = None.
Proof.
  unfold validateAndRemoveState.
  destruct (states !! s) as [e|]; [destruct (expires e <? now)|];
    simpl; apply lookup_delete_eq.
Qed.

Lemma validateAndRemoveState_snd (now : Z) (s : jsstring) (states : gmap jsstring StateEntry) :
  snd (validateAndRemoveState now s states) = delete s states.
Proof.
  unfold validateAndRemoveState.
  destruct (states !! s) as [e|]; [destruct (expires e <? now)|]; reflexivity.
Qed.

Lemma validateAndRemoveState_absent (now : Z) (s : jsstring) (states : gmap jsstring StateEntry) :
  states !! s = None -> fst (validateAndRemoveState now s states) = None.
Proof. intros E. unfold validateAndRemoveState. rewrite E. reflexivity. Qed.

Lemma validateAndRemoveState_live (now : Z) (s : jsstring) (e : StateEntry) (states : gmap jsstring StateEntry) :
  states !! s = Some e -> now <= expires e ->
  fst (validateAndRemoveState now s states) = Some (data e).
Proof.
  intros E Hle. unfold validateAndRemoveState. rewrite E.
  destruct (Z.ltb_spec (expires e) now); [lia | reflexivity].
Qed.

Lemma validateAndRemoveState_expired (now : Z) (s : jsstring) (e : StateEntry) (states : gmap jsstring StateEntry) :
  states !! s = Some e -> expires e < now ->
  fst (validateAndRemoveState now s states) = None.
Proof.
  intros E Hlt. unfold validateAndRemoveState. rewrite E.
  destruct (Z.ltb_spec (expires e) now); [reflexivity | lia].
Qed.

(** A call on another key, or a cleanup before the deadline, keeps a live
    entry where it is. *)
Lemma run_op_keeps (s : jsstring) (e : StateEntry) (o : op) (states : gmap jsstring StateEntry) :
  other_key s o -> cleanup_by (expires e) o ->
  states !! s = Some e -> run_op o states !! s = Some e.
Proof.
  intros Hk Hc E. destruct o as [now k d ttl|now k|now]; simpl in *.
  - unfold saveState. rewrite lookup_insert_ne by done. exact E.
  - rewrite validateAndRemoveState_snd, lookup_delete_ne by done. exact E.
  - unfold clearExpired. apply map_lookup_filter_Some. split; [exact E|].
    simpl. lia.
Qed.

Lemma run_ops_keeps (s : jsstring) (e : StateEntry) (ops : list op) (states : gmap jsstring StateEntry) :
  Forall (other_key s) ops -> Forall (cleanup_by (expires e)) ops ->
  states !! s = Some e -> run_ops ops states !! s = Some e.
Proof.
  unfold run_ops. revert states.
  induction ops as [|o ops IH]; intros states Hk Hc E; simpl; [exact E|].
  inversion Hk; inversion Hc; subst.
  apply IH; [assumption..|]. apply run_op_keeps; assumption.
Qed.

(** Calls on other keys and cleanups at any time leave at [s] either
    nothing or the entry that was there. *)
Lemma run_op_stays (s : jsstring) (e : StateEntry) (o : op) (states : gmap jsstring StateEntry) :
  other_key s o ->
  (forall e', states !! s = Some e' -> e' = e) ->
  forall e', run_op o states !! s = Some e' -> e' = e.
Proof.
  intros Hk Hinv e'. destruct o as [now k d ttl|now k|now]; simpl in *.
  - unfold saveState. rewrite lookup_insert_ne by done. apply Hinv.
  - rewrite validateAndRemoveState_snd, lookup_delete_ne by done. apply Hinv.
  - unfold clearExpired. intros [E _]%map_lookup_filter_Some. exact (Hinv _ E).
Qed.

Lemma run_ops_stays (s : jsstring) (e : StateEntry) (ops : list op) (states : gmap jsstring StateEntry) :
  Forall (other_key s) ops ->
  (forall e', states !! s = Some e' -> e' = e) ->
  forall e', run_ops ops states !! s = Some e' -> e' = e.
Proof.
  unfold run_ops. revert states.
  induction ops as [|o ops IH]; intros states Hk Hinv; simpl; [exact Hinv|].
  inversion Hk; subst. apply IH; [assumption|].
  apply run_op_stays; assumption.
Qed.

(** C6: after [saveState(s, d, ttl)], whatever is done meanwhile to other
    keys and whichever cleanups run, the first [validateAndRemoveState(s)]
    made no later than the expiry returns [d]; the call removes the entry
    whether or not it was valid, so that a second call returns absent at any
    time; and a call made after the expiry returns absent, whether or not a
    cleanup has purged the entry. *)
Theorem validateAndRemoveState_single_use :
  forall (states : gmap jsstring StateEntry) (s d : jsstring) (ttl t0 : Z)
         (ops : list op),
    Forall (other_key s) ops ->
    let saved := run_ops ops (saveState t0 s d ttl states) in
    (forall t1, t1 <= t0 + ttl -> Forall (cleanup_by (t0 + ttl)) ops ->
       fst (validateAndRemoveState t1 s saved) = Some d) /\
    (forall t1 any, snd (validateAndRemoveState t1 s any) !! s = None) /\
    (forall t1 t2,
       fst (validateAndRemoveState t2 s (snd (validateAndRemoveState t1 s saved))) = None) /\
    (forall t1, t0 + ttl < t1 -> fst (validateAndRemoveState t1 s saved) = None).
Proof.
  intros states s d ttl t0 ops Hk saved.
  set (e := {| data := d; expires := t0 + ttl |}).
  assert (Hsaved : saveState t0 s d ttl states !! s = Some e)
    by (unfold saveState; apply lookup_insert_eq).
  repeat split.
  - intros t1 Ht Hc.
    apply (validateAndRemoveState_live t1 s e); [|simpl; lia].
    apply run_ops_keeps; assumption.
  - intros t1 any. apply validateAndRemoveState_removes.
  - intros t1 t2. apply validateAndRemoveState_absent.
    apply validateAndRemoveState_removes.
  - intros t1 Ht.
    destruct (saved !! s) as [e'|] eqn:E.
    + assert (e' = e) as ->.
      { apply (run_ops_stays s e ops (saveState t0 s d ttl states)); try assumption.
        intros e'' E'. rewrite Hsaved in E'. congruence. }
      apply (validateAndRemoveState_expired t1 s e); [exact E | simpl; lia].
    + apply validateAndRemoveState_absent. exact E.
Qed.

(** The scenario of the specification: a state saved at time 0 for ten
    minutes, another key saved and a cleanup run meanwhile, taken after one
    minute. *)
Lemma validateAndRemoveState_single_use_witness :
  let s := js "state-1" in
  let d := js "payload" in
  let ops := [SaveState 10 (js "state-2") (js "other") DEFAULT_EXPIRY_MS;
              ClearExpired 20] in
  let saved := run_ops ops (saveState 0 s d DEFAULT_EXPIRY_MS ∅) in
  Forall (other_key s) ops /\
  fst (validateAndRemoveState 60000 s saved) = Some d /\
  snd (validateAndRemoveState 60000 s saved) !! s = None /\
  fst (validateAndRemoveState 60001 s (snd (validateAndRemoveState 60000 s saved))) = None /\
  fst (validateAndRemoveState 600001 s saved) = None.
Proof.
  intros s d ops saved.
  assert (Hk : Forall (other_key s) ops)
    by (repeat constructor; simpl; discriminate).
  destruct (validateAndRemoveState_single_use ∅ s d DEFAULT_EXPIRY_MS 0 ops Hk)
    as (Hfirst & Hremoved & Hsecond & Hlate).
  split; [exact Hk|].
  split; [apply Hfirst; [unfold DEFAULT_EXPIRY_MS; lia|]|].
  { repeat constructor; simpl; unfold DEFAULT_EXPIRY_MS; lia. }
  split; [apply Hremoved|].
  split; [apply Hsecond|].
  apply Hlate. unfold DEFAULT_EXPIRY_MS. lia.
Defined.

End StateStorageFacts.

(** ** The relational store: upsert on save, in-place update *)

Module PostgresFacts.
Import JS Stores.


(** *** The text of a [BIGINT] counts as the number it was written from *)






(** A string of at most [n] characters is its own first [n] characters. *)
Lemma split_characters_all (n : nat) (s : jsstring) :
  (PostgresStore.characters s <= n)%nat ->
  PostgresStore.split_characters n s = (s, []).
Proof.
  revert s. induction n as [|n IH]; intros s Hs.
  - destruct s as [|c [|d rest]]; [reflexivity | simpl in Hs; lia |].
    change (PostgresStore.characters (c :: d :: rest))
      with (if is_high c && is_low d
            then Datatypes.S (PostgresStore.characters rest)
            else Datatypes.S (PostgresStore.characters (d :: rest))) in Hs.
    destruct (is_high c && is_low d); lia.
  - destruct s as [|c [|d rest]]; [reflexivity..|].
    change (PostgresStore.characters (c :: d :: rest))
      with (if is_high c && is_low d
            then Datatypes.S (PostgresStore.characters rest)
            else Datatypes.S (PostgresStore.characters (d :: rest))) in Hs.
    change (PostgresStore.split_characters (Datatypes.S n) (c :: d :: rest))
      with (if is_high c && is_low d
            then let '(kept, excess) := PostgresStore.split_characters n rest in
                 (c :: d :: kept, excess)
            else let '(kept, excess) := PostgresStore.split_characters n (d :: rest) in
                 (c :: kept, excess)).
    destruct (is_high c && is_low d).
    + rewrite IH by lia. reflexivity.
    + rewrite IH by lia. reflexivity.
Qed.

Lemma VARCHAR_fits (n : nat) (s : jsstring) :
  (PostgresStore.characters s <= n)%nat -> PostgresStore.VARCHAR n s = Some s.
Proof.
  intros Hs. unfold PostgresStore.VARCHAR.
  rewrite split_characters_all by exact Hs. reflexivity.
Qed.

(** What a storable write has. *)
Lemma storable_fits (userId : jsstring) (tokens : FortnoxTokens) :
  PostgresStore.storable userId tokens = true ->
  PostgresStore.VARCHAR 255 userId = Some userId /\
  PostgresStore.in_range tokens = true.
Proof.
  unfold PostgresStore.storable, PostgresStore.in_range. intros H.
  repeat match type of H with
         | (_ && _) = true => apply andb_true_iff in H as [H ?]
         end.
  split.
  - apply VARCHAR_fits.
    match goal with Hc : bool_decide _ = true |- _ => exact (bool_decide_eq_true_1 _ Hc) end.
  - apply andb_true_iff. split; [assumption|].
    destruct (expiry_date tokens) as [e|]; [|reflexivity].
    unfold PostgresStore.BIGINT.
    match goal with
    | He : (_ && _) = true |- _ =>
        apply andb_true_iff in He as [Hlo Hhi];
        apply Z.leb_le in Hlo; apply Z.leb_le in Hhi
    end.
    apply andb_true_iff. split; apply Z.leb_le; lia.
Qed.




(** A statement with a number that does not fit its column is rejected. *)
Lemma out_of_range_rejected (userId : jsstring) (tokens : FortnoxTokens)
    (db : PostgresStore.Database) :
  PostgresStore.in_range tokens = false ->
  PostgresStore.saveTokens userId tokens db = db /\
  PostgresStore.updateTokens userId tokens db = db.
Proof.
  intros Hr. unfold PostgresStore.saveTokens, PostgresStore.updateTokens.
  rewrite Hr. destruct (PostgresStore.VARCHAR 255 userId); split; reflexivity.
Qed.





End PostgresFacts.

(** ** The token manager: expiry, refresh and the refresh queue *)

Module TokensFacts.
Import JS Stores Tokens.

(** Reduce the projections of an explicit state, and nothing else. *)
Ltac fields :=
  cbn [tokenStore refreshQueue promises microtasks network exchanges clock].

Section Loop.
Context {Store : Type} `{TokenStore Store}.

Lemma run_add (a b : nat) (w : world) (s : state (S := Store)) :
  run (a + b) w s = run b w (run a w s).
Proof.
  revert s. induction a as [|a IH]; intros s; simpl; [reflexivity|].
  destruct (step w s) as [s'|] eqn:E; [apply IH|].
  destruct b; simpl; [reflexivity | rewrite E; reflexivity].
Qed.

Lemma run_idle (k : nat) (w : world) (s : state (S := Store)) :
  step w s = None -> run k w s = s.
Proof. intros E. destruct k; simpl; [|rewrite E]; reflexivity. Qed.

Lemma idle_step (w : world) (s : state (S := Store)) :
  idle s <-> step w s = None.
Proof.
  unfold idle, step. split.
  - intros [-> ->]. reflexivity.
  - destruct (microtasks s); [|discriminate].
    destruct (network s) as [|[[p u] t] rest]; [split; reflexivity | discriminate].
Qed.

(** [n] simultaneous calls: [n] pending promises and [n] resumptions, each
    holding what the store held at the call. *)
Lemma simultaneously_getValidTokens (u : jsstring) (n : nat) (store : Store)
    (q : gmap jsstring (list nat)) (ps : list promise) (mt : list task)
    (nw : list (nat * jsstring * jsstring)) (ex : nat) (now : Z) :
  simultaneously n (getValidTokens u) (State store q ps mt nw ex now)
  = State store q (ps ++ repeat Pending n)
      (mt ++ map (fun p => GetValid_resume p u (getTokens u store))
                 (seq (length ps) n))
      nw ex now.
Proof.
  revert ps mt. induction n as [|n IH]; intros ps mt; simpl.
  - rewrite !app_nil_r. reflexivity.
  - unfold getValidTokens, push_microtask, set_promises; simpl.
    rewrite IH, length_app, <- !app_assoc. simpl.
    rewrite Nat.add_1_r. reflexivity.
Qed.

(** Callers resumed while a refresh is under way only join its queue. *)
Lemma run_waiters (w : world) (u : jsstring) (t : FortnoxTokens) (store : Store)
    (k i : nat) (q : gmap jsstring (list nat)) (l : list nat)
    (ps : list promise) (tail : list task)
    (nw : list (nat * jsstring * jsstring)) (ex : nat) (now : Z) :
  isTokenExpired now t DEFAULT_BUFFER_MS = true ->
  q !! u = Some l ->
  run k w (State store q ps
             (map (fun p => GetValid_resume p u (Some t)) (seq i k) ++ tail)
             nw ex now)
  = State store (<[u := l ++ seq i k]> q) ps tail nw ex now.
Proof.
  intros Hexp. revert i q l.
  induction k as [|k IH]; intros i q l Hq; simpl.
  - rewrite app_nil_r, insert_id by exact Hq. reflexivity.
  - unfold step; simpl. rewrite Hexp.
    unfold refreshTokens_enter, isRefreshing; simpl. rewrite Hq.
    rewrite bool_decide_eq_true_2 by eauto.
    unfold addToRefreshQueue, set_refreshQueue; simpl. rewrite Hq. simpl.
    rewrite (IH (Datatypes.S i) _ (l ++ [i])) by apply lookup_insert_eq.
    rewrite insert_insert_eq, <- app_assoc. reflexivity.
Qed.

Lemma settle_State (p : nat) (v : promise) (store : Store)
    (q : gmap jsstring (list nat)) (ps : list promise) (mt : list task)
    (nw : list (nat * jsstring * jsstring)) (ex : nat) (now : Z) :
  settle p v (State store q ps mt nw ex now)
  = State store q
      (match ps !! p with Some Pending => <[p := v]> ps | _ => ps end)
      mt nw ex now.
Proof.
  unfold settle, set_promises; simpl.
  destruct (ps !! p) as [[| |]|]; reflexivity.
Qed.

(** Calling the queued callbacks settles exactly their promises. *)
Lemma settle_queue (v : promise) (store : Store) (q : gmap jsstring (list nat))
    (k : nat) (pre post : list promise) (mt : list task)
    (nw : list (nat * jsstring * jsstring)) (ex : nat) (now : Z) :
  fold_left (fun st callback => settle callback v st) (seq (length pre) k)
    (State store q (pre ++ repeat Pending k ++ post) mt nw ex now)
  = State store q (pre ++ repeat v k ++ post) mt nw ex now.
Proof.
  revert pre. induction k as [|k IH]; intros pre; simpl; [reflexivity|].
  rewrite settle_State, list_lookup_middle by reflexivity.
  replace (<[length pre := v]> (pre ++ Pending :: repeat Pending k ++ post))
    with ((pre ++ [v]) ++ repeat Pending k ++ post).
  - replace (Datatypes.S (length pre)) with (length (pre ++ [v]))
      by (rewrite length_app; simpl; lia).
    rewrite IH, <- app_assoc. reflexivity.
  - rewrite <- app_assoc. simpl.
    rewrite insert_app_r_alt, Nat.sub_diag by lia. reflexivity.
Qed.

(** From [n + 1] simultaneous calls on an expired credential to the one
    request on the wire, every other caller queued. *)
Lemma run_to_exchange (w : world) (u : jsstring) (t : FortnoxTokens)
    (store : Store) (now : Z) (n : nat) :
  getTokens u store = Some t ->
  isTokenExpired now t DEFAULT_BUFFER_MS = true ->
  run (n + 2) w (simultaneously (Datatypes.S n) (getValidTokens u) (init store now))
  = State store (<[u := seq 1 n]> ∅) (repeat Pending (Datatypes.S n)) []
          [(0%nat, u, refresh_token t)] 1 now.
Proof.
  intros Hget Hexp. unfold init.
  rewrite simultaneously_getValidTokens, Hget. simpl app.
  replace (n + 2)%nat with (1 + (n + 1))%nat by lia.
  rewrite (run_add 1). simpl run at 2. unfold step; simpl.
  rewrite Hexp. unfold refreshTokens_enter, isRefreshing; simpl.
  rewrite lookup_empty, bool_decide_eq_false_2 by (intros [x Hx]; discriminate).
  unfold setRefreshing, set_refreshQueue, push_microtask; simpl.
  rewrite Hget, run_add.
  rewrite (run_waiters w u t store n 1 _ []) by (assumption || apply lookup_insert_eq).
  simpl. unfold step; simpl. rewrite insert_insert_eq. reflexivity.
Qed.

Lemma run_one_to_exchange (w : world) (u : jsstring) (t : FortnoxTokens)
    (store : Store) (now : Z) :
  getTokens u store = Some t ->
  isTokenExpired now t DEFAULT_BUFFER_MS = true ->
  run 2 w (getValidTokens u (init store now))
  = State store (<[u := []]> ∅) [Pending] [] [(0%nat, u, refresh_token t)] 1 now.
Proof. intros Hget Hexp. exact (run_to_exchange w u t store now 0 Hget Hexp). Qed.

(** The exchange succeeds: the credential is stored, every queued caller
    and the refreshing caller get it, the user is no longer refreshing. *)
Lemma run_exchange_ok (w : world) (u rt : jsstring) (d : TokenResponse)
    (store : Store) (now : Z) (n : nat) :
  server w rt = Ok d ->
  run 3 w (State store (<[u := seq 1 n]> ∅) (repeat Pending (Datatypes.S n)) []
                 [(0%nat, u, rt)] 1 now)
  = State (updateTokens u (tokens_of_response (now + latency w) d) store) ∅
          (repeat (Fulfilled (tokens_of_response (now + latency w) d)) (Datatypes.S n))
          [] [] 1 (now + latency w).
Proof.
  intros Hok. simpl. unfold step; simpl. rewrite Hok. simpl.
  unfold processRefreshQueue; simpl. rewrite lookup_insert_eq. simpl.
  pose proof (settle_queue (Fulfilled (tokens_of_response (now + latency w) d))
                (updateTokens u (tokens_of_response (now + latency w) d) store)
                (<[u := seq 1 n]> ∅) n [Pending] [] [] [] 1 (now + latency w)) as Hq.
  simpl in Hq. rewrite !app_nil_r in Hq. rewrite Hq.
  unfold set_refreshQueue. fields. rewrite settle_State. simpl.
  unfold setRefreshing, set_refreshQueue; simpl.
  rewrite !delete_insert_eq, delete_empty. reflexivity.
Qed.

(** The exchange fails: the refreshing caller is rejected, the queue is
    emptied without a call to any callback, the user is no longer
    refreshing. *)
Lemma run_exchange_failed (w : world) (u rt : jsstring) (f : failure)
    (store : Store) (now : Z) (n : nat) :
  server w rt = Failed f ->
  run 2 w (State store (<[u := seq 1 n]> ∅) (repeat Pending (Datatypes.S n)) []
                 [(0%nat, u, rt)] 1 now)
  = State store ∅ (Rejected (rethrown f) :: repeat Pending n)
          [] [] 1 (now + latency w).
Proof.
  intros Hf. simpl. unfold step; simpl. rewrite Hf. simpl.
  unfold refreshTokens_catch, processRefreshQueue, set_refreshQueue. fields.
  rewrite settle_State. simpl.
  unfold setRefreshing, set_refreshQueue; simpl.
  rewrite !delete_insert_eq, delete_empty. reflexivity.
Qed.

Lemma past_expiry_isTokenExpired (now e : Z) (tokens : FortnoxTokens) :
  expiry_date tokens = Some e -> e < now ->
  isTokenExpired now tokens DEFAULT_BUFFER_MS = true.
Proof.
  intros He Hlt. unfold isTokenExpired, DEFAULT_BUFFER_MS. rewrite He.
  destruct (e =? 0); [reflexivity|]. apply Z.ltb_lt. lia.
Qed.

Lemma isTokenExpired_iff (now : Z) (tokens : FortnoxTokens) :
  0 <= now ->
  isTokenExpired now tokens DEFAULT_BUFFER_MS = true <->
  expiry_date tokens = None \/
  exists e, expiry_date tokens = Some e /\ e - now < 300000.
Proof.
  intros Hnow. unfold isTokenExpired, DEFAULT_BUFFER_MS.
  destruct (expiry_date tokens) as [e|]; [|split; [left; reflexivity | reflexivity]].
  destruct (Z.eqb_spec e 0) as [->|Hne].
  - split; [intros _; right; exists 0; split; [reflexivity | lia] | reflexivity].
  - rewrite Z.ltb_lt. split.
    + intros Hlt. right. exists e. split; [reflexivity | lia].
    + intros [Hn | (e' & [= <-] & Hlt)]; [discriminate | lia].
Qed.

(** With the exchange failing, the callers queued behind the refresh stay
    pending once the loop has nothing left to run. *)
Lemma failed_refresh_leaves_waiters_pending (w : world) (store : Store) (now : Z)
    (u : jsstring) (tokens : FortnoxTokens) (f : failure) (n extra : nat) :
  getTokens u store = Some tokens ->
  isTokenExpired now tokens DEFAULT_BUFFER_MS = true ->
  server w (refresh_token tokens) = Failed f ->
  run (n + 4 + extra) w
      (simultaneously (Datatypes.S n) (getValidTokens u) (init store now))
  = State store ∅ (Rejected (rethrown f) :: repeat Pending n) [] [] 1
          (now + latency w).
Proof.
  intros Hget Hexp Hf.
  replace (n + 4 + extra)%nat with ((n + 2) + (2 + extra))%nat by lia.
  rewrite run_add, (run_to_exchange w u tokens) by assumption.
  rewrite run_add, (run_exchange_failed w u _ f) by assumption.
  apply run_idle. reflexivity.
Qed.

(** On this loop, [n] simultaneous calls on a credential that expired in
    the past start one exchange (none when there is no call), and the
    callers hold its credential when it succeeds. *)
Lemma simultaneous_calls_one_exchange :
  forall (w : world) (store : Store) (now : Z) (u : jsstring)
         (tokens : FortnoxTokens) (e : Z) (n extra : nat),
    getTokens u store = Some tokens ->
    expiry_date tokens = Some e ->
    e < now ->
    let final :=
      run (n + 4 + extra) w (simultaneously n (getValidTokens u) (init store now)) in
    idle final /\
    exchanges final = Nat.min n 1 /\
    forall d,
      server w (refresh_token tokens) = Ok d ->
      promises final = repeat (Fulfilled (tokens_of_response (now + latency w) d)) n /\
      (n = 0%nat \/
       tokenStore final = updateTokens u (tokens_of_response (now + latency w) d) store).
Proof.
  intros w store now u tokens e n extra Hget He Hpast final.
  pose proof (past_expiry_isTokenExpired now e tokens He Hpast) as Hexp.
  destruct n as [|n].
  - assert (final = init store now) as -> by (apply run_idle; reflexivity).
    split; [split; reflexivity|]. split; [reflexivity|].
    intros d _. split; [reflexivity | left; reflexivity].
  - destruct (server w (refresh_token tokens)) as [d|f] eqn:Hs.
    + assert (final =
              State (updateTokens u (tokens_of_response (now + latency w) d) store) ∅
                (repeat (Fulfilled (tokens_of_response (now + latency w) d))
                        (Datatypes.S n))
                [] [] 1 (now + latency w)) as ->.
      { unfold final.
        replace (Datatypes.S n + 4 + extra)%nat
          with ((n + 2) + (3 + extra))%nat by lia.
        rewrite run_add, (run_to_exchange w u tokens) by assumption.
        rewrite run_add, (run_exchange_ok w u _ d) by assumption.
        apply run_idle. reflexivity. }
      split; [split; reflexivity|]. split; [simpl; lia|].
      intros d' [= <-]. split; [reflexivity | right; reflexivity].
    + assert (final =
              State store ∅ (Rejected (rethrown f) :: repeat Pending n) [] [] 1
                    (now + latency w)) as ->.
      { unfold final.
        replace (Datatypes.S n + 4 + extra)%nat with (n + 4 + Datatypes.S extra)%nat
          by lia.
        apply (failed_refresh_leaves_waiters_pending w store now u tokens f);
          assumption. }
      split; [split; reflexivity|]. split; [simpl; lia|].
      intros d' [=].
Qed.

Lemma getValidTokens_not_found (w : world)
    (store : Store) (now : Z) (u : jsstring) (extra : nat) :
  getTokens u store = None ->
  run (1 + extra) w (getValidTokens u (init store now))
  = State store ∅ [Rejected (Error "No tokens found for user")] [] [] 0 now.
Proof.
  intros Hget.
  unfold getValidTokens, init, push_microtask, set_promises. fields.
  rewrite Hget. rewrite (run_add 1). simpl. unfold step. fields.
  unfold run_task. rewrite settle_State. simpl.
  apply run_idle. reflexivity.
Qed.

(** C3: [getValidTokens(userId)] is rejected with "No tokens found for user"
    when the store holds nothing for the user; otherwise the credential
    counts as expired exactly when it has no [expiry_date] or
    [expiry_date - now < 300000]; an expired credential goes through
    [refreshTokens] (one exchange is sent, and the caller gets the refreshed
    credential when it succeeds); any other credential is returned as stored,
    with no exchange and the store untouched. *)
Theorem getValidTokens_refreshes_exactly_when_expired :
  forall (w : world) (store : Store) (now : Z) (u : jsstring) (extra : nat),
    0 <= now ->
    let called := getValidTokens u (init store now) in
    (getTokens u store = None ->
     run (1 + extra) w called
     = State store ∅ [Rejected (Error "No tokens found for user")] [] [] 0 now) /\
    (forall tokens,
       getTokens u store = Some tokens ->
       (isTokenExpired now tokens DEFAULT_BUFFER_MS = true <->
        expiry_date tokens = None \/
        exists e, expiry_date tokens = Some e /\ e - now < 300000) /\
       (isTokenExpired now tokens DEFAULT_BUFFER_MS = true ->
        run 2 w called
        = State store (<[u := []]> ∅) [Pending] []
                [(0%nat, u, refresh_token tokens)] 1 now /\
        forall d,
          server w (refresh_token tokens) = Ok d ->
          run (5 + extra) w called
          = State (updateTokens u (tokens_of_response (now + latency w) d) store) ∅
                  [Fulfilled (tokens_of_response (now + latency w) d)] [] [] 1
                  (now + latency w)) /\
       (isTokenExpired now tokens DEFAULT_BUFFER_MS = false ->
        run (1 + extra) w called = State store ∅ [Fulfilled tokens] [] [] 0 now)).
Proof.
  intros w store now u extra Hnow called. split; [|intros tokens Hget; repeat split].
  - intros Hget. apply getValidTokens_not_found. exact Hget.
  - apply isTokenExpired_iff; assumption.
  - apply isTokenExpired_iff; assumption.
  - apply run_one_to_exchange; assumption.
  - intros d Hd.
    replace (5 + extra)%nat with (2 + (3 + extra))%nat by lia.
    rewrite run_add.
    unfold called.
    rewrite (run_one_to_exchange w u tokens store now Hget) by assumption.
    pose proof (run_exchange_ok w u (refresh_token tokens) d store now 0 Hd)
      as Hrun.
    cbn [seq repeat] in Hrun. rewrite run_add, Hrun.
    apply run_idle. reflexivity.
  - intros Hexp.
    unfold called, getValidTokens, init, push_microtask, set_promises. fields.
    rewrite Hget. rewrite (run_add 1). simpl. unfold step. fields.
    unfold run_task. fields. rewrite Hexp, settle_State. simpl.
    apply run_idle. reflexivity.
Qed.

(** On this loop, callers that arrive while the exchange is on the wire
    join the queue of the refresh under way. *)
Lemma late_callers_join :
  forall (w : world) (store : Store) (now : Z) (u : jsstring)
         (tokens : FortnoxTokens) (d : TokenResponse) (n m extra : nat),
    getTokens u store = Some tokens ->
    isTokenExpired now tokens DEFAULT_BUFFER_MS = true ->
    server w (refresh_token tokens) = Ok d ->
    let in_flight :=
      run (n + 2) w
          (simultaneously (Datatypes.S n) (getValidTokens u) (init store now)) in
    let final :=
      run (m + 3 + extra) w (simultaneously m (getValidTokens u) in_flight) in
    network in_flight = [(0%nat, u, refresh_token tokens)] /\
    idle final /\
    exchanges final = 1%nat /\
    promises final
    = repeat (Fulfilled (tokens_of_response (now + latency w) d))
             (Datatypes.S n + m).
Proof.
  intros w store now u tokens d n m extra Hget Hexp Hok in_flight final.
  assert (Hin : in_flight
                = State store (<[u := seq 1 n]> ∅) (repeat Pending (Datatypes.S n)) []
                        [(0%nat, u, refresh_token tokens)] 1 now)
    by (apply run_to_exchange; assumption).
  assert (final
          = State (updateTokens u (tokens_of_response (now + latency w) d) store) ∅
                  (repeat (Fulfilled (tokens_of_response (now + latency w) d))
                          (Datatypes.S n + m))
                  [] [] 1 (now + latency w)) as ->.
  { unfold final. rewrite Hin, simultaneously_getValidTokens, Hget.
    rewrite repeat_length. cbn [app].
    replace (m + 3 + extra)%nat with (m + (3 + extra))%nat by lia.
    rewrite run_add.
    rewrite <- (app_nil_r (map _ (seq (Datatypes.S n) m))).
    rewrite (run_waiters w u tokens store m (Datatypes.S n) _ (seq 1 n))
      by (assumption || apply lookup_insert_eq).
    rewrite insert_insert_eq, <- seq_app, <- repeat_app.
    rewrite run_add, (run_exchange_ok w u _ d) by assumption.
    apply run_idle. reflexivity. }
  rewrite Hin. split; [reflexivity|]. split; [split; reflexivity|].
  split; reflexivity.
Qed.

End Loop.

(** X21: over the in-memory store, whose calls settle in the turn they are
    made in.  For a user whose stored credential expired in the past, [n]
    calls of [getValidTokens] made simultaneously start exactly one
    exchange with the token endpoint (none when there is no call),
    whatever its outcome; once the loop has run, nothing is left to run,
    and when the exchange succeeds every one of the [n] callers holds the
    one credential it produced, which is also the one stored. *)
Theorem in_memory_single_flight :
  forall (w : world) (store : gmap jsstring FortnoxTokens) (now : Z) (u : jsstring)
         (tokens : FortnoxTokens) (e : Z) (n extra : nat),
    InMemoryStore.getTokens u store = Some tokens ->
    expiry_date tokens = Some e ->
    e < now ->
    let final :=
      run (n + 4 + extra) w (simultaneously n (getValidTokens u) (init store now)) in
    idle final /\
    exchanges final = Nat.min n 1 /\
    forall d,
      server w (refresh_token tokens) = Ok d ->
      promises final = repeat (Fulfilled (tokens_of_response (now + latency w) d)) n /\
      (n = 0%nat \/
       tokenStore final
       = InMemoryStore.updateTokens u (tokens_of_response (now + latency w) d) store).
Proof.
  intros w store now u tokens e n extra Hget He Hpast.
  exact (simultaneous_calls_one_exchange w store now u tokens e n extra Hget He Hpast).
Qed.

(** X1: over the in-memory store, callers that arrive while the exchange is
    on the wire join the queue of the refresh under way: [n + 1] calls in a
    first turn, [m] more once the request has been sent; one exchange, and
    all of them hold its credential. *)
Theorem late_callers_join_the_refresh :
  forall (w : world) (store : gmap jsstring FortnoxTokens) (now : Z) (u : jsstring)
         (tokens : FortnoxTokens) (d : TokenResponse) (n m extra : nat),
    InMemoryStore.getTokens u store = Some tokens ->
    isTokenExpired now tokens DEFAULT_BUFFER_MS = true ->
    server w (refresh_token tokens) = Ok d ->
    let in_flight :=
      run (n + 2) w
          (simultaneously (Datatypes.S n) (getValidTokens u) (init store now)) in
    let final :=
      run (m + 3 + extra) w (simultaneously m (getValidTokens u) in_flight) in
    network in_flight = [(0%nat, u, refresh_token tokens)] /\
    idle final /\
    exchanges final = 1%nat /\
    promises final
    = repeat (Fulfilled (tokens_of_response (now + latency w) d))
             (Datatypes.S n + m).
Proof.
  intros w store now u tokens d n m extra Hget Hexp Hok.
  exact (late_callers_join w store now u tokens d n m extra Hget Hexp Hok).
Qed.

(** X2: after [revokeTokens], [getValidTokens] is rejected with "No tokens
    found for user" and no exchange is made; revoking twice is revoking
    once. *)
Theorem revoke_then_getValidTokens :
  forall (w : world) (store : gmap jsstring FortnoxTokens) (now : Z)
         (u : jsstring) (extra : nat),
    run (1 + extra) w (getValidTokens u (revokeTokens u (init store now)))
    = State (delete u store) ∅ [Rejected (Error "No tokens found for user")]
            [] [] 0 now /\
    revokeTokens u (revokeTokens u (init store now))
    = revokeTokens u (init store now).
Proof.
  intros w store now u extra. split.
  - assert (Hnone : getTokens u (deleteTokens u store) = None)
      by apply lookup_delete_eq.
    exact (getValidTokens_not_found w (deleteTokens u store) now u extra Hnone).
  - unfold revokeTokens, init. cbn.
    unfold InMemoryStore.deleteTokens. rewrite delete_delete_eq. reflexivity.
Qed.

(** Three calls in a first turn and two more while the request is on the
    wire. *)
Lemma late_callers_join_the_refresh_witness :
  let in_flight :=
    run (2 + 2) Scenario.granting
        (simultaneously 3 (getValidTokens (js "user-1"))
           (init Scenario.store 4000000)) in
  let final :=
    run (2 + 3 + 0) Scenario.granting
        (simultaneously 2 (getValidTokens (js "user-1")) in_flight) in
  getTokens (js "user-1") Scenario.store = Some Scenario.issued /\
  isTokenExpired 4000000 Scenario.issued DEFAULT_BUFFER_MS = true /\
  idle final /\ exchanges final = 1%nat /\
  promises final
  = repeat (Fulfilled (tokens_of_response 4000120 Scenario.refreshed)) 5.
Proof.
  intros in_flight final.
  assert (Hget : getTokens (js "user-1") Scenario.store = Some Scenario.issued)
    by reflexivity.
  assert (Hexp : isTokenExpired 4000000 Scenario.issued DEFAULT_BUFFER_MS = true)
    by reflexivity.
  destruct (late_callers_join_the_refresh Scenario.granting Scenario.store 4000000
              (js "user-1") Scenario.issued Scenario.refreshed 2 2 0
              Hget Hexp eq_refl) as (_ & Hidle & Hex & Hps).
  repeat split; try assumption; apply Hidle.
Defined.

(** Fifty simultaneous calls on the credential of the scenario, long after
    its expiry, against a granting endpoint. *)
Lemma in_memory_single_flight_witness :
  let final :=
    run (50 + 4 + 0) Scenario.granting
        (simultaneously 50 (getValidTokens (js "user-1"))
           (init Scenario.store 4000000)) in
  getTokens (js "user-1") Scenario.store = Some Scenario.issued /\
  expiry_date Scenario.issued = Some 3600000 /\
  3600000 < 4000000 /\
  idle final /\
  exchanges final = 1%nat /\
  promises final
  = repeat (Fulfilled (tokens_of_response 4000120 Scenario.refreshed)) 50.
Proof.
  intros final.
  assert (Hget : getTokens (js "user-1") Scenario.store = Some Scenario.issued)
    by reflexivity.
  assert (He : expiry_date Scenario.issued = Some 3600000) by reflexivity.
  assert (Hpast : 3600000 < 4000000) by lia.
  destruct (in_memory_single_flight Scenario.granting Scenario.store 4000000
              (js "user-1") Scenario.issued 3600000 50 0 Hget He Hpast)
    as (Hidle & Hex & Hok).
  destruct (Hok Scenario.refreshed eq_refl) as [Hps _].
  repeat split; try assumption; apply Hidle.
Defined.

(** The credential of the scenario, read at [T + 100 s] (returned as it is)
    and at [T + 3600 s - 60 s] (inside the buffer: refreshed). *)
Lemma getValidTokens_refreshes_exactly_when_expired_witness :
  (0 <= 100000 /\
   run (1 + 0) Scenario.granting
       (getValidTokens (js "user-1") (init Scenario.store 100000))
   = State Scenario.store ∅ [Fulfilled Scenario.issued] [] [] 0 100000) /\
  (0 <= 3540000 /\
   run (5 + 0) Scenario.granting
       (getValidTokens (js "user-1") (init Scenario.store 3540000))
   = State (updateTokens (js "user-1")
              (tokens_of_response 3540120 Scenario.refreshed) Scenario.store)
           ∅ [Fulfilled (tokens_of_response 3540120 Scenario.refreshed)] [] [] 1
           3540120).
Proof.
  assert (Hget : getTokens (js "user-1") Scenario.store = Some Scenario.issued)
    by reflexivity.
  split; (split; [lia|]).
  - assert (Hnow : 0 <= 100000) by lia.
    destruct (getValidTokens_refreshes_exactly_when_expired Scenario.granting
                Scenario.store 100000 (js "user-1") 0 Hnow) as [_ Hsome].
    destruct (Hsome Scenario.issued Hget) as (_ & _ & Hvalid).
    apply Hvalid. reflexivity.
  - assert (Hnow : 0 <= 3540000) by lia.
    destruct (getValidTokens_refreshes_exactly_when_expired Scenario.granting
                Scenario.store 3540000 (js "user-1") 0 Hnow) as [_ Hsome].
    destruct (Hsome Scenario.issued Hget) as (_ & Hexpired & _).
    destruct (Hexpired eq_refl) as [_ Hrefreshed].
    apply (Hrefreshed Scenario.refreshed). reflexivity.
Defined.

(** C1, on the code: two simultaneous calls on the expired credential of
    the scenario, the endpoint refusing the refresh.  The refreshing caller
    is rejected with the failure; the queued caller's promise is still
    pending when the loop has nothing left to run, and the queue that held
    its callback is gone. *)
Theorem failed_refresh_strands_queued_caller :
  let final :=
    run 100 Scenario.refusing
        (simultaneously 2 (getValidTokens (js "user-1"))
           (init Scenario.store 4000000)) in
  idle final /\
  step Scenario.refusing final = None /\
  exchanges final = 1%nat /\
  refreshQueue final = ∅ /\
  promises final
  = [Rejected (Error "Failed to refresh token: invalid_grant"); Pending].
Proof.
  intros final.
  assert (final =
          State Scenario.store ∅
                [Rejected (Error "Failed to refresh token: invalid_grant"); Pending]
                [] [] 1 4000120) as ->.
  { exact (failed_refresh_leaves_waiters_pending Scenario.refusing Scenario.store
             4000000 (js "user-1") Scenario.issued
             (AxiosResponseError (Some "invalid_grant"%string)
                "Request failed with status code 400")
             1 95 eq_refl eq_refl eq_refl). }
  repeat split.
Qed.

End TokensFacts.

(** ** The manager over a store that answers later *)

Module AsyncFacts.
Import JS Stores Tokens TokensFacts.

Section Schedules.
Context {Store : Type} `{TokenStore Store}.

Lemma run_cons (server : jsstring -> response) (e : Async.event)
    (es : list Async.event) (s : Async.state (S := Store)) :
  Async.run server (e :: es) s
  = match Async.step server e s with
    | Some s' => Async.run server es s'
    | None => None
    end.
Proof. reflexivity. Qed.

(** The answer to the read of [getValidTokens]: an expired credential,
    nobody refreshing for the user. *)
Lemma read_expired (server : jsstring -> response) (k p : nat) (dt : Z)
    (u : jsstring) (t : FortnoxTokens) (store : Store)
    (q : gmap jsstring (list nat)) (ps : list promise) (ex : nat) (now : Z)
    (cs : list Async.call) :
  cs !! k = Some (Async.Select_getValid p u None) ->
  getTokens u store = Some t ->
  isTokenExpired (now + Z.max 0 dt) t DEFAULT_BUFFER_MS = true ->
  q !! u = None ->
  Async.step server (Async.Returns k dt)
    (Async.State (State store q ps [] [] ex now) cs)
  = Some (Async.State (State store (<[u := []]> q) ps [] [] ex (now + Z.max 0 dt))
            (delete k cs ++ [Async.Select_refresh p u None])).
Proof.
  intros Hk Hget Hexp Hq. unfold Async.step. cbn [Async.calls]. rewrite Hk.
  cbn [Async.runs Async.manager tokenStore]. rewrite Hget.
  unfold Async.resume, Async.advance, Async.set_tokenStore. fields.
  cbn [Async.manager]. fields. rewrite Hexp.
  unfold Async.refreshTokens_enter, isRefreshing. cbn [Async.manager]. fields.
  rewrite Hq, bool_decide_eq_false_2 by (intros [x Hx]; discriminate).
  reflexivity.
Qed.

(** The answer to the read of [refreshTokens]: the request goes out. *)
Lemma read_for_refresh (server : jsstring -> response) (k p : nat) (dt : Z)
    (u : jsstring) (t : FortnoxTokens) (store : Store)
    (q : gmap jsstring (list nat)) (ps : list promise) (ex : nat) (now : Z)
    (cs : list Async.call) :
  cs !! k = Some (Async.Select_refresh p u None) ->
  getTokens u store = Some t ->
  Async.step server (Async.Returns k dt)
    (Async.State (State store q ps [] [] ex now) cs)
  = Some (Async.State (State store q ps [] [] (Datatypes.S ex) (now + Z.max 0 dt))
            (delete k cs ++ [Async.Post p u (refresh_token t)])).
Proof.
  intros Hk Hget. unfold Async.step. cbn [Async.calls]. rewrite Hk.
  cbn [Async.runs Async.manager tokenStore]. rewrite Hget. reflexivity.
Qed.

(** A granted response: the credential is dated from its arrival, and the
    write goes out. *)
Lemma response_arrives (server : jsstring -> response) (k p : nat) (dt : Z)
    (u rt : jsstring) (d : TokenResponse) (store : Store)
    (q : gmap jsstring (list nat)) (ps : list promise) (ex : nat) (now : Z)
    (cs : list Async.call) :
  cs !! k = Some (Async.Post p u rt) ->
  server rt = Ok d ->
  Async.step server (Async.Returns k dt)
    (Async.State (State store q ps [] [] ex now) cs)
  = Some (Async.State (State store q ps [] [] ex (now + Z.max 0 dt))
            (delete k cs
               ++ [Async.Update p u (tokens_of_response (now + Z.max 0 dt) d) false])).
Proof.
  intros Hk Hok. unfold Async.step. cbn [Async.calls]. rewrite Hk.
  cbn [Async.runs Async.resume]. rewrite Hok. reflexivity.
Qed.

(** The answer to the write, nobody queued behind the refresh. *)
Lemma write_returns (server : jsstring -> response) (k p : nat) (dt : Z)
    (u : jsstring) (t : FortnoxTokens) (store : Store)
    (q : gmap jsstring (list nat)) (ps : list promise) (ex : nat) (now : Z)
    (cs : list Async.call) :
  cs !! k = Some (Async.Update p u t false) ->
  q !! u = Some [] ->
  ps !! p = Some Pending ->
  Async.step server (Async.Returns k dt)
    (Async.State (State store q ps [] [] ex now) cs)
  = Some (Async.State
            (State (updateTokens u t store) (delete u q) (<[p := Fulfilled t]> ps)
                   [] [] ex (now + Z.max 0 dt))
            (delete k cs)).
Proof.
  intros Hk Hq Hp. unfold Async.step. cbn [Async.calls]. rewrite Hk.
  cbn [Async.runs Async.resume Async.manager tokenStore].
  unfold Async.on_manager, Async.advance, Async.set_tokenStore.
  cbn [Async.manager Async.calls]. fields.
  unfold processRefreshQueue. fields. rewrite Hq. simpl.
  unfold set_refreshQueue. fields. rewrite settle_State, Hp.
  unfold setRefreshing, set_refreshQueue. fields.
  rewrite delete_insert_eq. reflexivity.
Qed.


(** X7: refreshes of different users do not wait for one another, in
    whichever order the two responses arrive.  Two users with expired
    credentials ask in the same turn, over a store that answers each call
    at once; both requests go out, each with the refresh token of its own
    user.  The response that arrives first, after [a] milliseconds, whether
    it is the one for [u] or the one for [v], is written and handed to its
    caller while the other request is still out; the other follows [b]
    milliseconds later.  Each caller is fulfilled with the credential
    granted for its own user, dated from the arrival of its own response,
    and both credentials are stored. *)
Theorem users_refresh_independently :
  forall (server : jsstring -> response) (store : Store) (now a b : Z)
         (u v : jsstring) (tu tv : FortnoxTokens) (du dv : TokenResponse),
    u <> v ->
    getTokens u store = Some tu ->
    getTokens v store = Some tv ->
    isTokenExpired now tu DEFAULT_BUFFER_MS = true ->
    isTokenExpired now tv DEFAULT_BUFFER_MS = true ->
    server (refresh_token tu) = Ok du ->
    server (refresh_token tv) = Ok dv ->
    0 <= a -> 0 <= b ->
    let called :=
      Async.getValidTokens v (Async.getValidTokens u (Async.init store now)) in
    let reads :=
      [Async.Returns 0 0; Async.Returns 0 0; Async.Returns 0 0; Async.Returns 0 0] in
    let first := now + a in
    let second := now + a + b in
    Async.run server reads called
    = Some (Async.State
              (State store (<[v := []]> (<[u := []]> ∅)) [Pending; Pending] [] [] 2 now)
              [Async.Post 0 u (refresh_token tu); Async.Post 1 v (refresh_token tv)]) /\
    Async.run server
      (reads ++ [Async.Returns 0 a; Async.Returns 1 0; Async.Returns 0 b;
                 Async.Returns 0 0]) called
    = Some (Async.State
              (State (updateTokens v (tokens_of_response second dv)
                        (updateTokens u (tokens_of_response first du) store))
                     ∅
                     [Fulfilled (tokens_of_response first du);
                      Fulfilled (tokens_of_response second dv)] [] [] 2 second)
              []) /\
    Async.run server
      (reads ++ [Async.Returns 1 a; Async.Returns 1 0; Async.Returns 0 b;
                 Async.Returns 0 0]) called
    = Some (Async.State
              (State (updateTokens u (tokens_of_response second du)
                        (updateTokens v (tokens_of_response first dv) store))
                     ∅
                     [Fulfilled (tokens_of_response second du);
                      Fulfilled (tokens_of_response first dv)] [] [] 2 second)
              []).
Proof.
  intros server store now a b u v tu tv du dv Huv Hu Hv Hxu Hxv Hou Hov Ha Hb
         called reads first second.
  assert (Hvu : v <> u) by congruence.
  assert (Hmax : Z.max 0 0 = 0) by reflexivity.
  assert (Hreads : Async.run server reads called
                   = Some (Async.State
                             (State store (<[v := []]> (<[u := []]> ∅))
                                    [Pending; Pending] [] [] 2 now)
                             [Async.Post 0 u (refresh_token tu);
                              Async.Post 1 v (refresh_token tv)])).
  { unfold reads, called, Async.getValidTokens, Async.init, Async.issue,
      Async.on_manager, init, set_promises.
    cbn [Async.manager Async.calls app length]. fields. cbn [app length].
    rewrite run_cons, (read_expired server 0 0 0 u tu)
      by (reflexivity || assumption || apply lookup_empty
          || (rewrite Hmax, Z.add_0_r; assumption)).
    rewrite Hmax, Z.add_0_r. cbn [delete list_delete app].
    rewrite run_cons, (read_expired server 0 1 0 v tv)
      by (reflexivity || assumption
          || (rewrite lookup_insert_ne by assumption; apply lookup_empty)
          || (rewrite Hmax, Z.add_0_r; assumption)).
    rewrite Hmax, Z.add_0_r. cbn [delete list_delete app].
    rewrite run_cons, (read_for_refresh server 0 0 0 u tu) by (reflexivity || assumption).
    rewrite Hmax, Z.add_0_r. cbn [delete list_delete app].
    rewrite run_cons, (read_for_refresh server 0 1 0 v tv) by (reflexivity || assumption).
    rewrite Hmax, Z.add_0_r. cbn [delete list_delete app].
    reflexivity. }
  assert (Hrun_app : forall es es' (s : Async.state (S := Store)),
             Async.run server (es ++ es') s
             = match Async.run server es s with
               | Some s' => Async.run server es' s'
               | None => None
               end).
  { induction es as [|e es IH]; intros es' s; [reflexivity|].
    cbn [app]. rewrite !run_cons.
    destruct (Async.step server e s); [apply IH | reflexivity]. }
  assert (Hempty : delete v (delete u (<[v := []]> (<[u := []]> (∅ : gmap jsstring (list nat))))) = ∅
                   /\ delete u (delete v (<[v := []]> (<[u := []]> (∅ : gmap jsstring (list nat))))) = ∅).
  { split; apply map_eq; intros k; rewrite lookup_empty.
    - destruct (decide (k = v)) as [->|Hk]; [apply lookup_delete_eq|].
      rewrite lookup_delete_ne by congruence.
      destruct (decide (k = u)) as [->|Hk']; [apply lookup_delete_eq|].
      rewrite lookup_delete_ne, !lookup_insert_ne by congruence. reflexivity.
    - destruct (decide (k = u)) as [->|Hk]; [apply lookup_delete_eq|].
      rewrite lookup_delete_ne by congruence.
      destruct (decide (k = v)) as [->|Hk']; [apply lookup_delete_eq|].
      rewrite lookup_delete_ne, !lookup_insert_ne by congruence. reflexivity. }
  destruct Hempty as [Huv_empty Hvu_empty].
  split; [exact Hreads|]. split.
  - rewrite Hrun_app, Hreads.
    rewrite run_cons, (response_arrives server 0 0 a u _ du) by (reflexivity || assumption).
    rewrite (Z.max_r 0 a) by exact Ha. cbn [delete list_delete app].
    rewrite run_cons, (write_returns server 1 0 0 u (tokens_of_response (now + a) du))
      by (reflexivity
          || (rewrite lookup_insert_ne by assumption; apply lookup_insert_eq)).
    rewrite Hmax, Z.add_0_r. cbn [delete list_delete app].
    rewrite run_cons, (response_arrives server 0 1 b v _ dv) by (reflexivity || assumption).
    rewrite (Z.max_r 0 b) by exact Hb. cbn [delete list_delete app].
    rewrite run_cons, (write_returns server 0 1 0 v (tokens_of_response (now + a + b) dv))
      by (reflexivity
          || (rewrite lookup_delete_ne by assumption; apply lookup_insert_eq)).
    rewrite Hmax, Z.add_0_r. cbn [delete list_delete app].
    rewrite Huv_empty. reflexivity.
  - rewrite Hrun_app, Hreads.
    rewrite run_cons, (response_arrives server 1 1 a v _ dv) by (reflexivity || assumption).
    rewrite (Z.max_r 0 a) by exact Ha. cbn [delete list_delete app].
    rewrite run_cons, (write_returns server 1 1 0 v (tokens_of_response (now + a) dv))
      by (reflexivity || apply lookup_insert_eq).
    rewrite Hmax, Z.add_0_r. cbn [delete list_delete app].
    rewrite run_cons, (response_arrives server 0 0 b u _ du) by (reflexivity || assumption).
    rewrite (Z.max_r 0 b) by exact Hb. cbn [delete list_delete app].
    rewrite run_cons, (write_returns server 0 0 0 u (tokens_of_response (now + a + b) du))
      by (reflexivity
          || (rewrite lookup_delete_ne by assumption;
              rewrite lookup_insert_ne by assumption; apply lookup_insert_eq)).
    rewrite Hmax, Z.add_0_r. cbn [delete list_delete app].
    rewrite Hvu_empty. reflexivity.
Qed.

End Schedules.

(** Two users with expired credentials in the in-memory store; the first
    response after 120 ms, the second 80 ms later. *)
Lemma users_refresh_independently_witness :
  let called :=
    Async.getValidTokens (js "user-2")
      (Async.getValidTokens (js "user-1") (Async.init Cases.two_users 4000000)) in
  let reads :=
    [Async.Returns 0 0; Async.Returns 0 0; Async.Returns 0 0; Async.Returns 0 0] in
  getTokens (js "user-1") Cases.two_users = Some Scenario.issued /\
  getTokens (js "user-2") Cases.two_users = Some Cases.issued2 /\
  Async.outcome
    (Async.run (server Cases.by_token)
       (reads ++ [Async.Returns 0 120; Async.Returns 1 0; Async.Returns 0 80;
                  Async.Returns 0 0]) called)
  = Some (2%nat, [Fulfilled (tokens_of_response 4000120 Scenario.refreshed);
                  Fulfilled (tokens_of_response 4000200 Cases.refreshed2)]) /\
  Async.outcome
    (Async.run (server Cases.by_token)
       (reads ++ [Async.Returns 1 120; Async.Returns 1 0; Async.Returns 0 80;
                  Async.Returns 0 0]) called)
  = Some (2%nat, [Fulfilled (tokens_of_response 4000200 Scenario.refreshed);
                  Fulfilled (tokens_of_response 4000120 Cases.refreshed2)]).
Proof.
  intros called reads.
  assert (Hne : js "user-1" <> js "user-2")
    by (intros E; vm_compute in E; discriminate E).
  assert (Hu : getTokens (js "user-1") Cases.two_users = Some Scenario.issued)
    by (vm_compute; reflexivity).
  assert (Hv : getTokens (js "user-2") Cases.two_users = Some Cases.issued2)
    by (vm_compute; reflexivity).
  assert (Ha : 0 <= 120) by lia.
  assert (Hb : 0 <= 80) by lia.
  destruct (users_refresh_independently (server Cases.by_token) Cases.two_users
              4000000 120 80 (js "user-1") (js "user-2") Scenario.issued Cases.issued2
              Scenario.refreshed Cases.refreshed2 Hne Hu Hv eq_refl eq_refl
              eq_refl eq_refl Ha Hb) as (_ & Hfirst & Hsecond).
  split; [exact Hu|]. split; [exact Hv|]. split.
  - unfold called, reads. rewrite Hfirst. reflexivity.
  - unfold called, reads. rewrite Hsecond. reflexivity.
Defined.

(** C2, on the code: two calls of [getValidTokens] made in the same turn
    for the user of the scenario, whose credential in the database expired
    in the past, against a server that rotates refresh tokens.  When the
    answers of the database arrive in the order of the calls, the second
    caller finds the user refreshing and joins the queue: one exchange, and
    both hold its credential.  When the database runs the read of the
    second caller at once and its answer arrives only after the refresh of
    the first caller is over, the second caller still holds the expired
    credential it read, finds nobody refreshing, and starts an exchange of
    its own: two exchanges, and the two callers hold different
    credentials.  Every credential written is one the table takes. *)
Theorem delayed_read_starts_a_second_exchange :
  getTokens (js "user-1") Cases.database = Some Scenario.issued /\
  expiry_date Scenario.issued = Some 3600000 /\
  clock (Async.manager Cases.two_callers) = 4000000 /\
  Async.outcome (Async.run Cases.rotating Cases.answers_in_order Cases.two_callers)
  = Some (1%nat, [Fulfilled (tokens_of_response 4000123 Scenario.refreshed);
                  Fulfilled (tokens_of_response 4000123 Scenario.refreshed)]) /\
  Async.outcome (Async.run Cases.rotating Cases.answer_delayed Cases.two_callers)
  = Some (2%nat, [Fulfilled (tokens_of_response 4000122 Scenario.refreshed);
                  Fulfilled (tokens_of_response 4000544 Cases.refreshed_again)]) /\
  access_token (tokens_of_response 4000122 Scenario.refreshed) = js "access-2" /\
  access_token (tokens_of_response 4000544 Cases.refreshed_again) = js "access-3" /\
  PostgresStore.storable (js "user-1")
    (tokens_of_response 4000122 Scenario.refreshed) = true /\
  PostgresStore.storable (js "user-1")
    (tokens_of_response 4000544 Cases.refreshed_again) = true.
Proof. repeat split; vm_compute; reflexivity. Qed.

End AsyncFacts.


(** ** PKCE: challenges and their verification *)

Module PKCEFacts.
Import JS PKCE.

(** Lists three elements at a time, as [base64url] reads them. *)
Lemma list_ind3 (A : Type) (P : list A -> Prop) :
  P [] -> (forall a, P [a]) -> (forall a b, P [a; b]) ->
  (forall a b c l, P l -> P (a :: b :: c :: l)) ->
  forall l, P l.
Proof.
  intros H0 H1 H2 H3.
  fix IH 1. intros [|a [|b [|c l]]]; [exact H0 | apply H1 | apply H2 |].
  apply H3. apply IH.
Qed.

Lemma b64url_char_ascii (n : Z) : 0 <= n < 64 -> is_ascii (b64url_char n).
Proof.
  intros Hn. unfold is_ascii, b64url_char.
  repeat match goal with
         | |- context [?a <? ?b] => destruct (Z.ltb_spec a b)
         | |- context [?a =? ?b] => destruct (Z.eqb_spec a b)
         end; lia.
Qed.

Lemma sextets (a b c : Z) :
  byte a -> byte b -> byte c ->
  0 <= a / 4 < 64 /\ 0 <= (a mod 4) * 16 + b / 16 < 64 /\
  0 <= (b mod 16) * 4 + c / 64 < 64 /\ 0 <= c mod 64 < 64 /\
  0 <= (a mod 4) * 16 < 64 /\ 0 <= (b mod 16) * 4 < 64.
Proof.
  unfold byte. intros Ha Hb Hc.
  pose proof (Z.mod_pos_bound a 4 ltac:(lia)).
  pose proof (Z.mod_pos_bound b 16 ltac:(lia)).
  pose proof (Z.mod_pos_bound c 64 ltac:(lia)).
  assert (0 <= a / 4 < 64)
    by (split; [apply Z.div_pos; lia | apply Z.div_lt_upper_bound; lia]).
  assert (0 <= b / 16 < 16)
    by (split; [apply Z.div_pos; lia | apply Z.div_lt_upper_bound; lia]).
  assert (0 <= c / 64 < 4)
    by (split; [apply Z.div_pos; lia | apply Z.div_lt_upper_bound; lia]).
  lia.
Qed.

Lemma base64url_ascii (bs : list Z) : is_buffer bs -> Forall is_ascii (base64url bs).
Proof.
  unfold is_buffer.
  induction bs as [|a|a b|a b c l IH] using list_ind3; intros Hb; simpl.
  - constructor.
  - inversion Hb as [|? ? Ha _]; subst.
    destruct (sextets a a a Ha Ha Ha) as (? & ? & ? & ? & ? & ?).
    repeat constructor; apply b64url_char_ascii; assumption.
  - inversion Hb as [|? ? Ha Hb']; subst. inversion Hb' as [|? ? Hb0 _]; subst.
    destruct (sextets a b b Ha Hb0 Hb0) as (? & ? & ? & ? & ? & ?).
    repeat constructor; apply b64url_char_ascii; assumption.
  - inversion Hb as [|? ? Ha Hb']; subst. inversion Hb' as [|? ? Hb0 Hb'']; subst.
    inversion Hb'' as [|? ? Hc Hl]; subst.
    destruct (sextets a b c Ha Hb0 Hc) as (? & ? & ? & ? & ? & ?).
    repeat (constructor; [apply b64url_char_ascii; assumption|]).
    apply IH. assumption.
Qed.

(** A digest of 32 bytes is written as 43 characters. *)
Lemma base64url_length_32 (bs : list Z) :
  length bs = 32%nat -> length (base64url bs) = 43%nat.
Proof.
  intros Hlen.
  do 32 (destruct bs as [|? bs]; [discriminate Hlen|]).
  destruct bs; [reflexivity | discriminate Hlen].
Qed.

Lemma utf8_encode_ascii (s : jsstring) : Forall is_ascii s -> utf8_encode s = s.
Proof.
  induction 1 as [|c s Hc _ IH]; [reflexivity|].
  unfold is_ascii in Hc. simpl.
  assert (is_high c = false) as ->
    by (unfold is_high; apply andb_false_intro1, Z.leb_gt; lia).
  assert (is_low c = false) as ->
    by (unfold is_low; apply andb_false_intro1, Z.leb_gt; lia).
  unfold utf8_of_cp. destruct (Z.ltb_spec c 128); [|lia].
  simpl. rewrite IH. reflexivity.
Qed.

Lemma be32_octets (w : Z) : is_buffer (Sha256.be32 w).
Proof.
  unfold Sha256.be32, is_buffer, byte.
  repeat constructor; apply Z.mod_pos_bound; lia.
Qed.

Lemma sha256_octets (msg : list Z) : is_buffer (Sha256.sha256 msg).
Proof.
  unfold Sha256.sha256, Sha256.bytes_of_regs, is_buffer.
  repeat (apply Forall_app; split; [apply be32_octets|]). apply be32_octets.
Qed.

Lemma sha256_length (msg : list Z) : length (Sha256.sha256 msg) = 32%nat.
Proof. reflexivity. Qed.

(** The digest on the two test vectors of FIPS 180-4 that fit one and two
    blocks. *)
Example sha256_abc :
  hex_encode (Sha256.sha256 (js "abc"))
  = js "ba7816bf8f01cfea414140de5dae2223b00361a396177a9cb410ff61f20015ad".
Proof. vm_compute. reflexivity. Qed.

Example sha256_two_blocks :
  hex_encode (Sha256.sha256
                (js "abcdbcdecdefdefgefghfghighijhijkijkljklmklmnlmnomnopnopq"))
  = js "248d6a61d20638b8e5c026930c3e6039a33ce45964ff2167f6ecedd419db06c1".
Proof. vm_compute. reflexivity. Qed.

Lemma createCodeChallenge_valid (v : jsstring) :
  valid_verifier v ->
  createCodeChallenge v = Normal (base64url (Sha256.sha256 (utf8_encode v))).
Proof.
  unfold valid_verifier, createCodeChallenge. intros Hv.
  destruct v as [|c v]; [simpl in Hv; lia|].
  cbn [falsy orb].
  destruct (Z.ltb_spec (Z.of_nat (length (c :: v))) 43); [lia|].
  destruct (Z.gtb_spec (Z.of_nat (length (c :: v))) 128); [lia|].
  reflexivity.
Qed.

Lemma createCodeChallenge_invalid (v : jsstring) :
  (length v < 43 \/ 128 < length v)%nat ->
  createCodeChallenge v = Throw (Error "Invalid code verifier").
Proof.
  unfold createCodeChallenge. intros Hv.
  destruct v as [|c v]; [reflexivity|].
  cbn [falsy orb].
  destruct (Z.ltb_spec (Z.of_nat (length (c :: v))) 43); [reflexivity|].
  destruct (Z.gtb_spec (Z.of_nat (length (c :: v))) 128); [reflexivity|lia].
Qed.

(** The bytes compared for the recomputed challenge: always 43 of them. *)
Lemma calculated_challenge_bytes (v : jsstring) :
  length (utf8_encode (base64url (Sha256.sha256 (utf8_encode v)))) = 43%nat.
Proof.
  rewrite utf8_encode_ascii by (apply base64url_ascii, sha256_octets).
  apply base64url_length_32, sha256_length.
Qed.

(** C10: for a verifier and a challenge that are not empty,
    [verifyCodeChallenge] does not return but throws when the verifier's
    length is outside [43,128] ([createCodeChallenge] throws "Invalid code
    verifier"), and when the verifier is valid but the challenge's UTF-8
    encoding is not 43 bytes long ([crypto.timingSafeEqual] throws a
    RangeError). *)
Theorem verifyCodeChallenge_throws :
  forall (codeVerifier codeChallenge : jsstring),
    codeVerifier <> [] ->
    codeChallenge <> [] ->
    ((length codeVerifier < 43 \/ 128 < length codeVerifier)%nat ->
     verifyCodeChallenge codeVerifier codeChallenge
     = Throw (Error "Invalid code verifier")) /\
    ((43 <= length codeVerifier <= 128)%nat ->
     length (utf8_encode codeChallenge) <> 43%nat ->
     verifyCodeChallenge codeVerifier codeChallenge
     = Throw (RangeError "Input buffers must have the same byte length")).
Proof.
  intros v c Hv Hc. unfold verifyCodeChallenge.
  destruct v as [|v0 v]; [congruence|]. destruct c as [|c0 c]; [congruence|].
  cbn [falsy orb]. split.
  - intros Hlen. rewrite createCodeChallenge_invalid by exact Hlen. reflexivity.
  - intros Hlen Hbytes. rewrite createCodeChallenge_valid by exact Hlen.
    cbn [bind]. unfold timingSafeEqual.
    rewrite calculated_challenge_bytes.
    destruct (decide (43%nat = length (utf8_encode (c0 :: c)))); [congruence|].
    reflexivity.
Qed.

Example createCodeChallenge_rfc :
  createCodeChallenge Scenario.rfc_verifier = Normal Scenario.rfc_challenge.
Proof. vm_compute. reflexivity. Qed.

(** A verifier of five characters, and a challenge of three. *)
Lemma verifyCodeChallenge_throws_witness :
  js "short" <> [] /\ js "abc" <> [] /\ Scenario.rfc_verifier <> [] /\
  verifyCodeChallenge (js "short") (js "abc") = Throw (Error "Invalid code verifier") /\
  verifyCodeChallenge Scenario.rfc_verifier (js "abc")
  = Throw (RangeError "Input buffers must have the same byte length").
Proof.
  assert (H1 : js "short" <> []) by discriminate.
  assert (H2 : js "abc" <> []) by discriminate.
  assert (H3 : Scenario.rfc_verifier <> []) by discriminate.
  repeat (split; [assumption|]). split.
  - apply (verifyCodeChallenge_throws (js "short") (js "abc") H1 H2).
    left. simpl. lia.
  - apply (verifyCodeChallenge_throws Scenario.rfc_verifier (js "abc") H3 H2).
    + simpl. lia.
    + simpl. lia.
Defined.

(** What does hold of C9: a valid verifier is accepted against its own
    challenge, and [createCodeVerifier] refuses a length outside [43,128]. *)
Lemma verifyCodeChallenge_accepts_own (v : jsstring) :
  valid_verifier v ->
  exists challenge,
    createCodeChallenge v = Normal challenge /\
    verifyCodeChallenge v challenge = Normal true.
Proof.
  intros Hv. exists (base64url (Sha256.sha256 (utf8_encode v))).
  split; [apply createCodeChallenge_valid, Hv|].
  unfold verifyCodeChallenge.
  assert (Hlen := calculated_challenge_bytes v).
  rewrite utf8_encode_ascii in Hlen by (apply base64url_ascii, sha256_octets).
  destruct v as [|v0 v]; [unfold valid_verifier in Hv; simpl in Hv; lia|].
  destruct (base64url (Sha256.sha256 (utf8_encode (v0 :: v)))) as [|c0 c] eqn:E;
    [discriminate Hlen|].
  cbn [falsy orb]. rewrite createCodeChallenge_valid by exact Hv. cbn [bind].
  rewrite E. unfold timingSafeEqual, bytes_eqb.
  destruct (decide (length (utf8_encode (c0 :: c)) = length (utf8_encode (c0 :: c))));
    [|congruence].
  rewrite bool_decide_eq_true_2 by reflexivity. reflexivity.
Qed.

Lemma createCodeVerifier_rejects (randomBytes : Z -> list Z) (len : Z) :
  len < 43 \/ 128 < len ->
  createCodeVerifier randomBytes len
  = Throw (Error "Code verifier length must be between 43 and 128 characters").
Proof.
  intros Hlen. unfold createCodeVerifier.
  destruct (Z.ltb_spec len 43); [reflexivity|].
  destruct (Z.gtb_spec len 128); [reflexivity | lia].
Qed.

(** C9, on the code: a challenge that differs from the right one in a
    single bit makes [verifyCodeChallenge] throw where the claim (and the
    function's own documentation) has it return [false]. *)
Theorem verifyCodeChallenge_mutated_challenge_throws :
  (43 <= length Scenario.rfc_verifier <= 128)%nat /\
  createCodeChallenge Scenario.rfc_verifier = Normal Scenario.rfc_challenge /\
  verifyCodeChallenge Scenario.rfc_verifier Scenario.rfc_challenge = Normal true /\
  length Scenario.mutated_challenge = length Scenario.rfc_challenge /\
  verifyCodeChallenge Scenario.rfc_verifier Scenario.mutated_challenge
  = Throw (RangeError "Input buffers must have the same byte length").
Proof.
  split; [simpl; lia|]. split; [apply createCodeChallenge_rfc|].
  split; [vm_compute; reflexivity|]. split; [reflexivity|].
  vm_compute. reflexivity.
Qed.

End PKCEFacts.

(** ** [JSON.parse]: the fuel of the parser is never used up *)

Module JsonFacts.
Import JS Json.

Lemma skip_ws_length (s : jsstring) : (length (skip_ws s) <= length s)%nat.
Proof.
  induction s as [|c s IH]; simpl; [lia|].
  destruct (is_ws c); simpl; lia.
Qed.

Lemma skip_ws_cons (s r : jsstring) (c : Z) :
  skip_ws s = c :: r -> (length r < length s)%nat.
Proof.
  intros E. pose proof (skip_ws_length s) as Hl. rewrite E in Hl. simpl in Hl. lia.
Qed.

Lemma span_digits_length (s ds r : jsstring) :
  span_digits s = (ds, r) -> (length r <= length s)%nat.
Proof.
  revert ds r. induction s as [|c s IH]; intros ds r; simpl.
  - intros [= <- <-]. simpl. lia.
  - destruct (is_digit c).
    + destruct (span_digits s) as [ds' r'] eqn:E. intros [= <- <-].
      specialize (IH _ _ eq_refl). lia.
    + intros [= <- <-]. simpl. lia.
Qed.

Lemma parse_chars_length (s acc key r : jsstring) :
  parse_chars s acc = Parsed key r -> (length r < length s)%nat.
Proof.
  remember (length s) as n eqn:Hn. revert s acc Hn.
  induction n as [n IH] using lt_wf_ind. intros s acc -> E.
  destruct s as [|c s]; [discriminate E|]. simpl in E.
  destruct (c =? 34); [injection E as <- <-; simpl; lia|].
  destruct (c =? 92).
  - destruct s as [|e s]; [discriminate E|].
    assert (Hstep : forall x, parse_chars s x = Parsed key r ->
                              (length r < length (c :: e :: s))%nat).
    { intros x Hx.
      pose proof (IH (length s) ltac:(simpl; lia) s x eq_refl Hx). simpl. lia. }
    repeat match type of E with
           | (if ?b then _ else _) = _ => destruct b; [eauto; fail|]
           end.
    destruct (e =? 117); [|discriminate E].
    destruct s as [|h1 [|h2 [|h3 [|h4 s]]]]; try discriminate E.
    destruct (unhex h1), (unhex h2), (unhex h3), (unhex h4); try discriminate E.
    pose proof (IH (length s) ltac:(simpl; lia) s _ eq_refl E). simpl. lia.
  - destruct ((0 <=? c) && (c <? 32)); [discriminate E|].
    pose proof (IH (length s) ltac:(simpl; lia) s _ eq_refl E). simpl. lia.
Qed.

Lemma parse_int_length (s i r : jsstring) :
  parse_int s = Some (i, r) -> (length r < length s)%nat.
Proof.
  destruct s as [|c s]; [discriminate|]. simpl.
  destruct (c =? 48); [intros [= <- <-]; simpl; lia|].
  destruct (is_digit c); [|discriminate].
  destruct (span_digits s) as [ds r'] eqn:E. intros [= <- <-].
  apply span_digits_length in E. simpl. lia.
Qed.

Lemma parse_frac_length (s f r : jsstring) :
  parse_frac s = Some (f, r) -> (length r <= length s)%nat.
Proof.
  unfold parse_frac.
  destruct s as [|c s]; [intros [= <- <-]; simpl; lia|].
  destruct (Z.eq_dec c 46) as [->|Hne].
  - destruct (span_digits s) as [ds r'] eqn:E.
    apply span_digits_length in E.
    destruct ds; [discriminate|]. intros [= <- <-]. simpl. lia.
  - assert (Some ([] : jsstring, c :: s) = Some (f, r) -> (length r <= length (c :: s))%nat)
      by (intros [= <- <-]; lia).
    destruct c as [|p|p]; try (exact H).
    do 6 (destruct p as [p|p|]; try (exact H)). congruence.
Qed.

Lemma parse_exp_length (s e r : jsstring) :
  parse_exp s = Some (e, r) -> (length r <= length s)%nat.
Proof.
  unfold parse_exp.
  destruct s as [|c s]; [intros [= <- <-]; simpl; lia|].
  destruct ((c =? 101) || (c =? 69)); [|intros [= <- <-]; lia].
  destruct (match s with
            | [] => ([], s)
            | g :: r' => if (g =? 43) || (g =? 45) then ([g], r') else ([], s)
            end) as [sign r1] eqn:Es.
  assert (length r1 <= length s)%nat.
  { destruct s as [|g s']; [injection Es as <- <-; lia|].
    destruct ((g =? 43) || (g =? 45)); injection Es as <- <-; simpl; lia. }
  destruct (span_digits r1) as [ds r2] eqn:E.
  apply span_digits_length in E.
  destruct ds; [discriminate|]. intros [= <- <-]. simpl. lia.
Qed.

Lemma parse_number_length (s r : jsstring) (v : value) :
  parse_number s = Parsed v r -> (length r < length s)%nat.
Proof.
  unfold parse_number.
  destruct (match s with
            | 45 :: r0 => ([45], r0)
            | _ => ([], s)
            end) as [sign s1] eqn:Es.
  assert (length s1 <= length s)%nat.
  { destruct s as [|c s']; [injection Es as <- <-; lia|].
    destruct (Z.eq_dec c 45) as [->|Hne]; [injection Es as <- <-; simpl; lia|].
    assert (Hs : ([] : jsstring, c :: s') = (sign, s1) -> (length s1 <= length (c :: s'))%nat)
      by (intros [= <- <-]; lia).
    destruct c as [|p|p]; try (exact (Hs Es)).
    do 6 (destruct p as [p|p|]; try (exact (Hs Es))). congruence. }
  destruct (parse_int s1) as [[i s2]|] eqn:Ei; [|discriminate].
  destruct (parse_frac s2) as [[f s3]|] eqn:Ef; [|discriminate].
  destruct (parse_exp s3) as [[e s4]|] eqn:Ee; [|discriminate].
  intros [= <- <-].
  apply parse_int_length in Ei. apply parse_frac_length in Ef.
  apply parse_exp_length in Ee. lia.
Qed.

Lemma strip_prefix_length (p s r : jsstring) :
  strip_prefix p s = Some r -> (length r <= length s)%nat.
Proof.
  revert s. induction p as [|a p IH]; intros s; simpl.
  - intros [= <-]. lia.
  - destruct s as [|b s]; [discriminate|].
    destruct (a =? b); [|discriminate]. intros E%IH. simpl. lia.
Qed.

(** Turn what is known of the pieces of a parse into facts on lengths. *)
Ltac learn_lengths :=
  repeat match goal with
         | H : skip_ws _ = _ :: _ |- _ => apply skip_ws_cons in H
         | H : parse_chars _ _ = Parsed _ _ |- _ => apply parse_chars_length in H
         | H : parse_number _ = Parsed _ _ |- _ => apply parse_number_length in H
         | H : strip_prefix _ _ = Some _ |- _ => apply strip_prefix_length in H
         end.

(** Case analysis on every test the parser makes on the way to [E]. *)
Ltac split_parse E :=
  repeat match type of E with
         | context [match ?x with _ => _ end] =>
             destruct x eqn:?; try discriminate E
         end.

(** Every parse consumes input. *)
Lemma parse_consumes (fuel : nat) :
  (forall s v r, parse_value fuel s = Parsed v r -> (length r < length s)%nat) /\
  (forall s acc v r,
     parse_members fuel s acc = Parsed v r -> (length r < length s)%nat) /\
  (forall s acc v r,
     parse_elements fuel s acc = Parsed v r -> (length r < length s)%nat).
Proof.
  induction fuel as [|f (IHv & IHm & IHe)]; [repeat split; intros; discriminate|].
  split; [|split].
  - intros s v r E. cbn [parse_value] in E. split_parse E;
      try (injection E as <- <-);
      try (apply IHm in E); try (apply IHe in E);
      learn_lengths; simpl in *; lia.
  - intros s acc v r E. cbn [parse_members] in E. split_parse E;
      try (injection E as <- <-);
      try (apply IHm in E);
      repeat match goal with
             | H : parse_value f _ = Parsed _ _ |- _ => apply IHv in H
             end;
      learn_lengths; simpl in *; lia.
  - intros s acc v r E. cbn [parse_elements] in E. split_parse E;
      try (injection E as <- <-);
      try (apply IHe in E);
      repeat match goal with
             | H : parse_value f _ = Parsed _ _ |- _ => apply IHv in H
             end;
      learn_lengths; simpl in *; lia.
Qed.

(** With fuel beyond twice the length of the text no parse runs out. *)
Lemma parse_fuel (fuel : nat) :
  (forall s, (2 * length s < fuel)%nat -> parse_value fuel s <> Exhausted) /\
  (forall s acc, (2 * length s < fuel)%nat -> parse_members fuel s acc <> Exhausted) /\
  (forall s acc, (2 * length s + 1 < fuel)%nat -> parse_elements fuel s acc <> Exhausted).
Proof.
  induction fuel as [|f (IHv & IHm & IHe)]; [repeat split; intros; lia|].
  split; [|split].
  - intros s Hf E. cbn [parse_value] in E. split_parse E;
      try (apply IHm in E; [exact E|]); try (apply IHe in E; [exact E|]);
      try (unfold parse_number in E; split_parse E; fail);
      learn_lengths; simpl in *; lia.
  - intros s acc Hf E. cbn [parse_members] in E. split_parse E;
      try (apply IHm in E; [exact E|]);
      repeat match goal with
             | H : parse_value f _ = Parsed _ _ |- _ =>
                 apply (proj1 (parse_consumes f)) in H
             | H : parse_value f _ = Exhausted |- _ =>
                 apply IHv in H; [exact H|]
             end;
      learn_lengths; simpl in *; lia.
  - intros s acc Hf E. cbn [parse_elements] in E. split_parse E;
      try (apply IHe in E; [exact E|]);
      repeat match goal with
             | H : parse_value f _ = Parsed _ _ |- _ =>
                 apply (proj1 (parse_consumes f)) in H
             | H : parse_value f _ = Exhausted |- _ =>
                 apply IHv in H; [exact H|]
             end;
      learn_lengths; simpl in *; lia.
Qed.

(** [JSON.parse] never gives up for want of fuel: a text is refused only
    for its syntax. *)
Lemma parse_never_exhausted (text : jsstring) :
  parse_value (S (length text + length text)) text <> Exhausted.
Proof. apply (proj1 (parse_fuel _)). lia. Qed.

End JsonFacts.

(** ** [validateState]: never a throw, and what it returns *)

Module AuthFacts.
Import JS StateStorage Auth.

Lemma validateState_storage (now : Z) (state : jsstring)
    (storage : gmap jsstring StateEntry) :
  snd (validateState now state storage) = delete state storage.
Proof.
  unfold validateState.
  pose proof (StateStorageFacts.validateAndRemoveState_snd now state storage) as Hs.
  destruct (validateAndRemoveState now state storage) as [[[|c d]|] st']; exact Hs.
Qed.

Lemma validateState_result (now : Z) (state : jsstring)
    (storage : gmap jsstring StateEntry) :
  fst (validateState now state storage)
  = match fst (validateAndRemoveState now state storage) with
    | None | Some [] => Normal None
    | Some payload =>
        match Json.parse payload with
        | Throw _ | Normal Json.JNull => Normal None
        | Normal (Json.JObject members) =>
            Normal (Some {| userId := Json.lookup_member (js "userId") members;
                            codeVerifier :=
                              Json.lookup_member (js "codeVerifier") members |})
        | Normal _ => Normal (Some {| userId := None; codeVerifier := None |})
        end
    end.
Proof.
  unfold validateState.
  destruct (validateAndRemoveState now state storage) as [[[|c d]|] st'];
    [reflexivity| |reflexivity].
  cbn [fst]. destruct (Json.parse (c :: d)) as [[]|]; reflexivity.
Qed.

(** C8, as the code has it: [validateState] never throws and always removes
    the state; it returns [null] for a missing or expired state and for a
    payload that is empty, is not JSON, or is the JSON [null]; for every
    other payload it returns an object: the [userId] and [codeVerifier]
    members of a parsed object as they are (strings or not, [undefined] when
    missing), and two [undefined] for a boolean, a number, a string or an
    array. *)
Theorem validateState_never_raises :
  forall (now : Z) (state : jsstring) (storage : gmap jsstring StateEntry),
    (exists r, fst (validateState now state storage) = Normal r) /\
    snd (validateState now state storage) = delete state storage /\
    (fst (validateAndRemoveState now state storage) = None ->
     fst (validateState now state storage) = Normal None) /\
    (forall payload,
       fst (validateAndRemoveState now state storage) = Some payload ->
       (payload = [] -> fst (validateState now state storage) = Normal None) /\
       (forall e, Json.parse payload = Throw e ->
                  fst (validateState now state storage) = Normal None) /\
       (Json.parse payload = Normal Json.JNull ->
        fst (validateState now state storage) = Normal None) /\
       (forall members,
          Json.parse payload = Normal (Json.JObject members) ->
          fst (validateState now state storage)
          = Normal (Some {| userId := Json.lookup_member (js "userId") members;
                            codeVerifier :=
                              Json.lookup_member (js "codeVerifier") members |})) /\
       (forall v,
          Json.parse payload = Normal v -> primitive_or_array v ->
          fst (validateState now state storage)
          = Normal (Some {| userId := None; codeVerifier := None |}))).
Proof.
  intros now state storage. rewrite validateState_result.
  split; [|split; [apply validateState_storage|split]].
  - destruct (fst (validateAndRemoveState now state storage)) as [[|c d]|];
      [eauto| |eauto].
    destruct (Json.parse (c :: d)) as [[]|]; eauto.
  - intros ->. reflexivity.
  - intros payload ->.
    assert (Hempty : Json.parse [] = Throw (SyntaxError "Unexpected token in JSON"))
      by reflexivity.
    destruct payload as [|c d].
    + repeat split; try reflexivity; intros; rewrite Hempty in *; discriminate.
    + repeat split.
      * discriminate.
      * intros e ->. reflexivity.
      * intros ->. reflexivity.
      * intros members ->. reflexivity.
      * intros v -> Hv. destruct v; simpl in Hv; try contradiction; reflexivity.
Qed.

(** C8 as stated fails: the stored payload "{}" is valid JSON and an
    object, it carries neither [userId] nor [codeVerifier], and
    [validateState] returns an object all the same. *)
Lemma validateState_member_less_payload :
  Json.parse (js "{}") = Normal (Json.JObject []) /\
  fst (validateState 60000 (js "state-1")
         (saveState 0 (js "state-1") (js "{}") DEFAULT_EXPIRY_MS ∅))
  = Normal (Some {| userId := None; codeVerifier := None |}).
Proof. split; reflexivity. Qed.

End AuthFacts.

(** ** UTF-8 and hexadecimal: what is encoded decodes to itself *)

Module CodecFacts.
Import JS.

(** Settle the comparisons of the goal that the context decides. *)
Ltac decide_tests :=
  repeat match goal with
         | |- context [?a <=? ?b] =>
             first [ replace (a <=? b) with true by (symmetry; apply Z.leb_le; lia)
                   | replace (a <=? b) with false by (symmetry; apply Z.leb_gt; lia) ]
         | |- context [?a <? ?b] =>
             first [ replace (a <? b) with true by (symmetry; apply Z.ltb_lt; lia)
                   | replace (a <? b) with false by (symmetry; apply Z.ltb_ge; lia) ]
         | |- context [?a =? ?b] =>
             first [ replace (a =? b) with true by (symmetry; apply Z.eqb_eq; lia)
                   | replace (a =? b) with false by (symmetry; apply Z.eqb_neq; lia) ]
         end;
  cbn [andb orb negb].

Lemma decode_step (st st' : utf8_state) (out : jsstring) (b : Z) (bs : list Z) :
  utf8_step st b = (st', out) ->
  utf8_decode_from st (b :: bs) = out ++ utf8_decode_from st' bs.
Proof. intros E. cbn [utf8_decode_from]. rewrite E. reflexivity. Qed.

Lemma step_ascii (b : Z) :
  0 <= b <= 0x7F -> utf8_step utf8_init b = (utf8_init, [b]).
Proof. intros Hb. unfold utf8_step, utf8_start. cbn [u_needed utf8_init]. decide_tests. reflexivity. Qed.

Lemma step_lead2 (b : Z) :
  0xC2 <= b <= 0xDF ->
  utf8_step utf8_init b = (Utf8State (b - 0xC0) 1 0x80 0xBF, []).
Proof. intros Hb. unfold utf8_step, utf8_start. cbn [u_needed utf8_init]. decide_tests. reflexivity. Qed.

Lemma step_lead3 (b : Z) :
  0xE0 <= b <= 0xEF ->
  utf8_step utf8_init b
  = (Utf8State (b - 0xE0) 2 (if b =? 0xE0 then 0xA0 else 0x80)
               (if b =? 0xED then 0x9F else 0xBF), []).
Proof.
  intros Hb. unfold utf8_step, utf8_start. cbn [u_needed utf8_init].
  replace (0 <=? b) with true by (symmetry; apply Z.leb_le; lia).
  replace (b <=? 0x7F) with false by (symmetry; apply Z.leb_gt; lia).
  replace (0xC2 <=? b) with true by (symmetry; apply Z.leb_le; lia).
  replace (b <=? 0xDF) with false by (symmetry; apply Z.leb_gt; lia).
  replace (0xE0 <=? b) with true by (symmetry; apply Z.leb_le; lia).
  replace (b <=? 0xEF) with true by (symmetry; apply Z.leb_le; lia).
  reflexivity.
Qed.

Lemma step_lead4 (b : Z) :
  0xF0 <= b <= 0xF4 ->
  utf8_step utf8_init b
  = (Utf8State (b - 0xF0) 3 (if b =? 0xF0 then 0x90 else 0x80)
               (if b =? 0xF4 then 0x8F else 0xBF), []).
Proof.
  intros Hb. unfold utf8_step, utf8_start. cbn [u_needed utf8_init].
  replace (0 <=? b) with true by (symmetry; apply Z.leb_le; lia).
  replace (b <=? 0x7F) with false by (symmetry; apply Z.leb_gt; lia).
  replace (0xC2 <=? b) with true by (symmetry; apply Z.leb_le; lia).
  replace (b <=? 0xDF) with false by (symmetry; apply Z.leb_gt; lia).
  replace (0xE0 <=? b) with true by (symmetry; apply Z.leb_le; lia).
  replace (b <=? 0xEF) with false by (symmetry; apply Z.leb_gt; lia).
  replace (0xF0 <=? b) with true by (symmetry; apply Z.leb_le; lia).
  replace (b <=? 0xF4) with true by (symmetry; apply Z.leb_le; lia).
  reflexivity.
Qed.

Lemma step_last (cp lower upper b : Z) :
  lower <= b <= upper ->
  utf8_step (Utf8State cp 1 lower upper) b
  = (utf8_init, units_of_cp (cp * 64 + (b - 0x80))).
Proof.
  intros Hb. unfold utf8_step. cbn [u_needed u_lower u_upper u_cp].
  replace (lower <=? b) with true by (symmetry; apply Z.leb_le; lia).
  replace (b <=? upper) with true by (symmetry; apply Z.leb_le; lia).
  reflexivity.
Qed.

Lemma step_more (cp lower upper b : Z) (k : nat) :
  lower <= b <= upper ->
  utf8_step (Utf8State cp (S (S k)) lower upper) b
  = (Utf8State (cp * 64 + (b - 0x80)) (S k) 0x80 0xBF, []).
Proof.
  intros Hb. unfold utf8_step. cbn [u_needed u_lower u_upper u_cp].
  replace (lower <=? b) with true by (symmetry; apply Z.leb_le; lia).
  replace (b <=? upper) with true by (symmetry; apply Z.leb_le; lia).
  reflexivity.
Qed.

(** The base-64 digits of a code point, least significant first. *)
Lemma digits64 (cp : Z) :
  exists d0 d1 d2 d3,
    cp mod 64 = d0 /\ (cp / 64) mod 64 = d1 /\ (cp / 4096) mod 64 = d2 /\
    cp / 262144 = d3 /\ cp / 64 = d1 + 64 * (d2 + 64 * d3) /\
    cp / 4096 = d2 + 64 * d3 /\
    cp = d0 + 64 * (d1 + 64 * (d2 + 64 * d3)) /\
    0 <= d0 < 64 /\ 0 <= d1 < 64 /\ 0 <= d2 < 64.
Proof.
  exists (cp mod 64), ((cp / 64) mod 64), ((cp / 4096) mod 64), (cp / 262144).
  assert (E1 : cp / 4096 = cp / 64 / 64) by (rewrite Z.div_div by lia; reflexivity).
  assert (E2 : cp / 262144 = cp / 64 / 64 / 64)
    by (rewrite !Z.div_div by lia; reflexivity).
  rewrite E1, E2.
  pose proof (Z.div_mod cp 64 ltac:(lia)).
  pose proof (Z.div_mod (cp / 64) 64 ltac:(lia)).
  pose proof (Z.div_mod (cp / 64 / 64) 64 ltac:(lia)).
  pose proof (Z.mod_pos_bound cp 64 ltac:(lia)).
  pose proof (Z.mod_pos_bound (cp / 64) 64 ltac:(lia)).
  pose proof (Z.mod_pos_bound (cp / 64 / 64) 64 ltac:(lia)).
  repeat split; lia.
Qed.

(** The decoder reads back the bytes of a scalar value. *)
Lemma decode_cp (cp : Z) (rest : list Z) :
  scalar cp ->
  utf8_decode_from utf8_init (utf8_of_cp cp ++ rest)
  = units_of_cp cp ++ utf8_decode_from utf8_init rest.
Proof.
  intros [Hrange Hsurr].
  destruct (digits64 cp) as (d0 & d1 & d2 & d3 & E0 & E1 & E2 & E3 & Q1 & Q2 & Ecp & H0 & H1 & H2).
  unfold utf8_of_cp.
  destruct (Z.ltb_spec cp 0x80) as [L1|L1];
    [|destruct (Z.ltb_spec cp 0x800) as [L2|L2];
      [|destruct (Z.ltb_spec cp 0x10000) as [L3|L3]]].
  - cbn [app]. erewrite decode_step by (apply step_ascii; lia).
    unfold units_of_cp. decide_tests. reflexivity.
  - rewrite E0, Q1. cbn [app].
    erewrite decode_step by (apply step_lead2; lia). cbn [app].
    erewrite decode_step by (apply step_last; lia).
    do 2 f_equal. lia.
  - rewrite E0, E1, Q2. cbn [app].
    erewrite decode_step by (apply step_lead3; lia). cbn [app].
    assert (Hb2 : (if 0xE0 + (d2 + 64 * d3) =? 0xE0 then 0xA0 else 0x80)
                  <= 0x80 + d1
                  <= (if 0xE0 + (d2 + 64 * d3) =? 0xED then 0x9F else 0xBF)).
    { destruct (Z.eqb_spec (0xE0 + (d2 + 64 * d3)) 0xE0);
        destruct (Z.eqb_spec (0xE0 + (d2 + 64 * d3)) 0xED); lia. }
    erewrite decode_step by (apply step_more; exact Hb2). cbn [app].
    erewrite decode_step by (apply step_last; lia).
    do 2 f_equal. lia.
  - rewrite E0, E1, E2, E3. cbn [app].
    erewrite decode_step by (apply step_lead4; lia). cbn [app].
    assert (Hb2 : (if 0xF0 + d3 =? 0xF0 then 0x90 else 0x80)
                  <= 0x80 + d2
                  <= (if 0xF0 + d3 =? 0xF4 then 0x8F else 0xBF)).
    { destruct (Z.eqb_spec (0xF0 + d3) 0xF0);
        destruct (Z.eqb_spec (0xF0 + d3) 0xF4); lia. }
    erewrite decode_step by (apply step_more; exact Hb2). cbn [app].
    erewrite decode_step by (apply step_more; lia). cbn [app].
    erewrite decode_step by (apply step_last; lia).
    do 2 f_equal. lia.
Qed.

Lemma is_high_spec (c : Z) : is_high c = true <-> 0xD800 <= c <= 0xDBFF.
Proof. unfold is_high. rewrite andb_true_iff, !Z.leb_le. reflexivity. Qed.

Lemma is_low_spec (c : Z) : is_low c = true <-> 0xDC00 <= c <= 0xDFFF.
Proof. unfold is_low. rewrite andb_true_iff, !Z.leb_le. reflexivity. Qed.

Lemma not_surrogate (c : Z) :
  code_unit c -> is_high c = false -> is_low c = false -> scalar c.
Proof.
  unfold code_unit, scalar. intros Hc Hh Hl. split; [lia|]. intros Hs.
  destruct (Z.le_gt_cases c 0xDBFF).
  - rewrite (proj2 (is_high_spec c)) in Hh by lia. discriminate.
  - rewrite (proj2 (is_low_spec c)) in Hl by lia. discriminate.
Qed.

Lemma pair_scalar (c d : Z) :
  is_high c = true -> is_low d = true -> scalar (cp_of_pair c d).
Proof.
  intros Hc%is_high_spec Hd%is_low_spec. unfold scalar, cp_of_pair. lia.
Qed.

Lemma units_of_pair (c d : Z) :
  is_high c = true -> is_low d = true -> units_of_cp (cp_of_pair c d) = [c; d].
Proof.
  intros Hc%is_high_spec Hd%is_low_spec. unfold units_of_cp, cp_of_pair.
  replace (_ <? _) with false by (symmetry; apply Z.ltb_ge; lia).
  replace (0x10000 + (c - 0xD800) * 1024 + (d - 0xDC00) - 0x10000)
    with ((c - 0xD800) * 1024 + (d - 0xDC00)) by lia.
  assert (Hq : ((c - 0xD800) * 1024 + (d - 0xDC00)) / 1024 = c - 0xD800)
    by (rewrite Z.div_add_l, Z.div_small by lia; lia).
  assert (Hr : ((c - 0xD800) * 1024 + (d - 0xDC00)) mod 1024 = d - 0xDC00)
    by (rewrite Z.add_comm, Z.mod_add, Z.mod_small by lia; reflexivity).
  rewrite Hq, Hr. f_equal; [lia | f_equal; lia].
Qed.

Lemma units_of_unit (c : Z) : code_unit c -> units_of_cp c = [c].
Proof.
  unfold code_unit, units_of_cp. intros Hc.
  replace (c <? 0x10000) with true by (symmetry; apply Z.ltb_lt; lia).
  reflexivity.
Qed.

(** The round trip through UTF-8, for a string without unpaired
    surrogates. *)
Lemma utf8_decode_encode (s : jsstring) :
  is_string s -> isWellFormed s = true -> utf8_decode (utf8_encode s) = s.
Proof.
  unfold utf8_decode, is_string.
  remember (length s) as n eqn:Hn. revert s Hn.
  induction n as [n IH] using lt_wf_ind. intros s -> Hs Hwf.
  destruct s as [|c s]; [reflexivity|].
  inversion Hs as [|? ? Hc Hs']; subst.
  cbn [utf8_encode isWellFormed] in *.
  destruct (is_high c) eqn:Hh.
  - destruct s as [|d s]; [discriminate Hwf|].
    inversion Hs' as [|? ? Hd Hs'']; subst.
    apply andb_true_iff in Hwf as [Hl Hwf]. rewrite Hl.
    rewrite decode_cp by (apply pair_scalar; assumption).
    rewrite units_of_pair by assumption.
    rewrite (IH (length s) ltac:(simpl; lia) s eq_refl Hs'' Hwf). reflexivity.
  - destruct (is_low c) eqn:Hl; [discriminate Hwf|].
    rewrite decode_cp by (apply not_surrogate; assumption).
    rewrite units_of_unit by assumption.
    rewrite (IH (length s) ltac:(simpl; lia) s eq_refl Hs' Hwf). reflexivity.
Qed.

Lemma utf8_of_cp_octets (cp : Z) : 0 <= cp < 0x110000 -> is_buffer (utf8_of_cp cp).
Proof.
  intros Hrange.
  destruct (digits64 cp) as (d0 & d1 & d2 & d3 & E0 & E1 & E2 & E3 & Q1 & Q2 & Ecp & H0 & H1 & H2).
  unfold utf8_of_cp, is_buffer, byte.
  destruct (Z.ltb_spec cp 0x80) as [L1|L1];
    [|destruct (Z.ltb_spec cp 0x800) as [L2|L2];
      [|destruct (Z.ltb_spec cp 0x10000) as [L3|L3]]];
    rewrite ?E0, ?E1, ?E2, ?E3, ?Q1, ?Q2; repeat constructor; lia.
Qed.

Lemma utf8_encode_octets (s : jsstring) : is_string s -> is_buffer (utf8_encode s).
Proof.
  unfold is_string.
  remember (length s) as n eqn:Hn. revert s Hn.
  induction n as [n IH] using lt_wf_ind. intros s -> Hs.
  destruct s as [|c s]; [constructor|].
  inversion Hs as [|? ? Hc Hs']; subst.
  assert (Hrest : is_buffer (utf8_encode s))
    by (apply (IH (length s)); [simpl; lia | reflexivity | assumption]).
  assert (Hrepl : is_buffer (utf8_of_cp 0xFFFD)) by (apply utf8_of_cp_octets; lia).
  cbn [utf8_encode].
  destruct (is_high c) eqn:Hh.
  - destruct s as [|d s]; [exact Hrepl|].
    inversion Hs' as [|? ? Hd Hs'']; subst.
    destruct (is_low d) eqn:Hl.
    + apply Forall_app. split.
      * apply utf8_of_cp_octets.
        apply is_high_spec in Hh. apply is_low_spec in Hl. unfold cp_of_pair. lia.
      * apply (IH (length s)); [simpl; lia | reflexivity | assumption].
    + apply Forall_app. split; assumption.
  - destruct (is_low c).
    + apply Forall_app. split; assumption.
    + apply Forall_app. split; [|assumption].
      apply utf8_of_cp_octets. unfold code_unit in Hc. lia.
Qed.

(** *** Hexadecimal *)

Lemma unhex_hex_digit (n : Z) : 0 <= n < 16 -> unhex (hex_digit n) = Some n.
Proof.
  intros Hn. unfold hex_digit, unhex.
  destruct (Z.ltb_spec n 10).
  - replace (48 <=? 48 + n) with true by (symmetry; apply Z.leb_le; lia).
    replace (48 + n <=? 57) with true by (symmetry; apply Z.leb_le; lia).
    cbn [andb]. f_equal. lia.
  - replace (87 + n <=? 57) with false by (symmetry; apply Z.leb_gt; lia).
    rewrite andb_false_r.
    replace (97 <=? 87 + n) with true by (symmetry; apply Z.leb_le; lia).
    replace (87 + n <=? 102) with true by (symmetry; apply Z.leb_le; lia).
    cbn [andb]. f_equal. lia.
Qed.

Lemma unhex_low_byte_hex_digit (n : Z) :
  0 <= n < 16 -> unhex_low_byte (hex_digit n) = Some n.
Proof.
  intros Hn. unfold unhex_low_byte.
  rewrite Z.mod_small by (unfold hex_digit; destruct (n <? 10); lia).
  apply unhex_hex_digit, Hn.
Qed.

(** Decoding reads back what was encoded and goes on with what follows. *)
Lemma hex_decode_encode_app (bs : list Z) (rest : jsstring) :
  is_buffer bs -> hex_decode (hex_encode bs ++ rest) = bs ++ hex_decode rest.
Proof.
  unfold is_buffer, byte.
  induction 1 as [|b bs Hb _ IH]; [reflexivity|].
  cbn [hex_encode flat_map app hex_decode]. fold (hex_encode bs).
  rewrite !unhex_low_byte_hex_digit
    by (first [ split; [apply Z.div_pos; lia | apply Z.div_lt_upper_bound; lia]
              | apply Z.mod_pos_bound; lia ]).
  rewrite IH. f_equal.
  pose proof (Z.div_mod b 16 ltac:(lia)). lia.
Qed.

Lemma hex_decode_encode (bs : list Z) :
  is_buffer bs -> hex_decode (hex_encode bs) = bs.
Proof.
  intros Hb. rewrite <- (app_nil_r (hex_encode bs)).
  rewrite hex_decode_encode_app by assumption. apply app_nil_r.
Qed.

End CodecFacts.

(** ** Token encryption: the round trip, and what [decrypt] refuses *)

Module EncryptionFacts.
Import JS Encryption CodecFacts.

Lemma unhex_range (c a : Z) : unhex c = Some a -> 0 <= a < 16.
Proof.
  unfold unhex.
  repeat match goal with
         | |- context [if ?b then _ else _] => destruct b eqn:?
         end; intros [= <-];
    repeat match goal with
           | H : (_ && _) = true |- _ => apply andb_true_iff in H as [? ?]
           | H : (_ <=? _) = true |- _ => apply Z.leb_le in H
           end; lia.
Qed.

Lemma hex_decode_octets (s : jsstring) : is_buffer (hex_decode s).
Proof.
  unfold is_buffer, byte.
  remember (length s) as n eqn:Hn. revert s Hn.
  induction n as [n IH] using lt_wf_ind. intros s ->.
  destruct s as [|c1 [|c2 s]]; [constructor..|].
  cbn [hex_decode]. unfold unhex_low_byte.
  destruct (unhex (c1 mod 256)) as [a|] eqn:Ea; [|constructor].
  destruct (unhex (c2 mod 256)) as [b|] eqn:Eb; [|constructor].
  apply unhex_range in Ea, Eb.
  constructor; [lia|].
  apply (IH (length s)); [simpl; lia | reflexivity].
Qed.

Lemma hex_encode_length (bs : list Z) :
  length (hex_encode bs) = (2 * length bs)%nat.
Proof. induction bs as [|b bs IH]; simpl in *; lia. Qed.


(** The bytes handed to the cipher are those after the IV and the tag. *)
Lemma blob_encryptedData_bytes (blob : jsstring) :
  hex_decode (blob_encryptedData blob)
  = subarray_from (hex_decode blob) (IV_LENGTH + AUTH_TAG_LENGTH).
Proof.
  unfold blob_encryptedData, subarray_from. apply hex_decode_encode.
  apply Forall_drop, hex_decode_octets.
Qed.

(** The blob [encrypt] builds is cut by [decrypt] into the parts it was
    made of. *)
Lemma blob_parts (iv tag ct : list Z) :
  length iv = IV_LENGTH -> length tag = AUTH_TAG_LENGTH ->
  is_buffer iv -> is_buffer tag -> is_buffer ct ->
  let blob := hex_encode (iv ++ tag ++ hex_decode (hex_encode ct)) in
  blob_iv blob = iv /\ blob_authTag blob = tag /\
  hex_decode (blob_encryptedData blob) = ct.
Proof.
  intros Hiv Htag Biv Btag Bct blob.
  assert (Hbytes : hex_decode blob = iv ++ tag ++ ct).
  { unfold blob. rewrite (hex_decode_encode ct) by assumption.
    apply hex_decode_encode. repeat (apply Forall_app; split); assumption. }
  rewrite blob_encryptedData_bytes.
  unfold blob_iv, blob_authTag, subarray, subarray_from. rewrite Hbytes.
  unfold IV_LENGTH, AUTH_TAG_LENGTH in *.
  repeat split.
  - rewrite drop_0. apply take_app_length'. cbn. lia.
  - rewrite drop_app_length' by lia. apply take_app_length'. cbn. lia.
  - rewrite app_assoc. apply drop_app_length'. rewrite length_app. lia.
Qed.

(** What [decrypt] makes of an encrypted text: the text as UTF-8 reads it
    back. *)
Lemma decrypt_encrypt_utf8 (A : AEAD) (key iv : list Z) (enforce : bool)
    (text : jsstring) :
  AEAD_correct A ->
  length key = KEY_LENGTH -> length iv = IV_LENGTH -> is_buffer iv ->
  is_string text ->
  let te := {| encryptionKey := Some key; enforceEncryption := enforce |} in
  exists blob,
    encrypt te iv text = Normal blob /\
    decrypt te blob = Normal (utf8_decode (utf8_encode text)).
Proof.
  intros Hc Hkey Hiv Biv Htext te.
  pose proof (utf8_encode_octets text Htext) as Bpt.
  pose proof (open_seal A Hc key iv (utf8_encode text) Hkey Hiv Bpt) as Hopen.
  pose proof (seal_tag_length A Hc key iv (utf8_encode text)) as Htag.
  destruct (seal_octets A Hc key iv (utf8_encode text) Bpt) as [Bct Btag].
  unfold encrypt, decrypt. cbn [encryptionKey te].
  destruct (gcm_seal key iv (utf8_encode text)) as [ct tag] eqn:Eseal.
  cbn [fst snd] in *.
  eexists. split; [reflexivity|].
  destruct (blob_parts iv tag ct Hiv Htag Biv Btag Bct) as (-> & -> & ->).
  rewrite Hopen. reflexivity.
Qed.

(** C4, as the code has it: with a 32-byte key, a text without unpaired
    surrogates (a well-formed string, empty or not, ASCII or not) is
    returned by [decrypt] from what [encrypt] made of it, whatever the IV
    drawn. *)
Theorem decrypt_encrypt_round_trip :
  forall (A : AEAD) (key iv : list Z) (enforce : bool) (text : jsstring),
    AEAD_correct A ->
    length key = KEY_LENGTH ->
    length iv = IV_LENGTH ->
    is_buffer iv ->
    is_string text ->
    isWellFormed text = true ->
    let te := {| encryptionKey := Some key; enforceEncryption := enforce |} in
    exists blob, encrypt te iv text = Normal blob /\ decrypt te blob = Normal text.
Proof.
  intros A key iv enforce text Hc Hkey Hiv Biv Htext Hwf te.
  destruct (decrypt_encrypt_utf8 A key iv enforce text Hc Hkey Hiv Biv Htext)
    as (blob & Henc & Hdec).
  exists blob. split; [exact Henc|].
  fold te in Hdec. rewrite Hdec, utf8_decode_encode by assumption. reflexivity.
Qed.




(** *** The stream cipher is a cipher in the sense of [AEAD_correct] *)

Lemma add_pad_inverse (key iv pt : list Z) (i : nat) :
  is_buffer pt ->
  Stream.add_pad key iv i (-1) (Stream.add_pad key iv i 1 pt) = pt.
Proof.
  unfold is_buffer, byte. intros Hpt. revert i.
  induction Hpt as [|b pt Hb _ IH]; intros i; [reflexivity|].
  cbn [Stream.add_pad]. rewrite IH. f_equal.
  rewrite Zplus_mod_idemp_l.
  replace (b + 1 * Stream.pad_byte key iv i + -1 * Stream.pad_byte key iv i)
    with b by lia.
  apply Z.mod_small. lia.
Qed.

Lemma add_pad_octets (key iv bs : list Z) (i : nat) (sign : Z) :
  is_buffer (Stream.add_pad key iv i sign bs).
Proof.
  unfold is_buffer, byte. revert i.
  induction bs as [|b bs IH]; intros i; cbn [Stream.add_pad]; constructor.
  - apply Z.mod_pos_bound. lia.
  - apply IH.
Qed.

Lemma stream_correct : AEAD_correct Stream.aead.
Proof.
  split.
  - intros key iv pt Hkey Hiv Hpt. cbn [gcm_open gcm_seal Stream.aead fst snd Stream.seal].
    unfold Stream.open, IV_LENGTH in *.
    rewrite (bool_decide_eq_true_2 _ Hiv). cbn [negb].
    assert (Htag : length (Stream.tag_of key iv pt) = 16%nat) by reflexivity.
    rewrite Htag. cbn [valid_tag_length Nat.eqb Nat.leb orb andb negb].
    rewrite add_pad_inverse by assumption.
    rewrite (take_ge (Stream.tag_of key iv pt)) by (rewrite Htag; lia).
    rewrite bool_decide_eq_true_2 by reflexivity. reflexivity.
  - intros key iv pt. reflexivity.
  - intros key iv pt _. cbn [gcm_seal Stream.aead fst snd Stream.seal]. split.
    + apply add_pad_octets.
    + unfold Stream.tag_of, is_buffer, byte. apply Forall_map, Forall_forall.
      intros j _. apply Z.mod_pos_bound. lia.
Qed.



Lemma key_iv_sizes :
  length Scenario.key = KEY_LENGTH /\ length Scenario.iv = IV_LENGTH /\
  is_buffer Scenario.iv.
Proof.
  split; [reflexivity|]. split; [reflexivity|].
  unfold is_buffer, byte. repeat constructor; lia.
Qed.

(** The empty string, and a text outside ASCII, through the stream
    cipher. *)
Lemma decrypt_encrypt_round_trip_witness :
  AEAD_correct Stream.aead /\
  length Scenario.key = KEY_LENGTH /\ length Scenario.iv = IV_LENGTH /\
  is_buffer Scenario.iv /\
  (is_string [] /\ isWellFormed [] = true /\
   exists blob,
     encrypt (A := Stream.aead) Scenario.codec Scenario.iv [] = Normal blob /\
     decrypt (A := Stream.aead) Scenario.codec blob = Normal []) /\
  (is_string Scenario.text /\ isWellFormed Scenario.text = true /\
   exists blob,
     encrypt (A := Stream.aead) Scenario.codec Scenario.iv Scenario.text = Normal blob /\
     decrypt (A := Stream.aead) Scenario.codec blob = Normal Scenario.text).
Proof.
  destruct key_iv_sizes as (Hkey & Hiv & Biv).
  assert (Hs0 : is_string []) by constructor.
  assert (Hs1 : is_string Scenario.text)
    by (unfold is_string, code_unit; repeat constructor; lia).
  assert (Hw0 : isWellFormed [] = true) by reflexivity.
  assert (Hw1 : isWellFormed Scenario.text = true) by reflexivity.
  split; [exact stream_correct|]. do 3 (split; [assumption|]).
  split; (do 2 (split; [assumption|])).
  - exact (decrypt_encrypt_round_trip Stream.aead Scenario.key Scenario.iv true []
             stream_correct Hkey Hiv Biv Hs0 Hw0).
  - exact (decrypt_encrypt_round_trip Stream.aead Scenario.key Scenario.iv true
             Scenario.text stream_correct Hkey Hiv Biv Hs1 Hw1).
Defined.

(** Whatever the cipher, an unpaired surrogate comes back as U+FFFD. *)
Lemma unpaired_surrogate_any_cipher (A : AEAD) (key iv : list Z) (enforce : bool) :
  AEAD_correct A ->
  length key = KEY_LENGTH -> length iv = IV_LENGTH -> is_buffer iv ->
  let te := {| encryptionKey := Some key; enforceEncryption := enforce |} in
  exists blob,
    encrypt te iv Scenario.unpaired = Normal blob /\
    decrypt te blob = Normal [0xFFFD].
Proof.
  intros Hc Hkey Hiv Biv.
  apply (decrypt_encrypt_utf8 A key iv enforce Scenario.unpaired); try assumption.
  unfold is_string, code_unit. repeat constructor; lia.
Qed.

(** C4 as stated fails: the string made of the one code unit U+D800 is
    encoded as the bytes of U+FFFD, and that is what [decrypt] returns. *)
Lemma unpaired_surrogate_not_restored :
  is_string Scenario.unpaired /\
  utf8_encode Scenario.unpaired = [0xEF; 0xBF; 0xBD] /\
  bind (encrypt (A := Stream.aead) Scenario.codec Scenario.iv Scenario.unpaired)
       (decrypt (A := Stream.aead) Scenario.codec)
  = Normal [0xFFFD].
Proof.
  split; [unfold is_string, code_unit; repeat constructor; lia|].
  split; vm_compute; reflexivity.
Qed.








(** X3: the constructor checks the key at once: it returns a codec only with a
    key of 32 bytes, or with no key when encryption is not enforced; and a
    key written by [keyToString] is read back by the constructor. *)
Theorem new_TokenEncryption_checks_key :
  forall (options : TokenEncryptionOptions),
    match new_TokenEncryption options with
    | Normal te =>
        match encryptionKey te with
        | Some key => length key = KEY_LENGTH
        | None => enforceEncryption te = false
        end
    | Throw e =>
        e = Error "Encryption key must be 32 bytes (256 bits)" \/
        e = Error "Encryption key is required when enforceEncryption is true"
    end /\
    forall key enforce,
      opt_encryptionKey options = Some (KeyString (keyToString key)) ->
      opt_enforceEncryption options = enforce ->
      is_buffer key -> length key = KEY_LENGTH ->
      new_TokenEncryption options
      = Normal {| encryptionKey := Some key;
                  enforceEncryption := default false enforce |}.
Proof.
  intros options. split.
  - unfold new_TokenEncryption.
    destruct (opt_encryptionKey options) as [[b|[|c s]]|].
    + destruct (decide (length b = KEY_LENGTH)); [assumption | left; reflexivity].
    + destruct (default false (opt_enforceEncryption options));
        [right; reflexivity | reflexivity].
    + destruct (decide (length (hex_decode (c :: s)) = KEY_LENGTH));
        [assumption | left; reflexivity].
    + destruct (default false (opt_enforceEncryption options));
        [right; reflexivity | reflexivity].
  - intros key enforce Hk He Bkey Hlen. unfold new_TokenEncryption.
    rewrite Hk, He. unfold keyToString.
    destruct (hex_encode key) as [|c s] eqn:E.
    + apply (f_equal (@length Z)) in E. rewrite hex_encode_length, Hlen in E.
      discriminate E.
    + rewrite <- E, hex_decode_encode by assumption.
      destruct (decide (length key = KEY_LENGTH)); [reflexivity | contradiction].
Qed.

End EncryptionFacts.

(** ** [JSON.parse] reads back what [JSON.stringify] wrote *)

Module StringifyFacts.
Import JS Json CodecFacts.

Lemma hex4_digits (c : Z) :
  code_unit c ->
  exists a b d e,
    hex4 c = [hex_digit a; hex_digit b; hex_digit d; hex_digit e] /\
    0 <= a < 16 /\ 0 <= b < 16 /\ 0 <= d < 16 /\ 0 <= e < 16 /\
    ((a * 16 + b) * 16 + d) * 16 + e = c.
Proof.
  unfold code_unit. intros Hc.
  exists (c / 4096), ((c / 256) mod 16), ((c / 16) mod 16), (c mod 16).
  split; [reflexivity|].
  assert (E1 : c / 256 = c / 16 / 16) by (rewrite Z.div_div by lia; reflexivity).
  assert (E2 : c / 4096 = c / 16 / 16 / 16)
    by (rewrite !Z.div_div by lia; reflexivity).
  rewrite E1, E2.
  pose proof (Z.div_mod c 16 ltac:(lia)).
  pose proof (Z.div_mod (c / 16) 16 ltac:(lia)).
  pose proof (Z.div_mod (c / 16 / 16) 16 ltac:(lia)).
  pose proof (Z.mod_pos_bound c 16 ltac:(lia)).
  pose proof (Z.mod_pos_bound (c / 16) 16 ltac:(lia)).
  pose proof (Z.mod_pos_bound (c / 16 / 16) 16 ltac:(lia)).
  lia.
Qed.

Lemma parse_unicode_escape (c : Z) (rest acc : jsstring) :
  code_unit c ->
  parse_chars (unicode_escape c ++ rest) acc = parse_chars rest (c :: acc).
Proof.
  intros Hc.
  destruct (hex4_digits c Hc) as (a & b & d & e & E & Ha & Hb & Hd & He & Ecode).
  unfold unicode_escape. rewrite E. cbn [app parse_chars].
  rewrite !unhex_hex_digit by assumption.
  cbn. rewrite Ecode. reflexivity.
Qed.

(** A character [JSON.stringify] writes as it is, is read as it is. *)
Lemma parse_plain (c : Z) (rest acc : jsstring) :
  c <> 34 -> c <> 92 -> ~ (0 <= c < 32) ->
  parse_chars (c :: rest) acc = parse_chars rest (c :: acc).
Proof.
  intros H34 H92 Hctl. cbn [parse_chars].
  replace (c =? 34) with false by (symmetry; apply Z.eqb_neq; lia).
  replace (c =? 92) with false by (symmetry; apply Z.eqb_neq; lia).
  destruct (Z.leb_spec 0 c); destruct (Z.ltb_spec c 32); cbn [andb];
    try reflexivity; lia.
Qed.

Lemma parse_quote_body (s : jsstring) :
  is_string s ->
  forall acc rest,
    parse_chars (quote_body s ++ 34 :: rest) acc = Parsed (rev acc ++ s) rest.
Proof.
  unfold is_string.
  remember (length s) as n eqn:Hn. revert s Hn.
  induction n as [n IH] using lt_wf_ind. intros s -> Hs acc rest.
  destruct s as [|c s]; [cbn; rewrite app_nil_r; reflexivity|].
  inversion Hs as [|? ? Hc Hs']; subst.
  assert (Hnext : forall x,
             parse_chars (quote_body s ++ 34 :: rest) (x :: acc)
             = Parsed (rev acc ++ x :: s) rest).
  { intros x. rewrite (IH (length s) ltac:(simpl; lia) s eq_refl Hs').
    cbn [rev]. rewrite <- app_assoc. reflexivity. }
  cbn [quote_body].
  destruct (Z.eqb_spec c 8) as [->|N8]; [cbn; apply Hnext|].
  destruct (Z.eqb_spec c 9) as [->|N9]; [cbn; apply Hnext|].
  destruct (Z.eqb_spec c 10) as [->|N10]; [cbn; apply Hnext|].
  destruct (Z.eqb_spec c 12) as [->|N12]; [cbn; apply Hnext|].
  destruct (Z.eqb_spec c 13) as [->|N13]; [cbn; apply Hnext|].
  destruct (Z.eqb_spec c 34) as [->|N34]; [cbn; apply Hnext|].
  destruct (Z.eqb_spec c 92) as [->|N92]; [cbn; apply Hnext|].
  destruct ((0 <=? c) && (c <? 32)) eqn:Hctl.
  { rewrite <- app_assoc, parse_unicode_escape by assumption. apply Hnext. }
  assert (Hplain : ~ (0 <= c < 32)).
  { intros [H0 H1]. apply Z.leb_le in H0. apply Z.ltb_lt in H1.
    rewrite H0, H1 in Hctl. discriminate. }
  destruct (is_high c) eqn:Hh.
  - destruct s as [|d s].
    + rewrite parse_unicode_escape by assumption. cbn. reflexivity.
    + destruct (is_low d) eqn:Hl.
      * inversion Hs' as [|? ? Hd Hs'']; subst.
        apply is_low_spec in Hl.
        cbn [app]. rewrite parse_plain by assumption.
        rewrite parse_plain by lia.
        rewrite (IH (length s) ltac:(simpl; lia) s eq_refl Hs'').
        cbn [rev]. rewrite <- !app_assoc. reflexivity.
      * rewrite <- app_assoc, parse_unicode_escape by assumption. apply Hnext.
  - destruct (is_low c).
    + rewrite <- app_assoc, parse_unicode_escape by assumption. apply Hnext.
    + cbn [app]. rewrite parse_plain by assumption. apply Hnext.
Qed.

(** A stringified string, read as a value. *)
Lemma parse_value_string (s rest : jsstring) (fuel : nat) :
  is_string s ->
  parse_value (S fuel) (stringify_string s ++ rest) = Parsed (JString s) rest.
Proof.
  intros Hs. unfold stringify_string. cbn [app parse_value skip_ws is_ws].
  cbn. rewrite <- app_assoc. cbn [app].
  rewrite parse_quote_body by assumption. reflexivity.
Qed.

(** A member [key:value] of two stringified strings, followed by a comma
    or by the closing brace. *)
Lemma parse_member (key v more : jsstring) (c : Z) (fuel : nat)
    (acc : list (jsstring * value)) :
  is_string key -> is_string v -> is_ws c = false ->
  parse_members (S (S fuel))
    (stringify_string key ++ 58 :: stringify_string v ++ c :: more) acc
  = if c =? 44 then parse_members (S fuel) more ((key, JString v) :: acc)
    else if c =? 125 then Parsed (JObject (rev ((key, JString v) :: acc))) more
    else Malformed.
Proof.
  intros Hkey Hv Hc.
  cbn [parse_members]. unfold stringify_string at 1.
  cbn [app skip_ws is_ws]. cbn -[parse_value parse_members quote_body app].
  rewrite <- app_assoc. cbn [app].
  rewrite parse_quote_body by assumption. cbn [rev app skip_ws].
  cbn -[parse_value parse_members quote_body app stringify_string].
  rewrite parse_value_string by assumption.
  cbn [skip_ws]. rewrite Hc. reflexivity.
Qed.

(** The payload [generateAuthUrl] stores is read back member by member. *)
Lemma parse_state_data (userId codeVerifier : jsstring) :
  is_string userId -> is_string codeVerifier ->
  parse (Auth.stringify_state_data userId codeVerifier)
  = Normal (JObject [(js "userId", JString userId);
                     (js "codeVerifier", JString codeVerifier)]).
Proof.
  intros Hu Hv. unfold parse.
  assert (Hfuel : exists k,
             (length (Auth.stringify_state_data userId codeVerifier)
              + length (Auth.stringify_state_data userId codeVerifier))%nat
             = S (S (S k))).
  { assert (Hlen : (2 <= length (Auth.stringify_state_data userId codeVerifier))%nat).
    { unfold Auth.stringify_state_data. rewrite length_app.
      change (length (js "{")) with 1%nat. rewrite length_app.
      unfold stringify_string at 1. cbn [length]. lia. }
    exists (length (Auth.stringify_state_data userId codeVerifier)
            + length (Auth.stringify_state_data userId codeVerifier) - 3)%nat.
    lia. }
  destruct Hfuel as [k ->].
  assert (Hkey1 : is_string (js "userId"))
    by (unfold is_string, code_unit; repeat constructor; cbn; lia).
  assert (Hkey2 : is_string (js "codeVerifier"))
    by (unfold is_string, code_unit; repeat constructor; cbn; lia).
  unfold Auth.stringify_state_data.
  change (js "{") with [123]. change (js ":") with [58].
  change (js ",") with [44]. change (js "}") with [125].
  cbn [app parse_value skip_ws].
  cbn -[parse_members stringify_string app js].
  rewrite (parse_member (js "userId") userId _ 44 (S k) []) by (assumption || reflexivity).
  cbn [Z.eqb Pos.eqb].
  rewrite (parse_member (js "codeVerifier") codeVerifier [] 125 k _)
    by (assumption || reflexivity).
  reflexivity.
Qed.

End StringifyFacts.

(** ** From [generateAuthUrl] to [validateState] *)

Module FlowFacts.
Import JS StateStorage Auth.

Lemma lookup_state_data (userId codeVerifier : jsstring) :
  Json.lookup_member (js "userId")
    [(js "userId", Json.JString userId);
     (js "codeVerifier", Json.JString codeVerifier)]
  = Some (Json.JString userId) /\
  Json.lookup_member (js "codeVerifier")
    [(js "userId", Json.JString userId);
     (js "codeVerifier", Json.JString codeVerifier)]
  = Some (Json.JString codeVerifier).
Proof.
  cbn [Json.lookup_member]. split.
  - destruct (decide (js "codeVerifier" = js "userId")) as [E|_];
      [vm_compute in E; discriminate E|].
    destruct (decide (js "userId" = js "userId")); [reflexivity | contradiction].
  - destruct (decide (js "codeVerifier" = js "codeVerifier"));
      [reflexivity | contradiction].
Qed.

(** What [generateAuthUrl] returns and stores, when it returns. *)
Lemma generateAuthUrl_stores
    (qs_stringify : list (jsstring * jsstring) -> jsstring)
    (randomBytes : nat -> Z -> list Z) (service : AuthorizationService)
    (now : Z) (userId : jsstring) (options : FortnoxAuthOptions)
    (storage storage' : gmap jsstring StateEntry) (payload : FortnoxAuthPayload) :
  generateAuthUrl qs_stringify randomBytes service now userId options storage
  = (Normal payload, storage') ->
  storage'
  = saveState now (state payload)
      (stringify_state_data userId (payload_codeVerifier payload))
      DEFAULT_EXPIRY_MS storage.
Proof.
  unfold generateAuthUrl.
  destruct (bind _ _) as [[[st cv] cc]|e]; [|discriminate].
  intros [= <- <-]. reflexivity.
Qed.

(** X4, the scenario of the specification: the state that [generateAuthUrl]
    returned resolves, within the ten minutes, to the user and the verifier
    it was generated for, and resolves to nothing the second time. *)
Theorem generateAuthUrl_then_validateState :
  forall (qs_stringify : list (jsstring * jsstring) -> jsstring)
         (randomBytes : nat -> Z -> list Z) (service : AuthorizationService)
         (now now' now'' : Z) (userId : jsstring) (options : FortnoxAuthOptions)
         (storage storage' : gmap jsstring StateEntry)
         (payload : FortnoxAuthPayload),
    generateAuthUrl qs_stringify randomBytes service now userId options storage
    = (Normal payload, storage') ->
    is_string userId ->
    is_string (payload_codeVerifier payload) ->
    now' <= now + DEFAULT_EXPIRY_MS ->
    fst (validateState now' (state payload) storage')
    = Normal (Some {| userId := Some (Json.JString userId);
                      codeVerifier :=
                        Some (Json.JString (payload_codeVerifier payload)) |}) /\
    fst (validateState now'' (state payload)
           (snd (validateState now' (state payload) storage')))
    = Normal None.
Proof.
  intros qs_stringify randomBytes service now now' now'' userId options
         storage storage' payload Hgen Hu Hv Hnow.
  apply generateAuthUrl_stores in Hgen. subst storage'.
  split.
  - rewrite AuthFacts.validateState_result.
    rewrite (StateStorageFacts.validateAndRemoveState_live now' (state payload)
               {| data := stringify_state_data userId (payload_codeVerifier payload);
                  expires := now + DEFAULT_EXPIRY_MS |})
      by (apply lookup_insert_eq || exact Hnow).
    cbn [data].
    rewrite (StringifyFacts.parse_state_data userId (payload_codeVerifier payload))
      by assumption.
    destruct (lookup_state_data userId (payload_codeVerifier payload)) as [-> ->].
    unfold stringify_state_data. change (js "{") with [123]. reflexivity.
  - rewrite AuthFacts.validateState_result, AuthFacts.validateState_storage.
    rewrite StateStorageFacts.validateAndRemoveState_absent
      by apply lookup_delete_eq.
    reflexivity.
Qed.

(** The test of the specification: user-1, a given state, the verifier of
    the RFC; resolved after one minute, and once more. *)
Lemma generateAuthUrl_then_validateState_witness :
  let begun :=
    generateAuthUrl Scenario.no_query Scenario.randomBytes Scenario.service 0
      (js "user-1") Scenario.test_options ∅ in
  let payload :=
    {| authUrl := js "https://apps.fortnox.se/oauth-v1/auth?";
       state := js "state-1";
       payload_codeVerifier := Scenario.rfc_verifier |} in
  begun = (Normal payload, snd begun) /\
  is_string (js "user-1") /\ is_string Scenario.rfc_verifier /\
  60000 <= 0 + DEFAULT_EXPIRY_MS /\
  fst (validateState 60000 (js "state-1") (snd begun))
  = Normal (Some {| userId := Some (Json.JString (js "user-1"));
                    codeVerifier := Some (Json.JString Scenario.rfc_verifier) |}) /\
  fst (validateState 60001 (js "state-1")
         (snd (validateState 60000 (js "state-1") (snd begun))))
  = Normal None.
Proof.
  intros begun payload.
  assert (Hgen : begun = (Normal payload, snd begun)) by (vm_compute; reflexivity).
  assert (Hu : is_string (js "user-1"))
    by (unfold is_string, code_unit; repeat constructor; cbn; lia).
  assert (Hv : is_string Scenario.rfc_verifier)
    by (unfold is_string, code_unit; repeat constructor; cbn; lia).
  assert (Hnow : 60000 <= 0 + DEFAULT_EXPIRY_MS) by (unfold DEFAULT_EXPIRY_MS; lia).
  do 4 (split; [assumption|]).
  exact (generateAuthUrl_then_validateState Scenario.no_query Scenario.randomBytes
           Scenario.service 0 60000 60001 (js "user-1") Scenario.test_options ∅
           (snd begun) payload Hgen Hu Hv Hnow).
Defined.

End FlowFacts.

(** ** The token manager: what follows a refresh *)

Module ManagerFacts.
Import JS Stores Tokens Time TokensFacts.

Section Calls.
Context {Store : Type} `{TokenStore Store}.

Lemma settle_last (v : promise) (store : Store) (q : gmap jsstring (list nat))
    (ps : list promise) (mt : list task) (nw : list (nat * jsstring * jsstring))
    (ex : nat) (now : Z) :
  settle (length ps) v (State store q (ps ++ [Pending]) mt nw ex now)
  = State store q (ps ++ [v]) mt nw ex now.
Proof.
  rewrite settle_State, list_lookup_middle by reflexivity.
  rewrite insert_app_r_alt, Nat.sub_diag by lia. reflexivity.
Qed.

(** A call on a credential that is not expired, from a loop at rest. *)
Lemma call_returns (w : world) (u : jsstring) (t : FortnoxTokens) (store : Store)
    (ps : list promise) (ex : nat) (now : Z) (extra : nat) :
  getTokens u store = Some t ->
  isTokenExpired now t DEFAULT_BUFFER_MS = false ->
  run (1 + extra) w (getValidTokens u (State store ∅ ps [] [] ex now))
  = State store ∅ (ps ++ [Fulfilled t]) [] [] ex now.
Proof.
  intros Hget Hexp.
  unfold getValidTokens, push_microtask, set_promises. fields.
  rewrite Hget, (run_add 1). simpl. unfold step. fields.
  unfold run_task. fields. rewrite Hexp, settle_last.
  apply run_idle. reflexivity.
Qed.

(** A call on an expired credential, from a loop at rest, up to the
    request on the wire. *)
Lemma call_to_exchange (w : world) (u : jsstring) (t : FortnoxTokens) (store : Store)
    (q : gmap jsstring (list nat)) (ps : list promise)
    (nw : list (nat * jsstring * jsstring)) (ex : nat) (now : Z) :
  getTokens u store = Some t ->
  isTokenExpired now t DEFAULT_BUFFER_MS = true ->
  q !! u = None ->
  run 2 w (getValidTokens u (State store q ps [] nw ex now))
  = State store (<[u := []]> q) (ps ++ [Pending]) []
          (nw ++ [(length ps, u, refresh_token t)]) (Datatypes.S ex) now.
Proof.
  intros Hget Hexp Hq.
  unfold getValidTokens, push_microtask, set_promises. fields.
  rewrite Hget. simpl. unfold step. fields.
  unfold run_task. fields. rewrite Hexp.
  unfold refreshTokens_enter, isRefreshing. fields.
  rewrite Hq, bool_decide_eq_false_2 by (intros [x Hx]; discriminate).
  unfold setRefreshing, set_refreshQueue, push_microtask. fields.
  rewrite Hget. reflexivity.
Qed.

(** The answer to the one request on the wire, granted. *)
Lemma exchange_granted (w : world) (u rt : jsstring) (d : TokenResponse)
    (store : Store) (q : gmap jsstring (list nat)) (ps : list promise)
    (ex : nat) (now : Z) :
  server w rt = Ok d ->
  q !! u = None ->
  run 3 w (State store (<[u := []]> q) (ps ++ [Pending]) []
                 [(length ps, u, rt)] ex now)
  = State (updateTokens u (tokens_of_response (now + latency w) d) store) q
          (ps ++ [Fulfilled (tokens_of_response (now + latency w) d)])
          [] [] ex (now + latency w).
Proof.
  intros Hok Hq. simpl. unfold step. fields. rewrite Hok.
  unfold run_task, push_microtask. fields. simpl app.
  unfold processRefreshQueue. fields. rewrite lookup_insert_eq. simpl.
  unfold set_refreshQueue. fields. rewrite settle_last.
  unfold setRefreshing, set_refreshQueue. fields.
  rewrite insert_insert_eq, delete_insert_eq, delete_id by exact Hq. reflexivity.
Qed.

(** The answer to the one request on the wire, refused. *)
Lemma exchange_refused (w : world) (u rt : jsstring) (f : failure)
    (store : Store) (q : gmap jsstring (list nat)) (ps : list promise)
    (ex : nat) (now : Z) :
  server w rt = Failed f ->
  q !! u = None ->
  run 2 w (State store (<[u := []]> q) (ps ++ [Pending]) []
                 [(length ps, u, rt)] ex now)
  = State store q (ps ++ [Rejected (rethrown f)]) [] [] ex (now + latency w).
Proof.
  intros Hf Hq. simpl. unfold step. fields. rewrite Hf.
  unfold run_task, refreshTokens_catch, processRefreshQueue, set_refreshQueue. fields.
  rewrite settle_last.
  unfold setRefreshing, set_refreshQueue. fields.
  rewrite insert_insert_eq, delete_insert_eq, delete_id by exact Hq. reflexivity.
Qed.

Lemma call_refreshes (w : world) (u : jsstring) (t : FortnoxTokens) (d : TokenResponse)
    (store : Store) (ps : list promise) (ex : nat) (now : Z) (extra : nat) :
  getTokens u store = Some t ->
  isTokenExpired now t DEFAULT_BUFFER_MS = true ->
  server w (refresh_token t) = Ok d ->
  run (5 + extra) w (getValidTokens u (State store ∅ ps [] [] ex now))
  = State (updateTokens u (tokens_of_response (now + latency w) d) store) ∅
          (ps ++ [Fulfilled (tokens_of_response (now + latency w) d)])
          [] [] (Datatypes.S ex) (now + latency w).
Proof.
  intros Hget Hexp Hok.
  replace (5 + extra)%nat with (2 + (3 + extra))%nat by lia.
  rewrite run_add, (call_to_exchange w u t) by (assumption || apply lookup_empty).
  rewrite run_add. simpl app.
  rewrite (exchange_granted w u _ d) by (assumption || apply lookup_empty).
  apply run_idle. reflexivity.
Qed.

Lemma call_fails (w : world) (u : jsstring) (t : FortnoxTokens) (f : failure)
    (store : Store) (ps : list promise) (ex : nat) (now : Z) (extra : nat) :
  getTokens u store = Some t ->
  isTokenExpired now t DEFAULT_BUFFER_MS = true ->
  server w (refresh_token t) = Failed f ->
  run (4 + extra) w (getValidTokens u (State store ∅ ps [] [] ex now))
  = State store ∅ (ps ++ [Rejected (rethrown f)]) [] [] (Datatypes.S ex)
          (now + latency w).
Proof.
  intros Hget Hexp Hf.
  replace (4 + extra)%nat with (2 + (2 + extra))%nat by lia.
  rewrite run_add, (call_to_exchange w u t) by (assumption || apply lookup_empty).
  rewrite run_add. simpl app.
  rewrite (exchange_refused w u _ f) by (assumption || apply lookup_empty).
  apply run_idle. reflexivity.
Qed.


(** X5: a failed refresh leaves nothing behind in the manager.  After
    [n + 1] simultaneous calls whose exchange the endpoint refused, the
    user is no longer marked as refreshing and the store is as it was; a
    call of [getValidTokens] made [dt] milliseconds later, the endpoint
    now granting, starts a second exchange, is fulfilled with its
    credential, and that credential is stored.  The [n] callers that were
    queued behind the failed refresh remain pending. *)
Theorem refresh_failure_is_not_sticky :
  forall (w1 w2 : world) (store : Store) (now dt : Z) (u : jsstring)
         (tokens : FortnoxTokens) (e : Z) (f : failure) (d : TokenResponse)
         (n extra extra' : nat),
    getTokens u store = Some tokens ->
    expiry_date tokens = Some e ->
    e < now -> 0 <= latency w1 -> 0 <= dt ->
    server w1 (refresh_token tokens) = Failed f ->
    server w2 (refresh_token tokens) = Ok d ->
    let failed :=
      run (n + 4 + extra) w1
          (simultaneously (Datatypes.S n) (getValidTokens u) (init store now)) in
    let retried := run (5 + extra') w2 (getValidTokens u (elapse dt failed)) in
    let renewed := tokens_of_response (now + latency w1 + dt + latency w2) d in
    isRefreshing u failed = false /\
    tokenStore failed = store /\
    idle retried /\
    exchanges retried = 2%nat /\
    promises retried
    = Rejected (rethrown f) :: repeat Pending n ++ [Fulfilled renewed] /\
    tokenStore retried = updateTokens u renewed store.
Proof.
  intros w1 w2 store now dt u tokens e f d n extra extra'
         Hget He Hpast Hlat Hdt Hf Hok failed retried renewed.
  assert (Hfailed : failed
                    = State store ∅ (Rejected (rethrown f) :: repeat Pending n) [] [] 1
                            (now + latency w1)).
  { apply (failed_refresh_leaves_waiters_pending w1 store now u tokens f);
      [assumption | | assumption].
    apply (past_expiry_isTokenExpired now e); assumption. }
  assert (Hretried : retried
                     = State (updateTokens u renewed store) ∅
                         ((Rejected (rethrown f) :: repeat Pending n)
                            ++ [Fulfilled renewed]) [] [] 2
                         (now + latency w1 + dt + latency w2)).
  { unfold retried. rewrite Hfailed. unfold elapse. fields.
    apply (call_refreshes w2 u tokens d); [assumption | | assumption].
    apply (past_expiry_isTokenExpired _ e); [assumption | lia]. }
  rewrite Hretried, Hfailed.
  split; [reflexivity|]. split; [reflexivity|]. split; [split; reflexivity|].
  split; [reflexivity|]. split; reflexivity.
Qed.

(** X6: a credential obtained by a refresh is dated from the arrival of
    the response.  The response carries an integer [expires_in] that is not
    negative, and the clock, the delays and the date of expiry are within
    [MAX_SAFE_INTEGER], so that the code's arithmetic on doubles is exact.
    Over a store that returns what [updateTokens] wrote, a call made [dt]
    milliseconds after the refresh is served from the store, without
    another exchange, as long as [expires_in * 1000 - dt] is at least the
    five-minute buffer; once it is less, the call starts another exchange
    (a credential with [expires_in] under 300 seconds is refreshed again on
    every call). *)
Theorem refreshed_credential_is_served_until_the_buffer :
  forall (w : world) (store : Store) (now dt : Z) (u : jsstring)
         (tokens : FortnoxTokens) (d : TokenResponse) (extra extra' : nat),
    getTokens u store = Some tokens ->
    isTokenExpired now tokens DEFAULT_BUFFER_MS = true ->
    server w (refresh_token tokens) = Ok d ->
    let renewed := tokens_of_response (now + latency w) d in
    getTokens u (updateTokens u renewed store) = Some renewed ->
    0 <= now -> 0 <= latency w -> 0 <= dt -> 0 <= data_expires_in d ->
    now + latency w + data_expires_in d * 1000 <= MAX_SAFE_INTEGER ->
    now + latency w + dt <= MAX_SAFE_INTEGER ->
    now + latency w + data_expires_in d * 1000 <> 0 ->
    let refreshed := run (5 + extra) w (getValidTokens u (init store now)) in
    let later := run (5 + extra') w (getValidTokens u (elapse dt refreshed)) in
    (300000 <= data_expires_in d * 1000 - dt ->
     later = State (updateTokens u renewed store) ∅
                   [Fulfilled renewed; Fulfilled renewed] [] [] 1
                   (now + latency w + dt)) /\
    (data_expires_in d * 1000 - dt < 300000 ->
     idle later /\ exchanges later = 2%nat).
Proof.
  intros w store now dt u tokens d extra extra' Hget Hexp Hok renewed Hlaw
         Hnow Hlat Hdt Hin Hsafe Hsafe' Hne refreshed later.
  assert (Href : refreshed
                 = State (updateTokens u renewed store) ∅ [Fulfilled renewed] [] [] 1
                         (now + latency w))
    by (apply (call_refreshes w u tokens d store [] 0 now extra); assumption).
  unfold later. rewrite Href. unfold elapse. fields. split.
  - intros Hfresh.
    apply (call_returns w u renewed _ [Fulfilled renewed] 1 _ (4 + extra'));
      [exact Hlaw|].
    unfold isTokenExpired, DEFAULT_BUFFER_MS, renewed. cbn [expiry_date tokens_of_response].
    destruct (Z.eqb_spec (now + latency w + data_expires_in d * 1000) 0) as [E|_];
      [contradiction|].
    apply Z.ltb_ge. lia.
  - intros Hstale.
    assert (Hexp' : isTokenExpired (now + latency w + dt) renewed DEFAULT_BUFFER_MS = true).
    { unfold isTokenExpired, DEFAULT_BUFFER_MS, renewed.
      cbn [expiry_date tokens_of_response].
      destruct (_ =? 0); [reflexivity|]. apply Z.ltb_lt. lia. }
    destruct (server w (refresh_token renewed)) as [d'|f'] eqn:Hs.
    + rewrite (call_refreshes w u renewed d') by assumption.
      split; [split; reflexivity | reflexivity].
    + replace (5 + extra')%nat with (4 + Datatypes.S extra')%nat by lia.
      rewrite (call_fails w u renewed f') by assumption.
      split; [split; reflexivity | reflexivity].
Qed.


End Calls.

(** Two callers on the expired credential of the scenario while the
    endpoint refuses; a third, one second later, when it grants. *)
Lemma refresh_failure_is_not_sticky_witness :
  let failed :=
    run (1 + 4 + 0) Scenario.refusing
        (simultaneously 2 (getValidTokens (js "user-1")) (init Scenario.store 4000000)) in
  let retried :=
    run (5 + 0) Scenario.granting (getValidTokens (js "user-1") (elapse 1000 failed)) in
  getTokens (js "user-1") Scenario.store = Some Scenario.issued /\
  3600000 < 4000000 /\
  isRefreshing (js "user-1") failed = false /\
  idle retried /\
  exchanges retried = 2%nat /\
  promises retried
  = [Rejected (Error "Failed to refresh token: invalid_grant"); Pending;
     Fulfilled (tokens_of_response 4001240 Scenario.refreshed)].
Proof.
  intros failed retried.
  assert (Hget : getTokens (js "user-1") Scenario.store = Some Scenario.issued)
    by reflexivity.
  assert (Hpast : 3600000 < 4000000) by lia.
  assert (Hlat : 0 <= latency Scenario.refusing) by (simpl; lia).
  assert (Hdt : 0 <= 1000) by lia.
  destruct (refresh_failure_is_not_sticky Scenario.refusing Scenario.granting
              Scenario.store 4000000 1000 (js "user-1") Scenario.issued 3600000
              (AxiosResponseError (Some "invalid_grant"%string)
                 "Request failed with status code 400")
              Scenario.refreshed 1 0 0 Hget eq_refl Hpast Hlat Hdt eq_refl eq_refl)
    as (Hfree & _ & Hidle & Hex & Hps & _).
  split; [exact Hget|]. split; [exact Hpast|]. split; [exact Hfree|].
  split; [exact Hidle|]. split; [exact Hex | exact Hps].
Defined.

(** The credential of the scenario refreshed at [T + 4000 s]; asked for
    again one minute later, and 3400 seconds later. *)
Lemma refreshed_credential_is_served_until_the_buffer_witness :
  let refreshed :=
    run (5 + 0) Scenario.granting
        (getValidTokens (js "user-1") (init Scenario.store 4000000)) in
  let renewed := tokens_of_response 4000120 Scenario.refreshed in
  getTokens (js "user-1") Scenario.store = Some Scenario.issued /\
  isTokenExpired 4000000 Scenario.issued DEFAULT_BUFFER_MS = true /\
  run (5 + 0) Scenario.granting
      (getValidTokens (js "user-1") (elapse 60000 refreshed))
  = State (updateTokens (js "user-1") renewed Scenario.store) ∅
          [Fulfilled renewed; Fulfilled renewed] [] [] 1 4060120 /\
  exchanges (run (5 + 0) Scenario.granting
               (getValidTokens (js "user-1") (elapse 3400000 refreshed))) = 2%nat.
Proof.
  intros refreshed renewed.
  assert (Hget : getTokens (js "user-1") Scenario.store = Some Scenario.issued)
    by reflexivity.
  assert (Hexp : isTokenExpired 4000000 Scenario.issued DEFAULT_BUFFER_MS = true)
    by reflexivity.
  assert (Hlaw : getTokens (js "user-1")
                   (updateTokens (js "user-1")
                      (tokens_of_response (4000000 + latency Scenario.granting)
                         Scenario.refreshed) Scenario.store)
                 = Some (tokens_of_response (4000000 + latency Scenario.granting)
                           Scenario.refreshed))
    by apply lookup_insert_eq.
  assert (Hne : 4000000 + latency Scenario.granting
                + data_expires_in Scenario.refreshed * 1000 <> 0)
    by (simpl; lia).
  assert (Hnow : 0 <= 4000000) by lia.
  assert (Hlat : 0 <= latency Scenario.granting) by (simpl; lia).
  assert (Hin : 0 <= data_expires_in Scenario.refreshed) by (simpl; lia).
  assert (Hsafe : 4000000 + latency Scenario.granting
                  + data_expires_in Scenario.refreshed * 1000 <= MAX_SAFE_INTEGER)
    by (unfold MAX_SAFE_INTEGER; simpl; lia).
  split; [exact Hget|]. split; [exact Hexp|]. split.
  - assert (Hdt : 0 <= 60000) by lia.
    assert (Hsafe' : 4000000 + latency Scenario.granting + 60000 <= MAX_SAFE_INTEGER)
      by (unfold MAX_SAFE_INTEGER; simpl; lia).
    apply (refreshed_credential_is_served_until_the_buffer Scenario.granting
             Scenario.store 4000000 60000 (js "user-1") Scenario.issued
             Scenario.refreshed 0 0 Hget Hexp eq_refl Hlaw Hnow Hlat Hdt Hin Hsafe
             Hsafe' Hne).
    simpl. lia.
  - assert (Hdt : 0 <= 3400000) by lia.
    assert (Hsafe' : 4000000 + latency Scenario.granting + 3400000 <= MAX_SAFE_INTEGER)
      by (unfold MAX_SAFE_INTEGER; simpl; lia).
    apply (refreshed_credential_is_served_until_the_buffer Scenario.granting
             Scenario.store 4000000 3400000 (js "user-1") Scenario.issued
             Scenario.refreshed 0 0 Hget Hexp eq_refl Hlaw Hnow Hlat Hdt Hin Hsafe
             Hsafe' Hne).
    simpl. lia.
Defined.

End ManagerFacts.

(** ** Verifiers, states and the authorization URL *)

Module VerifierFacts.
Import JS PKCE Alphabet PKCEFacts.

Lemma b64url_char_unreserved (n : Z) : 0 <= n < 64 -> unreserved (b64url_char n).
Proof.
  intros Hn. unfold unreserved, b64url_char.
  repeat match goal with
         | |- context [?a <? ?b] => destruct (Z.ltb_spec a b)
         | |- context [?a =? ?b] => destruct (Z.eqb_spec a b)
         end; lia.
Qed.

Lemma base64url_unreserved (bs : list Z) :
  is_buffer bs -> Forall unreserved (base64url bs).
Proof.
  unfold is_buffer.
  induction bs as [|a|a b|a b c l IH] using list_ind3; intros Hb; simpl.
  - constructor.
  - inversion Hb as [|? ? Ha _]; subst.
    destruct (sextets a a a Ha Ha Ha) as (? & ? & ? & ? & ? & ?).
    repeat (constructor; [apply b64url_char_unreserved; assumption|]). constructor.
  - inversion Hb as [|? ? Ha Hb']; subst. inversion Hb' as [|? ? Hb0 _]; subst.
    destruct (sextets a b b Ha Hb0 Hb0) as (? & ? & ? & ? & ? & ?).
    repeat (constructor; [apply b64url_char_unreserved; assumption|]). constructor.
  - inversion Hb as [|? ? Ha Hb']; subst. inversion Hb' as [|? ? Hb0 Hb'']; subst.
    inversion Hb'' as [|? ? Hc Hl]; subst.
    destruct (sextets a b c Ha Hb0 Hc) as (? & ? & ? & ? & ? & ?).
    repeat (constructor; [apply b64url_char_unreserved; assumption|]).
    apply IH. assumption.
Qed.

(** The encoding is no shorter than the bytes it encodes. *)
Lemma base64url_length (bs : list Z) : (length bs <= length (base64url bs))%nat.
Proof.
  induction bs as [|a|a b|a b c l IH] using list_ind3; simpl; lia.
Qed.

Lemma unreserved_ascii (c : Z) : unreserved c -> is_ascii c.
Proof. unfold unreserved, is_ascii. lia. Qed.

(** The comparison of [verifyCodeChallenge] for a valid verifier and a
    challenge of 43 bytes. *)
Lemma verifyCodeChallenge_same_length (v c : jsstring) :
  valid_verifier v -> c <> [] -> length (utf8_encode c) = 43%nat ->
  verifyCodeChallenge v c
  = Normal (bool_decide (base64url (Sha256.sha256 (utf8_encode v)) = utf8_encode c)).
Proof.
  intros Hv Hc Hlen. unfold verifyCodeChallenge.
  destruct v as [|v0 v]; [unfold valid_verifier in Hv; simpl in Hv; lia|].
  destruct c as [|c0 c]; [congruence|].
  cbn [falsy orb]. rewrite createCodeChallenge_valid by exact Hv. cbn [bind].
  unfold timingSafeEqual, bytes_eqb.
  rewrite calculated_challenge_bytes, Hlen.
  destruct (decide (43%nat = 43%nat)); [|congruence].
  rewrite utf8_encode_ascii by (apply base64url_ascii, sha256_octets).
  reflexivity.
Qed.

(** X10: for a length between 43 and 128 and a generator that returns as
    many octets as asked for, [createCodeVerifier(length)] returns a string
    of exactly [length] characters of the unreserved set of RFC 7636;
    [createCodeChallenge] accepts it and returns 43 unreserved characters,
    and [verifyCodeChallenge] of the two returns [true]. *)
Theorem createCodeVerifier_conforms :
  forall (randomBytes : Z -> list Z) (len : Z),
    43 <= len <= 128 ->
    is_buffer (randomBytes len) ->
    length (randomBytes len) = Z.to_nat len ->
    exists verifier challenge,
      createCodeVerifier randomBytes len = Normal verifier /\
      Z.of_nat (length verifier) = len /\
      Forall unreserved verifier /\
      createCodeChallenge verifier = Normal challenge /\
      length challenge = 43%nat /\
      Forall unreserved challenge /\
      verifyCodeChallenge verifier challenge = Normal true.
Proof.
  intros randomBytes len Hlen Hbuf Hn.
  set (verifier := take (Z.to_nat len) (base64url (randomBytes len))).
  assert (Hlv : length verifier = Z.to_nat len).
  { unfold verifier. rewrite length_take.
    pose proof (base64url_length (randomBytes len)). lia. }
  assert (Hu : Forall unreserved verifier)
    by (apply Forall_take, base64url_unreserved, Hbuf).
  assert (Hv : valid_verifier verifier) by (unfold valid_verifier; lia).
  set (challenge := base64url (Sha256.sha256 (utf8_encode verifier))).
  assert (Hlc : length challenge = 43%nat)
    by (apply base64url_length_32, sha256_length).
  assert (Huc : Forall unreserved challenge)
    by (apply base64url_unreserved, sha256_octets).
  exists verifier, challenge.
  split.
  { unfold createCodeVerifier.
    destruct (Z.ltb_spec len 43); [lia|].
    destruct (Z.gtb_spec len 128); [lia|]. reflexivity. }
  split; [lia|]. split; [exact Hu|].
  split; [apply createCodeChallenge_valid, Hv|].
  split; [exact Hlc|]. split; [exact Huc|].
  assert (Hac : utf8_encode challenge = challenge)
    by (apply utf8_encode_ascii; eapply Forall_impl; [exact Huc | apply unreserved_ascii]).
  rewrite verifyCodeChallenge_same_length;
    [| exact Hv | intros E; rewrite E in Hlc; discriminate Hlc | rewrite Hac; exact Hlc].
  rewrite Hac. fold challenge. rewrite bool_decide_eq_true_2 by reflexivity.
  reflexivity.
Qed.

(** X11: for a valid verifier and a challenge of 43 ASCII characters,
    [verifyCodeChallenge] never throws: it returns [true] exactly when the
    challenge is the one [createCodeChallenge] computes for the verifier,
    and [false] for every other such challenge. *)
Theorem verifyCodeChallenge_compares :
  forall (codeVerifier codeChallenge : jsstring),
    valid_verifier codeVerifier ->
    length codeChallenge = 43%nat ->
    Forall is_ascii codeChallenge ->
    (verifyCodeChallenge codeVerifier codeChallenge = Normal true <->
     createCodeChallenge codeVerifier = Normal codeChallenge) /\
    (verifyCodeChallenge codeVerifier codeChallenge = Normal false <->
     createCodeChallenge codeVerifier <> Normal codeChallenge).
Proof.
  intros v c Hv Hlen Hascii.
  assert (Hc : c <> []) by (intros E; rewrite E in Hlen; discriminate Hlen).
  assert (Hac : utf8_encode c = c) by (apply utf8_encode_ascii, Hascii).
  rewrite verifyCodeChallenge_same_length by (rewrite ?Hac; assumption).
  rewrite Hac, createCodeChallenge_valid by exact Hv.
  destruct (decide (base64url (Sha256.sha256 (utf8_encode v)) = c)) as [E|E].
  - rewrite bool_decide_eq_true_2 by exact E. rewrite E.
    split; split; intros H; try reflexivity; congruence.
  - rewrite bool_decide_eq_false_2 by exact E.
    split; split; intros H; try reflexivity; try congruence.
Qed.

Lemma counting_octets (n : Z) :
  is_buffer (Cases.counting n) /\ length (Cases.counting n) = Z.to_nat n.
Proof.
  unfold Cases.counting. split.
  - apply Forall_map, Forall_forall. intros i _. unfold byte. simpl.
    pose proof (Nat.mod_upper_bound (i * 37 + 11) 256). lia.
  - rewrite length_map, length_seq. reflexivity.
Qed.

(** A verifier of the default length, from sixty-four bytes. *)
Lemma createCodeVerifier_conforms_witness :
  43 <= 64 <= 128 /\
  length (Cases.counting 64) = Z.to_nat 64 /\
  exists verifier challenge,
    createCodeVerifier Cases.counting 64 = Normal verifier /\
    Z.of_nat (length verifier) = 64 /\
    Forall unreserved verifier /\
    createCodeChallenge verifier = Normal challenge /\
    length challenge = 43%nat /\
    Forall unreserved challenge /\
    verifyCodeChallenge verifier challenge = Normal true.
Proof.
  assert (Hlen : 43 <= 64 <= 128) by lia.
  destruct (counting_octets 64) as [Hbuf Hn].
  split; [exact Hlen|]. split; [exact Hn|].
  exact (createCodeVerifier_conforms Cases.counting 64 Hlen Hbuf Hn).
Defined.

(** The verifier of the RFC against its challenge, and against that
    challenge with its first letter retyped. *)
Lemma verifyCodeChallenge_compares_witness :
  valid_verifier Scenario.rfc_verifier /\
  length Scenario.rfc_challenge = 43%nat /\
  length Cases.retyped_challenge = 43%nat /\
  verifyCodeChallenge Scenario.rfc_verifier Scenario.rfc_challenge = Normal true /\
  verifyCodeChallenge Scenario.rfc_verifier Cases.retyped_challenge = Normal false.
Proof.
  assert (Hv : valid_verifier Scenario.rfc_verifier)
    by (unfold valid_verifier; simpl; lia).
  assert (Ha : Forall is_ascii Scenario.rfc_challenge)
    by (unfold is_ascii; repeat constructor; cbn; lia).
  assert (Ha' : Forall is_ascii Cases.retyped_challenge).
  { replace Cases.retyped_challenge
      with (js "F9Melhoa2OwvFrEMTJguCHaoeK1t8URWbuGJSstw-cM")
      by (vm_compute; reflexivity).
    unfold is_ascii; repeat constructor; cbn; lia. }
  split; [exact Hv|]. split; [reflexivity|]. split; [reflexivity|]. split.
  - apply (verifyCodeChallenge_compares Scenario.rfc_verifier Scenario.rfc_challenge
             Hv eq_refl Ha).
    apply createCodeChallenge_rfc.
  - apply (verifyCodeChallenge_compares Scenario.rfc_verifier Cases.retyped_challenge
             Hv eq_refl Ha').
    rewrite createCodeChallenge_rfc. intros E. vm_compute in E. discriminate E.
Defined.

End VerifierFacts.

Module StateFacts.
Import JS StateStorage Alphabet CodecFacts EncryptionFacts.

Lemma hex_digit_lower_hex (n : Z) : 0 <= n < 16 -> lower_hex (hex_digit n).
Proof. intros Hn. unfold lower_hex, hex_digit. destruct (Z.ltb_spec n 10); lia. Qed.

Lemma hex_encode_lower_hex (bs : list Z) :
  is_buffer bs -> Forall lower_hex (hex_encode bs).
Proof.
  unfold is_buffer, byte.
  induction 1 as [|b bs Hb _ IH]; [constructor|].
  cbn [hex_encode flat_map app].
  constructor.
  { apply hex_digit_lower_hex.
    split; [apply Z.div_pos; lia | apply Z.div_lt_upper_bound; lia]. }
  constructor; [apply hex_digit_lower_hex, Z.mod_pos_bound; lia | exact IH].
Qed.

(** X12: [generateSecureState()] (and [createState()], which calls it)
    writes the 32 octets it draws as 64 digits of lower-case hexadecimal;
    the octets can be read back from the state, so two draws that differ
    give two states that differ. *)
Theorem generateSecureState_keeps_the_draw :
  forall (randomBytes randomBytes' : Z -> list Z),
    is_buffer (randomBytes 32) ->
    is_buffer (randomBytes' 32) ->
    length (randomBytes 32) = 32%nat ->
    length (generateSecureState randomBytes) = 64%nat /\
    Forall lower_hex (generateSecureState randomBytes) /\
    hex_decode (generateSecureState randomBytes) = randomBytes 32 /\
    (generateSecureState randomBytes = generateSecureState randomBytes' ->
     randomBytes 32 = randomBytes' 32).
Proof.
  intros rb rb' Hb Hb' Hlen. unfold generateSecureState.
  split; [rewrite hex_encode_length, Hlen; reflexivity|].
  split; [apply hex_encode_lower_hex, Hb|].
  split; [apply hex_decode_encode, Hb|].
  intros E. rewrite <- (hex_decode_encode (rb 32)), <- (hex_decode_encode (rb' 32))
    by assumption.
  rewrite E. reflexivity.
Qed.

Lemma clearExpired_lookup (now : Z) (states : gmap jsstring StateEntry) (k : jsstring) :
  clearExpired now states !! k
  = match states !! k with
    | Some e => if expires e <? now then None else Some e
    | None => None
    end.
Proof.
  unfold clearExpired.
  destruct (states !! k) as [e|] eqn:E.
  - destruct (Z.ltb_spec (expires e) now) as [Hlt|Hge].
    + apply map_lookup_filter_None. right. intros e' E'.
      rewrite E in E'. injection E' as <-. simpl. lia.
    + apply map_lookup_filter_Some. split; [exact E | simpl; lia].
  - apply map_lookup_filter_None. left. exact E.
Qed.

(** X13: [clearExpired()] removes exactly the entries whose expiry lies
    strictly before the clock and leaves every other entry as it was; a
    [validateAndRemoveState] made at or after the cleanup returns the same
    whether or not the cleanup ran; and a cleanup makes every earlier
    cleanup redundant. *)
Theorem clearExpired_purges_only_the_expired :
  forall (now : Z) (states : gmap jsstring StateEntry),
    (forall k,
       clearExpired now states !! k
       = match states !! k with
         | Some e => if expires e <? now then None else Some e
         | None => None
         end) /\
    (forall k now',
       now <= now' ->
       fst (validateAndRemoveState now' k (clearExpired now states))
       = fst (validateAndRemoveState now' k states)) /\
    (forall now',
       now' <= now -> clearExpired now (clearExpired now' states) = clearExpired now states).
Proof.
  intros now states. split; [apply clearExpired_lookup|]. split.
  - intros k now' Hle. unfold validateAndRemoveState.
    rewrite clearExpired_lookup.
    destruct (states !! k) as [e|]; [|reflexivity].
    destruct (Z.ltb_spec (expires e) now) as [Hlt|Hge].
    + destruct (Z.ltb_spec (expires e) now'); [reflexivity | lia].
    + destruct (expires e <? now'); reflexivity.
  - intros now' Hle. apply map_eq. intros k.
    rewrite !clearExpired_lookup.
    destruct (states !! k) as [e|]; [|reflexivity].
    destruct (Z.ltb_spec (expires e) now') as [Hlt|Hge].
    + destruct (Z.ltb_spec (expires e) now); [reflexivity | lia].
    + reflexivity.
Qed.

Lemma counting_draws_octets (draw : nat) (n : Z) :
  is_buffer (Cases.counting_draws draw n) /\
  length (Cases.counting_draws draw n) = Z.to_nat n.
Proof.
  unfold Cases.counting_draws. split.
  - apply Forall_map, Forall_forall. intros i _. unfold byte. simpl.
    pose proof (Nat.mod_upper_bound (i * 37 + draw) 256). lia.
  - rewrite length_map, length_seq. reflexivity.
Qed.

(** Two draws of thirty-two bytes. *)
Lemma generateSecureState_keeps_the_draw_witness :
  length (Cases.counting_draws 0 32) = 32%nat /\
  length (generateSecureState (Cases.counting_draws 0)) = 64%nat /\
  Forall lower_hex (generateSecureState (Cases.counting_draws 0)) /\
  hex_decode (generateSecureState (Cases.counting_draws 0)) = Cases.counting_draws 0 32.
Proof.
  destruct (counting_draws_octets 0 32) as [Hb Hlen].
  destruct (counting_draws_octets 5 32) as [Hb' _].
  destruct (generateSecureState_keeps_the_draw (Cases.counting_draws 0)
              (Cases.counting_draws 5) Hb Hb' Hlen) as (H64 & Hhex & Hdec & _).
  split; [exact Hlen|]. split; [exact H64|]. split; [exact Hhex | exact Hdec].
Defined.

End StateFacts.

Module AuthUrlFacts.
Import JS StateStorage Auth Alphabet PKCEFacts VerifierFacts.

(** X14: what [generateAuthUrl] does with its options, for a generator
    that returns 64 octets when asked for 64.  A non-empty
    [options.codeVerifier] is used as it is when its length is between 43
    and 128, and otherwise the call throws "Invalid code verifier" and
    stores nothing; with no verifier (or an empty one) the call returns
    with a generated verifier of 64 unreserved characters.  Whenever the
    call returns, the state is the caller's non-empty [options.state] or
    else the generated one, and the storage holds under it the payload of
    the user and the verifier, expiring ten minutes after the call. *)
Theorem generateAuthUrl_options :
  forall (qs_stringify : list (jsstring * jsstring) -> jsstring)
         (randomBytes : nat -> Z -> list Z) (service : AuthorizationService)
         (now : Z) (userId : jsstring) (options : FortnoxAuthOptions)
         (storage : gmap jsstring StateEntry),
    is_buffer (randomBytes 1%nat 64) ->
    length (randomBytes 1%nat 64) = 64%nat ->
    let result :=
      generateAuthUrl qs_stringify randomBytes service now userId options storage in
    match opt_codeVerifier options with
    | Some (c :: v) =>
        if decide (43 <= length (c :: v) <= 128)%nat
        then exists payload,
               fst result = Normal payload /\ payload_codeVerifier payload = c :: v
        else result = (Throw (Error "Invalid code verifier"), storage)
    | _ =>
        exists payload,
          fst result = Normal payload /\
          length (payload_codeVerifier payload) = 64%nat /\
          Forall unreserved (payload_codeVerifier payload)
    end /\
    forall payload,
      fst result = Normal payload ->
      state payload
      = match opt_state options with
        | Some (c :: s) => c :: s
        | _ => generateSecureState (randomBytes 0%nat)
        end /\
      snd result !! state payload
      = Some {| data := stringify_state_data userId (payload_codeVerifier payload);
                expires := now + 600000 |}.
Proof.
  intros qs rb service now userId options storage Hbuf Hlen result.
  assert (Hgen : PKCE.createCodeVerifier (rb 1%nat) 64
                 = Normal (take 64 (base64url (rb 1%nat 64)))) by reflexivity.
  assert (Hl64 : length (take 64 (base64url (rb 1%nat 64))) = 64%nat).
  { rewrite length_take. pose proof (base64url_length (rb 1%nat 64)). lia. }
  assert (Hdefault : PKCE.createCodeChallenge (take 64 (base64url (rb 1%nat 64)))
                     = Normal (base64url (Sha256.sha256
                                 (utf8_encode (take 64 (base64url (rb 1%nat 64)))))))
    by (apply createCodeChallenge_valid; unfold PKCE.valid_verifier; lia).
  unfold result, generateAuthUrl.
  set (st := or_else (opt_state options) _).
  assert (Hst : st = Normal match opt_state options with
                            | Some (c :: s) => c :: s
                            | _ => generateSecureState (rb 0%nat)
                            end)
    by (unfold st, or_else; destruct (opt_state options) as [[|c s]|]; reflexivity).
  rewrite Hst. cbn [bind]. clearbody st. clear Hst st.
  destruct (opt_codeVerifier options) as [[|c v]|]; cbn [or_else].
  - rewrite Hgen. cbn [bind]. rewrite Hdefault. cbn [bind fst snd]. split.
    + eexists. split; [reflexivity|]. cbn [payload_codeVerifier].
      split; [exact Hl64 | apply Forall_take, base64url_unreserved, Hbuf].
    + intros payload [= <-]. cbn [state payload_codeVerifier]. split; [reflexivity|].
      unfold saveState, DEFAULT_EXPIRY_MS. rewrite lookup_insert_eq. reflexivity.
  - cbn [bind]. destruct (decide (43 <= length (c :: v) <= 128)%nat) as [Hv|Hv].
    + rewrite createCodeChallenge_valid by exact Hv. cbn [bind fst snd]. split.
      * eexists. split; reflexivity.
      * intros payload [= <-]. cbn [state payload_codeVerifier]. split; [reflexivity|].
        unfold saveState, DEFAULT_EXPIRY_MS. rewrite lookup_insert_eq. reflexivity.
    + rewrite createCodeChallenge_invalid by lia. cbn [bind fst snd]. split.
      * reflexivity.
      * intros payload [=].
  - rewrite Hgen. cbn [bind]. rewrite Hdefault. cbn [bind fst snd]. split.
    + eexists. split; [reflexivity|]. cbn [payload_codeVerifier].
      split; [exact Hl64 | apply Forall_take, base64url_unreserved, Hbuf].
    + intros payload [= <-]. cbn [state payload_codeVerifier]. split; [reflexivity|].
      unfold saveState, DEFAULT_EXPIRY_MS. rewrite lookup_insert_eq. reflexivity.
Qed.

(** No options at all; and a verifier of five characters. *)
Lemma generateAuthUrl_options_witness :
  length (Cases.counting_draws 1 64) = 64%nat /\
  (exists payload,
     fst (generateAuthUrl Scenario.no_query Cases.counting_draws Scenario.service 0
            (js "user-1") {| opt_state := None; opt_codeVerifier := None |} ∅)
     = Normal payload /\
     length (payload_codeVerifier payload) = 64%nat /\
     Forall unreserved (payload_codeVerifier payload)) /\
  generateAuthUrl Scenario.no_query Cases.counting_draws Scenario.service 0
    (js "user-1") {| opt_state := None; opt_codeVerifier := Some (js "short") |} ∅
  = (Throw (Error "Invalid code verifier"), ∅).
Proof.
  destruct (StateFacts.counting_draws_octets 1 64) as [Hb Hlen].
  split; [exact Hlen|]. split.
  - exact (proj1 (generateAuthUrl_options Scenario.no_query Cases.counting_draws
                    Scenario.service 0 (js "user-1")
                    {| opt_state := None; opt_codeVerifier := None |} ∅ Hb Hlen)).
  - exact (proj1 (generateAuthUrl_options Scenario.no_query Cases.counting_draws
                    Scenario.service 0 (js "user-1")
                    {| opt_state := None; opt_codeVerifier := Some (js "short") |} ∅
                    Hb Hlen)).
Defined.

End AuthUrlFacts.

(** ** The secure token store *)

Module SecureStoreFacts.
Import JS Encryption Stores Alphabet CodecFacts EncryptionFacts StateFacts.

(** What [encrypt] produces under a key: a blob of lower-case hexadecimal,
    the IV in front, that [decrypt] turns back into the text. *)
Lemma encrypt_sealed (A : AEAD) (key iv : list Z) (enforce : bool) (text : jsstring) :
  AEAD_correct A ->
  length key = KEY_LENGTH -> length iv = IV_LENGTH -> is_buffer iv ->
  is_string text -> isWellFormed text = true ->
  let te := {| encryptionKey := Some key; enforceEncryption := enforce |} in
  exists blob,
    encrypt te iv text = Normal blob /\
    decrypt te blob = Normal text /\
    (64 <= length blob)%nat /\
    Forall lower_hex blob /\
    blob_iv blob = iv.
Proof.
  intros Hc Hkey Hiv Biv Htext Hwf te.
  destruct (decrypt_encrypt_utf8 A key iv enforce text Hc Hkey Hiv Biv Htext)
    as (blob & Henc & Hdec).
  exists blob. split; [exact Henc|].
  split; [unfold te; rewrite Hdec, utf8_decode_encode by assumption; reflexivity|].
  pose proof (utf8_encode_octets text Htext) as Bpt.
  pose proof (seal_tag_length A Hc key iv (utf8_encode text)) as Htag.
  destruct (seal_octets A Hc key iv (utf8_encode text) Bpt) as [Bct Btag].
  unfold te, encrypt in Henc. cbn [encryptionKey] in Henc.
  destruct (gcm_seal key iv (utf8_encode text)) as [ct tag].
  cbn [fst snd] in *. injection Henc as <-.
  split.
  { rewrite hex_encode_length, !length_app, Hiv, Htag.
    unfold IV_LENGTH, AUTH_TAG_LENGTH. lia. }
  split.
  { apply hex_encode_lower_hex.
    repeat (apply Forall_app; split); try assumption. apply hex_decode_octets. }
  apply (blob_parts iv tag ct); assumption.
Qed.

Section Wrapped.
Context {A : AEAD} {S : Type} `{TokenStore S}.

(** The credential that [encryptTokens] makes is cut back by
    [decryptTokens], and its two secrets are blobs. *)
Lemma decryptTokens_encryptTokens (key iv1 iv2 : list Z) (enforce : bool)
    (tokens : FortnoxTokens) :
  AEAD_correct A ->
  length key = KEY_LENGTH ->
  length iv1 = IV_LENGTH -> is_buffer iv1 ->
  length iv2 = IV_LENGTH -> is_buffer iv2 ->
  is_string (access_token tokens) -> isWellFormed (access_token tokens) = true ->
  is_string (refresh_token tokens) -> isWellFormed (refresh_token tokens) = true ->
  let te := {| encryptionKey := Some key; enforceEncryption := enforce |} in
  exists sealed,
    SecureTokenStore.encryptTokens te iv1 iv2 tokens = Normal sealed /\
    SecureTokenStore.decryptTokens te sealed = Normal tokens /\
    (64 <= length (access_token sealed))%nat /\
    Forall lower_hex (access_token sealed) /\
    blob_iv (access_token sealed) = iv1 /\
    (64 <= length (refresh_token sealed))%nat /\
    Forall lower_hex (refresh_token sealed) /\
    blob_iv (refresh_token sealed) = iv2 /\
    expires_in sealed = expires_in tokens /\
    scope sealed = scope tokens /\
    token_type sealed = token_type tokens /\
    expiry_date sealed = expiry_date tokens.
Proof.
  intros Hc Hkey Hiv1 Biv1 Hiv2 Biv2 Ha Hwa Hr Hwr te.
  destruct (encrypt_sealed A key iv1 enforce (access_token tokens))
    as (a & Hea & Hda & Hla & Hha & Hia); try assumption.
  destruct (encrypt_sealed A key iv2 enforce (refresh_token tokens))
    as (r & Her & Hdr & Hlr & Hhr & Hir); try assumption.
  eexists. unfold SecureTokenStore.encryptTokens, SecureTokenStore.decryptTokens, te.
  rewrite Hea, Her. cbn [bind]. split; [reflexivity|].
  cbn [access_token refresh_token expires_in scope token_type expiry_date].
  rewrite Hda, Hdr. cbn [bind].
  split; [destruct tokens; reflexivity|].
  repeat (split; [assumption || reflexivity|]). reflexivity.
Qed.

(** X15: the secure store encrypts on the way in and decrypts on the way
    out.  With a 32-byte key, two IVs of 16 octets from the generator and
    well-formed token strings, [saveTokens] and [updateTokens] hand the
    wrapped store a credential whose [access_token] and [refresh_token] are
    blobs of at least 64 digits of lower-case hexadecimal (the other
    fields are passed on), and [getTokens] over any store that returns
    this credential yields the original tokens. *)
Theorem secure_store_round_trip :
  forall (base : S) (key iv1 iv2 : list Z) (enforce : bool) (userId : jsstring)
         (tokens : FortnoxTokens),
    AEAD_correct A ->
    length key = KEY_LENGTH ->
    length iv1 = IV_LENGTH -> is_buffer iv1 ->
    length iv2 = IV_LENGTH -> is_buffer iv2 ->
    is_string (access_token tokens) -> isWellFormed (access_token tokens) = true ->
    is_string (refresh_token tokens) -> isWellFormed (refresh_token tokens) = true ->
    let store :=
      {| SecureTokenStore.baseStore := base;
         SecureTokenStore.encryption :=
           {| encryptionKey := Some key; enforceEncryption := enforce |} |} in
    exists sealed,
      (64 <= length (access_token sealed))%nat /\
      Forall lower_hex (access_token sealed) /\
      (64 <= length (refresh_token sealed))%nat /\
      Forall lower_hex (refresh_token sealed) /\
      SecureTokenStore.saveTokens iv1 iv2 userId tokens store
      = Normal {| SecureTokenStore.baseStore := saveTokens userId sealed base;
                  SecureTokenStore.encryption := SecureTokenStore.encryption store |} /\
      SecureTokenStore.updateTokens iv1 iv2 userId tokens store
      = Normal {| SecureTokenStore.baseStore := updateTokens userId sealed base;
                  SecureTokenStore.encryption := SecureTokenStore.encryption store |} /\
      forall written,
        getTokens userId written = Some sealed ->
        SecureTokenStore.getTokens userId
          {| SecureTokenStore.baseStore := written;
             SecureTokenStore.encryption := SecureTokenStore.encryption store |}
        = Normal (Some tokens).
Proof.
  intros base key iv1 iv2 enforce userId tokens Hc Hkey Hiv1 Biv1 Hiv2 Biv2
         Ha Hwa Hr Hwr store.
  destruct (decryptTokens_encryptTokens key iv1 iv2 enforce tokens)
    as (sealed & Henc & Hdec & Hla & Hha & _ & Hlr & Hhr & _); try assumption.
  exists sealed. do 4 (split; [assumption|]).
  unfold SecureTokenStore.saveTokens, SecureTokenStore.updateTokens,
    SecureTokenStore.getTokens, store.
  cbn [SecureTokenStore.baseStore SecureTokenStore.encryption].
  rewrite Henc. cbn [bind]. split; [reflexivity|]. split; [reflexivity|].
  intros written Hget. rewrite Hget, Hdec. reflexivity.
Qed.

(** X16: the edges of the secure store.  [getTokens] returns [null] when
    the wrapped store has nothing; with a key, a stored [access_token] that
    the cipher does not authenticate makes [getTokens] throw "Decryption
    failed: ..."; with no key and encryption not enforced, [saveTokens]
    passes the tokens to the wrapped store as they are (in clear) and
    [getTokens] returns what the wrapped store returns. *)
Theorem secure_store_failures :
  forall (store : SecureTokenStore.SecureStore (S := S)) (userId : jsstring),
    (getTokens userId (SecureTokenStore.baseStore store) = None ->
     SecureTokenStore.getTokens userId store = Normal None) /\
    (forall key stored e,
       encryptionKey (SecureTokenStore.encryption store) = Some key ->
       getTokens userId (SecureTokenStore.baseStore store) = Some stored ->
       gcm_open key (blob_iv (access_token stored)) (blob_authTag (access_token stored))
         (subarray_from (hex_decode (access_token stored)) (IV_LENGTH + AUTH_TAG_LENGTH))
       = Throw e ->
       exists e',
         SecureTokenStore.getTokens userId store = Throw e' /\ DecryptionFailed e') /\
    (encryptionKey (SecureTokenStore.encryption store) = None ->
     enforceEncryption (SecureTokenStore.encryption store) = false ->
     (forall iv1 iv2 tokens,
        SecureTokenStore.saveTokens iv1 iv2 userId tokens store
        = Normal {| SecureTokenStore.baseStore :=
                      saveTokens userId tokens (SecureTokenStore.baseStore store);
                    SecureTokenStore.encryption := SecureTokenStore.encryption store |}) /\
     SecureTokenStore.getTokens userId store
     = Normal (getTokens userId (SecureTokenStore.baseStore store))).
Proof.
  intros store userId. split; [|split].
  - intros Hnone. unfold SecureTokenStore.getTokens. rewrite Hnone. reflexivity.
  - intros key stored e Hkey Hget Hopen.
    unfold SecureTokenStore.getTokens, SecureTokenStore.decryptTokens.
    rewrite Hget. unfold decrypt at 1. rewrite Hkey.
    rewrite blob_encryptedData_bytes, Hopen. cbn [bind try_catch].
    eexists. split; [reflexivity|]. eexists. reflexivity.
  - intros Hkey Henf. split.
    + intros iv1 iv2 tokens.
      unfold SecureTokenStore.saveTokens, SecureTokenStore.encryptTokens, encrypt.
      rewrite Hkey, Henf. cbn [bind]. destruct tokens; reflexivity.
    + unfold SecureTokenStore.getTokens, SecureTokenStore.decryptTokens, decrypt.
      rewrite Hkey, Henf.
      destruct (getTokens userId (SecureTokenStore.baseStore store)) as [[]|];
        reflexivity.
Qed.

End Wrapped.

(** The credential of the scenario, saved over an empty in-memory store
    with the stream cipher, and read back. *)
Lemma secure_store_round_trip_witness :
  AEAD_correct Stream.aead /\
  length Scenario.key = KEY_LENGTH /\
  length Cases.iv2 = IV_LENGTH /\
  exists sealed,
    SecureTokenStore.saveTokens (A := Stream.aead) Scenario.iv Cases.iv2
      (js "user-1") Scenario.issued
      {| SecureTokenStore.baseStore := (∅ : gmap jsstring FortnoxTokens);
         SecureTokenStore.encryption := Scenario.codec |}
    = Normal {| SecureTokenStore.baseStore := saveTokens (js "user-1") sealed ∅;
                SecureTokenStore.encryption := Scenario.codec |} /\
    (64 <= length (access_token sealed))%nat /\
    SecureTokenStore.getTokens (A := Stream.aead) (js "user-1")
      {| SecureTokenStore.baseStore := saveTokens (js "user-1") sealed ∅;
         SecureTokenStore.encryption := Scenario.codec |}
    = Normal (Some Scenario.issued).
Proof.
  destruct key_iv_sizes as (Hkey & Hiv & Biv).
  assert (Hiv2 : length Cases.iv2 = IV_LENGTH) by reflexivity.
  assert (Biv2 : is_buffer Cases.iv2)
    by (unfold is_buffer, byte; repeat constructor; lia).
  assert (Ha : is_string (access_token Scenario.issued))
    by (unfold is_string, code_unit; repeat constructor; cbn; lia).
  assert (Hr : is_string (refresh_token Scenario.issued))
    by (unfold is_string, code_unit; repeat constructor; cbn; lia).
  split; [exact stream_correct|]. split; [exact Hkey|]. split; [exact Hiv2|].
  destruct (secure_store_round_trip (A := Stream.aead)
              (∅ : gmap jsstring FortnoxTokens) Scenario.key Scenario.iv Cases.iv2
              true (js "user-1") Scenario.issued stream_correct Hkey Hiv Biv Hiv2 Biv2
              Ha eq_refl Hr eq_refl)
    as (sealed & Hla & _ & _ & _ & Hsave & _ & Hread).
  exists sealed. split; [exact Hsave|]. split; [exact Hla|].
  apply Hread. apply lookup_insert_eq.
Defined.

End SecureStoreFacts.

(** ** The code exchange, revocation and the audit columns *)

Module ExchangeFacts.
Import JS Stores Tokens Exchange TokensFacts ManagerFacts.

Section Exchanged.
Context {Store : Type} `{TokenStore Store}.

(** X17: [exchangeCodeForTokens], when the endpoint grants the code with
    an integer [expires_in] that is not negative (the clock and the date of
    expiry within [MAX_SAFE_INTEGER], so that the code's arithmetic on
    doubles is exact), returns the response with
    [expiry_date = now + expires_in * 1000] and saves it for the user.
    Over a store that returns what [saveTokens] wrote, [getValidTokens]
    called [dt] milliseconds after the exchange returns that credential
    unchanged, with no exchange, when [expires_in * 1000 - dt] is at least
    the five-minute buffer, and otherwise sends a refresh with the refresh
    token of the response. *)
Theorem exchangeCodeForTokens_then_getValidTokens :
  forall (endpoint : request -> response) (service : Auth.AuthorizationService)
         (now dt : Z) (userId code codeVerifier : jsstring) (store : Store)
         (d : TokenResponse) (w : world) (extra : nat),
    endpoint {| grant_type := js "authorization_code";
                code := code;
                redirect_uri := Auth.redirectUri service;
                code_verifier := codeVerifier;
                authorization :=
                  basic_authorization (Auth.clientId service)
                    (Auth.clientSecret service) |} = Ok d ->
    let tokens := tokens_of_response now d in
    getTokens userId (saveTokens userId tokens store) = Some tokens ->
    0 <= now -> 0 <= dt -> 0 <= data_expires_in d ->
    now + data_expires_in d * 1000 <= MAX_SAFE_INTEGER ->
    now + dt <= MAX_SAFE_INTEGER ->
    now + data_expires_in d * 1000 <> 0 ->
    let result :=
      exchangeCodeForTokens endpoint service now userId code codeVerifier store in
    let called := getValidTokens userId (init (snd result) (now + dt)) in
    result = (Normal tokens, saveTokens userId tokens store) /\
    (300000 <= data_expires_in d * 1000 - dt ->
     run (1 + extra) w called
     = State (snd result) ∅ [Fulfilled tokens] [] [] 0 (now + dt)) /\
    (data_expires_in d * 1000 - dt < 300000 ->
     run 2 w called
     = State (snd result) (<[userId := []]> ∅) [Pending] []
             [(0%nat, userId, data_refresh_token d)] 1 (now + dt)).
Proof.
  intros endpoint service now dt userId code codeVerifier store d w extra
         Hok tokens Hlaw Hnow Hdt Hin Hsafe Hsafe' Hne result called.
  assert (Hres : result = (Normal tokens, saveTokens userId tokens store))
    by (unfold result, exchangeCodeForTokens; rewrite Hok; reflexivity).
  split; [exact Hres|].
  unfold called. rewrite Hres. cbn [snd]. split.
  - intros Hfresh. apply (call_returns w userId tokens _ [] 0); [exact Hlaw|].
    unfold isTokenExpired, DEFAULT_BUFFER_MS, tokens.
    cbn [expiry_date tokens_of_response].
    destruct (Z.eqb_spec (now + data_expires_in d * 1000) 0); [contradiction|].
    apply Z.ltb_ge. lia.
  - intros Hstale.
    apply (call_to_exchange w userId tokens _ ∅ [] [] 0); [exact Hlaw | | apply lookup_empty].
    unfold isTokenExpired, DEFAULT_BUFFER_MS, tokens.
    cbn [expiry_date tokens_of_response].
    destruct (_ =? 0); [reflexivity|]. apply Z.ltb_lt. lia.
Qed.

(** X18: when the endpoint fails, [exchangeCodeForTokens] saves nothing,
    so that whatever the store held for the user is still there.  An axios
    error with a response that has a body is rethrown as "Failed to
    exchange code: " followed by the [error_description] of the body when
    there is one and it is not empty, and by the message of the error
    otherwise; an axios error with a response whose body is [null] or
    [undefined] ends in the TypeError of reading [error_description] off
    that body, thrown from inside the [catch] block; anything else is
    rethrown as it is. *)
Theorem exchangeCodeForTokens_failure :
  forall (endpoint : request -> response) (service : Auth.AuthorizationService)
         (now : Z) (userId code codeVerifier : jsstring) (store : Store) (f : failure),
    endpoint {| grant_type := js "authorization_code";
                code := code;
                redirect_uri := Auth.redirectUri service;
                code_verifier := codeVerifier;
                authorization :=
                  basic_authorization (Auth.clientId service)
                    (Auth.clientSecret service) |} = Failed f ->
    let result :=
      exchangeCodeForTokens endpoint service now userId code codeVerifier store in
    snd result = store /\
    getTokens userId (snd result) = getTokens userId store /\
    (forall description msg,
       f = AxiosResponseError (Some description) msg ->
       description <> EmptyString ->
       fst result
       = Throw (Error (String.append "Failed to exchange code: " description))) /\
    (forall description msg,
       f = AxiosResponseError description msg ->
       description = None \/ description = Some EmptyString ->
       fst result = Throw (Error (String.append "Failed to exchange code: " msg))) /\
    (forall data msg,
       f = AxiosBodilessError data msg ->
       fst result
       = Throw (TypeError
                  (String.append "Cannot read properties of "
                     (String.append (nullish_name data)
                        " (reading 'error_description')")))) /\
    (forall e, f = Thrown e -> fst result = Throw e).
Proof.
  intros endpoint service now userId code codeVerifier store f Hf result.
  unfold result, exchangeCodeForTokens. rewrite Hf. cbn [fst snd].
  split; [reflexivity|]. split; [reflexivity|]. split; [|split; [|split]].
  - intros description msg -> Hne.
    destruct description as [|c d]; [congruence | reflexivity].
  - intros description msg -> [-> | ->]; reflexivity.
  - intros data msg ->. reflexivity.
  - intros e ->. reflexivity.
Qed.

End Exchanged.

(** The scenario of the specification: a code exchanged at [T] for a
    credential of 3600 seconds, asked for at [T + 100 s] and at
    [T + 3600 s - 60 s]. *)
Lemma exchangeCodeForTokens_then_getValidTokens_witness :
  let result :=
    exchangeCodeForTokens Cases.grant_code Scenario.service 1000 (js "user-1")
      (js "code-1") Scenario.rfc_verifier (∅ : gmap jsstring FortnoxTokens) in
  let tokens := tokens_of_response 1000 Scenario.refreshed in
  fst result = Normal tokens /\
  expiry_date tokens = Some 3601000 /\
  run (1 + 0) Scenario.granting
      (getValidTokens (js "user-1") (init (snd result) (1000 + 100000)))
  = State (snd result) ∅ [Fulfilled tokens] [] [] 0 (1000 + 100000) /\
  run 2 Scenario.granting
      (getValidTokens (js "user-1") (init (snd result) (1000 + 3540000)))
  = State (snd result) (<[js "user-1" := []]> ∅) [Pending] []
          [(0%nat, js "user-1", js "refresh-2")] 1 (1000 + 3540000).
Proof.
  intros result tokens.
  assert (Hlaw : getTokens (js "user-1")
                   (saveTokens (js "user-1") tokens
                      (∅ : gmap jsstring FortnoxTokens)) = Some tokens)
    by apply lookup_insert_eq.
  assert (Hne : 1000 + data_expires_in Scenario.refreshed * 1000 <> 0)
    by (simpl; lia).
  assert (Hnow : 0 <= 1000) by lia.
  assert (Hin : 0 <= data_expires_in Scenario.refreshed) by (simpl; lia).
  assert (Hsafe : 1000 + data_expires_in Scenario.refreshed * 1000 <= MAX_SAFE_INTEGER)
    by (unfold MAX_SAFE_INTEGER; simpl; lia).
  split; [reflexivity|]. split; [reflexivity|]. split.
  - assert (Hdt : 0 <= 100000) by lia.
    assert (Hsafe' : 1000 + 100000 <= MAX_SAFE_INTEGER)
      by (unfold MAX_SAFE_INTEGER; lia).
    apply (exchangeCodeForTokens_then_getValidTokens Cases.grant_code
             Scenario.service 1000 100000 (js "user-1") (js "code-1")
             Scenario.rfc_verifier ∅ Scenario.refreshed Scenario.granting 0
             eq_refl Hlaw Hnow Hdt Hin Hsafe Hsafe' Hne).
    simpl. lia.
  - assert (Hdt : 0 <= 3540000) by lia.
    assert (Hsafe' : 1000 + 3540000 <= MAX_SAFE_INTEGER)
      by (unfold MAX_SAFE_INTEGER; lia).
    apply (exchangeCodeForTokens_then_getValidTokens Cases.grant_code
             Scenario.service 1000 3540000 (js "user-1") (js "code-1")
             Scenario.rfc_verifier ∅ Scenario.refreshed Scenario.granting 0
             eq_refl Hlaw Hnow Hdt Hin Hsafe Hsafe' Hne).
    simpl. lia.
Defined.

(** A code the endpoint refuses with [invalid_grant]. *)
Lemma exchangeCodeForTokens_failure_witness :
  let result :=
    exchangeCodeForTokens Cases.refuse_code Scenario.service 1000 (js "user-1")
      (js "code-1") Scenario.rfc_verifier Scenario.store in
  snd result = Scenario.store /\
  fst result = Throw (Error "Failed to exchange code: invalid_grant").
Proof.
  intros result.
  destruct (exchangeCodeForTokens_failure Cases.refuse_code Scenario.service 1000
              (js "user-1") (js "code-1") Scenario.rfc_verifier Scenario.store
              (AxiosResponseError (Some "invalid_grant"%string)
                 "Request failed with status code 400") eq_refl)
    as (Hstore & _ & Hdesc & _).
  split; [exact Hstore|].
  apply (Hdesc "invalid_grant"%string "Request failed with status code 400"%string);
    [reflexivity | discriminate].
Defined.

End ExchangeFacts.

Module RevokeFacts.
Import JS Stores Tokens TokensFacts ManagerFacts PostgresFacts.

Section Race.
Context {Store : Type} `{TokenStore Store}.


End Race.



End RevokeFacts.

Module AuditFacts.
Import JS Stores Time PostgresFacts.

Lemma apply_write_row (userId : jsstring) (w : write) (db : PostgresStore.Database)
    (old : PostgresStore.Row) :
  PostgresStore.VARCHAR 255 userId = Some userId ->
  PostgresStore.in_range (written w) = true ->
  PostgresStore.rows db !! userId = Some old ->
  PostgresStore.rows (apply_write userId db w) !! userId
  = Some (PostgresStore.row_of (written w) (PostgresStore.col_created_at old)
            (write_time w)).
Proof.
  intros Hid Hr E.
  destruct w as [now tokens|now tokens]; cbn [apply_write written write_time] in *.
  - unfold PostgresStore.saveTokens, at_time. rewrite Hid, Hr. simpl. rewrite E. simpl.
    apply lookup_insert_eq.
  - unfold PostgresStore.updateTokens, at_time. rewrite Hr. simpl. rewrite E. simpl.
    apply lookup_insert_eq.
Qed.

Lemma apply_write_other (userId other : jsstring) (w : write)
    (db : PostgresStore.Database) :
  PostgresStore.VARCHAR 255 userId = Some userId ->
  other <> userId ->
  PostgresStore.rows (apply_write userId db w) !! other
  = PostgresStore.rows db !! other.
Proof.
  intros Hid Hne. destruct w as [now tokens|now tokens]; cbn [apply_write].
  - unfold PostgresStore.saveTokens, at_time. rewrite Hid.
    destruct (PostgresStore.in_range tokens); simpl; [|reflexivity].
    apply lookup_insert_ne. congruence.
  - unfold PostgresStore.updateTokens, at_time.
    destruct (PostgresStore.in_range tokens); simpl; [|reflexivity].
    destruct (PostgresStore.rows db !! userId); simpl; [|reflexivity].
    apply lookup_insert_ne. congruence.
Qed.

(** A write the server rejects leaves every row as it was. *)
Lemma apply_write_rejected (userId : jsstring) (w : write)
    (db : PostgresStore.Database) :
  PostgresStore.in_range (written w) = false ->
  PostgresStore.rows (apply_write userId db w) = PostgresStore.rows db.
Proof.
  intros Hr. destruct w as [now tokens|now tokens]; cbn [apply_write written] in *.
  - rewrite (proj1 (out_of_range_rejected userId tokens (at_time now db) Hr)).
    reflexivity.
  - rewrite (proj2 (out_of_range_rejected userId tokens (at_time now db) Hr)).
    reflexivity.
Qed.

Lemma apply_writes_created (userId : jsstring) (ws : list write)
    (db : PostgresStore.Database) (old : PostgresStore.Row) :
  PostgresStore.VARCHAR 255 userId = Some userId ->
  Forall (fun w => PostgresStore.in_range (written w) = true) ws ->
  PostgresStore.rows db !! userId = Some old ->
  exists row,
    PostgresStore.rows (apply_writes userId ws db) !! userId = Some row /\
    PostgresStore.col_created_at row = PostgresStore.col_created_at old.
Proof.
  intros Hid. unfold apply_writes. revert db old.
  induction ws as [|w ws IH]; intros db old Hws E; simpl; [eauto|].
  inversion Hws as [|? ? Hw Hws']; subst.
  destruct (IH _ _ Hws' (apply_write_row userId w db old Hid Hw E))
    as (row & Hrow & Hc).
  exists row. split; [exact Hrow | exact Hc].
Qed.

Lemma apply_writes_other (userId other : jsstring) (ws : list write)
    (db : PostgresStore.Database) :
  PostgresStore.VARCHAR 255 userId = Some userId ->
  other <> userId ->
  PostgresStore.rows (apply_writes userId ws db) !! other
  = PostgresStore.rows db !! other.
Proof.
  intros Hid Hne. unfold apply_writes. revert db.
  induction ws as [|w ws IH]; intros db; simpl; [reflexivity|].
  rewrite IH. apply apply_write_other; assumption.
Qed.

(** X19: the audit columns of the relational store, for writes the table
    takes and keeps as they are.  After a first [saveTokens] at time [t0]
    and any further saves and updates of the user's row, each at a time of
    its own, the row holds the tokens of the last write ([getTokens]
    returns them, the date as a string), [updated_at] is the time of the
    last write, and [created_at] is still what it was: the
    time of the first save, or the [created_at] of the row that was there
    before.  The rows of other users are untouched, and a write the server
    rejects (a number that does not fit its column) leaves every row,
    [updated_at] included, as it was. *)
Theorem postgres_created_at_is_kept :
  forall (db : PostgresStore.Database) (userId : jsstring) (t0 : Z)
         (first : FortnoxTokens) (ws : list write) (w : write),
    PostgresStore.storable userId first = true ->
    Forall (fun w => PostgresStore.storable userId (written w) = true) ws ->
    PostgresStore.storable userId (written w) = true ->
    let created :=
      match PostgresStore.rows db !! userId with
      | Some old => PostgresStore.col_created_at old
      | None => t0
      end in
    let db' :=
      apply_write userId
        (apply_writes userId ws (PostgresStore.saveTokens userId first (at_time t0 db)))
        w in
    PostgresStore.rows db' !! userId
    = Some (PostgresStore.row_of (written w) created (write_time w)) /\
    PostgresStore.getTokens userId db'
    = Some (PostgresStore.selected (written w)) /\
    (forall other,
       if decide (other = userId) then True
       else PostgresStore.rows db' !! other = PostgresStore.rows db !! other) /\
    (forall refused,
       PostgresStore.in_range (written refused) = false ->
       PostgresStore.rows (apply_write userId db' refused) = PostgresStore.rows db').
Proof.
  intros db userId t0 first ws w Hfirst Hws Hw created db'.
  destruct (storable_fits userId first Hfirst) as [Hid Hr0].
  destruct (storable_fits userId (written w) Hw) as [_ Hrw].
  assert (Hrs : Forall (fun w => PostgresStore.in_range (written w) = true) ws).
  { eapply Forall_impl; [exact Hws|]. intros x Hx. apply (storable_fits userId), Hx. }
  assert (Hstart : PostgresStore.rows
                     (PostgresStore.saveTokens userId first (at_time t0 db)) !! userId
                   = Some (PostgresStore.row_of first created t0)).
  { unfold PostgresStore.saveTokens, at_time, created. rewrite Hid, Hr0. simpl.
    rewrite lookup_insert_eq.
    destruct (PostgresStore.rows db !! userId); reflexivity. }
  destruct (apply_writes_created userId ws _ _ Hid Hrs Hstart) as (row & Hrow & Hc).
  assert (Hlast : PostgresStore.rows db' !! userId
                  = Some (PostgresStore.row_of (written w) created (write_time w))).
  { unfold db'. rewrite (apply_write_row userId w _ row Hid Hrw Hrow), Hc. reflexivity. }
  split; [exact Hlast|]. split; [|split].
  - unfold PostgresStore.getTokens. rewrite Hlast. reflexivity.
  - intros other. destruct (decide (other = userId)) as [|Hne]; [exact I|].
    unfold db'. rewrite apply_write_other, apply_writes_other by assumption.
    unfold PostgresStore.saveTokens, at_time. rewrite Hid, Hr0. simpl.
    apply lookup_insert_ne. congruence.
  - intros refused Hrefused. apply apply_write_rejected, Hrefused.
Qed.

(** The credential of the scenario saved at time 10, then updated at 20
    and saved again at 30. *)
Lemma postgres_created_at_is_kept_witness :
  let db' :=
    apply_write (js "user-1")
      (apply_writes (js "user-1") [Update 20 Scenario.overwriting]
         (PostgresStore.saveTokens (js "user-1") Scenario.issued
            (at_time 10 Scenario.empty_database)))
      (Save 30 Scenario.issued) in
  PostgresStore.storable (js "user-1") Scenario.issued = true /\
  PostgresStore.storable (js "user-1") Scenario.overwriting = true /\
  PostgresStore.rows db' !! js "user-1"
  = Some (PostgresStore.row_of Scenario.issued 10 30) /\
  PostgresStore.getTokens (js "user-1") db'
  = Some (PostgresStore.selected Scenario.issued).
Proof.
  intros db'.
  assert (Hs : PostgresStore.storable (js "user-1") Scenario.issued = true)
    by (vm_compute; reflexivity).
  assert (Hs' : PostgresStore.storable (js "user-1") Scenario.overwriting = true)
    by (vm_compute; reflexivity).
  assert (Hws : Forall (fun w => PostgresStore.storable (js "user-1") (written w) = true)
                  [Update 20 Scenario.overwriting])
    by (constructor; [exact Hs' | constructor]).
  destruct (postgres_created_at_is_kept Scenario.empty_database (js "user-1") 10
              Scenario.issued [Update 20 Scenario.overwriting] (Save 30 Scenario.issued)
              Hs Hws Hs) as (Hrow & Hget & _).
  split; [exact Hs|]. split; [exact Hs'|]. split; [exact Hrow | exact Hget].
Defined.

End AuditFacts.

(** ** A state used twice *)

Module ReuseFacts.
Import JS StateStorage Auth PKCEFacts.

(** A payload written by [generateAuthUrl] and not yet expired is read
    back by [validateState]. *)
Lemma validateState_saved (now e : Z) (s user verifier : jsstring)
    (storage : gmap jsstring StateEntry) :
  storage !! s = Some {| data := stringify_state_data user verifier; expires := e |} ->
  is_string user -> is_string verifier -> now <= e ->
  fst (validateState now s storage)
  = Normal (Some {| userId := Some (Json.JString user);
                    codeVerifier := Some (Json.JString verifier) |}).
Proof.
  intros Hs Hu Hv Hnow.
  rewrite AuthFacts.validateState_result.
  rewrite (StateStorageFacts.validateAndRemoveState_live now s _ storage Hs)
    by exact Hnow.
  cbn [data]. rewrite (StringifyFacts.parse_state_data user verifier) by assumption.
  destruct (FlowFacts.lookup_state_data user verifier) as [-> ->].
  unfold stringify_state_data. change (js "{") with [123]. reflexivity.
Qed.

(** [generateAuthUrl] with a state and a valid verifier of the caller's. *)
Lemma generateAuthUrl_given
    (qs_stringify : list (jsstring * jsstring) -> jsstring)
    (randomBytes : nat -> Z -> list Z) (service : AuthorizationService)
    (now : Z) (user s verifier : jsstring) (storage : gmap jsstring StateEntry) :
  s <> [] -> PKCE.valid_verifier verifier ->
  snd (generateAuthUrl qs_stringify randomBytes service now user
         {| opt_state := Some s; opt_codeVerifier := Some verifier |} storage)
  = saveState now s (stringify_state_data user verifier) DEFAULT_EXPIRY_MS storage.
Proof.
  intros Hs Hv. unfold generateAuthUrl. cbn [opt_state opt_codeVerifier].
  destruct s as [|c s]; [congruence|].
  destruct verifier as [|c' v]; [unfold PKCE.valid_verifier in Hv; simpl in Hv; lia|].
  cbn [or_else bind]. rewrite createCodeChallenge_valid by exact Hv. reflexivity.
Qed.

(** X20: a state supplied by the caller is a single slot.  When two
    authorization flows are started under the same [options.state], the
    second [generateAuthUrl] overwrites what the first stored: within ten
    minutes of the second call, [validateState] resolves the state to the
    user and the verifier of the second flow, and once it has been
    resolved nothing is left for the first. *)
Theorem reused_state_resolves_to_the_last_flow :
  forall (qs_stringify : list (jsstring * jsstring) -> jsstring)
         (randomBytes : nat -> Z -> list Z) (service : AuthorizationService)
         (t1 t2 now now' : Z) (s userA userB verifierA verifierB : jsstring)
         (storage : gmap jsstring StateEntry),
    s <> [] ->
    PKCE.valid_verifier verifierA ->
    PKCE.valid_verifier verifierB ->
    is_string userB ->
    is_string verifierB ->
    now <= t2 + DEFAULT_EXPIRY_MS ->
    let first :=
      snd (generateAuthUrl qs_stringify randomBytes service t1 userA
             {| opt_state := Some s; opt_codeVerifier := Some verifierA |} storage) in
    let second :=
      snd (generateAuthUrl qs_stringify randomBytes service t2 userB
             {| opt_state := Some s; opt_codeVerifier := Some verifierB |} first) in
    fst (validateState now s second)
    = Normal (Some {| userId := Some (Json.JString userB);
                      codeVerifier := Some (Json.JString verifierB) |}) /\
    fst (validateState now' s (snd (validateState now s second))) = Normal None.
Proof.
  intros qs rb service t1 t2 now now' s userA userB vA vB storage
         Hs HvA HvB HuB HsB Hnow first second.
  assert (Hsecond : second
                    = saveState t2 s (stringify_state_data userB vB) DEFAULT_EXPIRY_MS
                        first)
    by (apply generateAuthUrl_given; assumption).
  split.
  - apply (validateState_saved now (t2 + DEFAULT_EXPIRY_MS) s userB vB);
      try assumption.
    rewrite Hsecond. unfold saveState. apply lookup_insert_eq.
  - rewrite AuthFacts.validateState_result, AuthFacts.validateState_storage.
    rewrite StateStorageFacts.validateAndRemoveState_absent
      by apply lookup_delete_eq.
    reflexivity.
Qed.

(** Two users sent off with the same state, one minute apart. *)
Lemma reused_state_resolves_to_the_last_flow_witness :
  let first :=
    snd (generateAuthUrl Scenario.no_query Scenario.randomBytes Scenario.service 0
           (js "user-1")
           {| opt_state := Some (js "state-1");
              opt_codeVerifier := Some Scenario.rfc_verifier |} ∅) in
  let second :=
    snd (generateAuthUrl Scenario.no_query Scenario.randomBytes Scenario.service 60000
           (js "user-2")
           {| opt_state := Some (js "state-1");
              opt_codeVerifier := Some Scenario.rfc_verifier |} first) in
  PKCE.valid_verifier Scenario.rfc_verifier /\
  is_string (js "user-2") /\
  120000 <= 60000 + DEFAULT_EXPIRY_MS /\
  fst (validateState 120000 (js "state-1") second)
  = Normal (Some {| userId := Some (Json.JString (js "user-2"));
                    codeVerifier := Some (Json.JString Scenario.rfc_verifier) |}) /\
  fst (validateState 120001 (js "state-1")
         (snd (validateState 120000 (js "state-1") second)))
  = Normal None.
Proof.
  intros first second.
  assert (Hs : js "state-1" <> []) by discriminate.
  assert (Hv : PKCE.valid_verifier Scenario.rfc_verifier)
    by (unfold PKCE.valid_verifier; simpl; lia).
  assert (Hu : is_string (js "user-2"))
    by (unfold is_string, code_unit; repeat constructor; cbn; lia).
  assert (Hsv : is_string Scenario.rfc_verifier)
    by (unfold is_string, code_unit; repeat constructor; cbn; lia).
  assert (Hnow : 120000 <= 60000 + DEFAULT_EXPIRY_MS)
    by (unfold DEFAULT_EXPIRY_MS; lia).
  split; [exact Hv|]. split; [exact Hu|]. split; [exact Hnow|].
  exact (reused_state_resolves_to_the_last_flow Scenario.no_query Scenario.randomBytes
           Scenario.service 0 60000 120000 120001 (js "state-1") (js "user-1")
           (js "user-2") Scenario.rfc_verifier Scenario.rfc_verifier ∅
           Hs Hv Hv Hu Hsv Hnow).
Defined.

End ReuseFacts.
